(** * Pin-Cover-auto: the OAuth bridge, the request router and the pin
      publisher, embedded in Rocq

    The development follows [src/server.js] and [src/pinterest-poster.js].
    A JavaScript string is the list of its UTF-16 code units, a byte buffer
    a list of byte values, a value of a request body is [undefined] or a
    JSON value, [process.env] and the request's [config] object are finite
    maps from property names to values, and code that can throw returns a
    value of the completion type [exc]. *)

From Stdlib Require Import ZArith Lia ZifyBool Ascii String List Bool.
From stdpp Require Import base list gmap strings.

(** ** JavaScript strings and the string methods the program calls *)

Module JS.

(** The code unit of an ASCII character, and the string of an ASCII
    literal. *)
Definition chr (a : ascii) : Z := Z.of_N (N_of_ascii a).

Definition js (s : string) : list Z := map chr (list_ascii_of_string s).

(** [s === t] on two strings. *)
Definition streq (s t : list Z) : bool := bool_decide (s = t).

(** Truthiness of a string: [if (s)]. *)
Definition nonempty (s : list Z) : bool :=
  match s with [] => false | _ :: _ => true end.

(** WhiteSpace and LineTerminator code points of ECMAScript, the ones
    [String.prototype.trim] strips. *)
Definition is_ws (c : Z) : bool :=
  ((9 <=? c) && (c <=? 13) || (c =? 32) || (c =? 160) || (c =? 5760)
   || (8192 <=? c) && (c <=? 8202) || (c =? 8232) || (c =? 8233)
   || (c =? 8239) || (c =? 8287) || (c =? 12288) || (c =? 65279))%Z.

Fixpoint trimStart (s : list Z) : list Z :=
  match s with
  | c :: r => if is_ws c then trimStart r else s
  | [] => []
  end.

Definition trimEnd (s : list Z) : list Z := rev (trimStart (rev s)).

Definition trim (s : list Z) : list Z := trimEnd (trimStart s).

(** [s.startsWith(p)] *)
Fixpoint startsWith (p s : list Z) : bool :=
  match p, s with
  | [], _ => true
  | a :: p', b :: s' => (a =? b)%Z && startsWith p' s'
  | _ :: _, [] => false
  end.

(** [s.includes(p)] *)
Fixpoint includes (p s : list Z) : bool :=
  startsWith p s || match s with [] => false | _ :: r => includes p r end.

(** [s.replace(/c/g, rep)] for a pattern that is one literal character. *)
Fixpoint replaceAll (c : Z) (rep : list Z) (s : list Z) : list Z :=
  match s with
  | [] => []
  | x :: r => (if (x =? c)%Z then rep else [x]) ++ replaceAll c rep r
  end.

(** [s.split(sep)] for a separator of one character: the pieces between
    the separators, the empty ones included; [cur] is the piece being
    read, kept reversed. *)
Fixpoint split_go (sep : Z) (cur : list Z) (s : list Z) : list (list Z) :=
  match s with
  | [] => [rev cur]
  | x :: r => if (x =? sep)%Z then rev cur :: split_go sep [] r
              else split_go sep (x :: cur) r
  end.

Definition split (sep : Z) (s : list Z) : list (list Z) := split_go sep [] s.

(** [a.join(sep)] *)
Fixpoint join (sep : list Z) (l : list (list Z)) : list Z :=
  match l with
  | [] => []
  | [x] => x
  | x :: r => x ++ sep ++ join sep r
  end.

(** What a [catch] clause can receive: an [Error] made by the program
    with its message, or an error of the engine, whose message is the
    engine's own text. *)
Inductive error : Type :=
  | Error (m : list Z)
  | SyntaxError
  | TypeError.

(** Completions of code that can throw. *)
Inductive exc (A : Type) : Type :=
  | Ret (a : A)
  | Throw (e : error).
Arguments Ret {A} a.
Arguments Throw {A} e.

Definition bind {A B} (x : exc A) (f : A -> exc B) : exc B :=
  match x with Ret a => f a | Throw e => Throw e end.

End JS.

Import JS.

Notation "'attempt' x := e 'in' k" := (JS.bind e (fun x => k))
  (at level 10, x name, e at level 200, k at level 200).

(** ** UTF-8, as [Buffer.from(string)] writes it and [buf.toString()]
    reads it *)

Module Utf8.

Local Open Scope Z_scope.

Definition is_hi (c : Z) : bool := (55296 <=? c) && (c <=? 56319).
Definition is_lo (c : Z) : bool := (56320 <=? c) && (c <=? 57343).

Definition encode_cp (cp : Z) : list Z :=
  if cp <? 128 then [cp]
  else if cp <? 2048 then [192 + cp / 64; 128 + cp mod 64]
  else if cp <? 65536 then
    [224 + cp / 4096; 128 + (cp / 64) mod 64; 128 + cp mod 64]
  else [240 + cp / 262144; 128 + (cp / 4096) mod 64;
        128 + (cp / 64) mod 64; 128 + cp mod 64].

(** A surrogate pair is one code point; a surrogate on its own is
    written as U+FFFD. *)
Fixpoint encode (s : list Z) : list Z :=
  match s with
  | [] => []
  | c :: r =>
    if is_hi c then
      match r with
      | d :: r' =>
        if is_lo d
        then encode_cp (65536 + (c - 55296) * 1024 + (d - 56320)) ++ encode r'
        else encode_cp 65533 ++ encode r
      | [] => encode_cp 65533
      end
    else if is_lo c then encode_cp 65533 ++ encode r
    else encode_cp c ++ encode r
  end.

Definition in_range (lo hi b : Z) : bool := (lo <=? b) && (b <=? hi).

Definition units_of_cp (cp : Z) : list Z :=
  if cp <? 65536 then [cp]
  else [55296 + (cp - 65536) / 1024; 56320 + (cp - 65536) mod 1024].

(** The decoder replaces each maximal ill-formed prefix by U+FFFD and
    resumes at the byte that broke the sequence. *)
Fixpoint decode (bs : list Z) : list Z :=
  match bs with
  | [] => []
  | b0 :: r =>
    if b0 <? 128 then b0 :: decode r
    else if in_range 194 223 b0 then
      match r with
      | b1 :: r1 =>
        if in_range 128 191 b1
        then ((b0 - 192) * 64 + (b1 - 128)) :: decode r1
        else 65533 :: decode r
      | [] => [65533]
      end
    else if in_range 224 239 b0 then
      match r with
      | b1 :: r1 =>
        if in_range (if b0 =? 224 then 160 else 128)
                    (if b0 =? 237 then 159 else 191) b1
        then
          match r1 with
          | b2 :: r2 =>
            if in_range 128 191 b2
            then ((b0 - 224) * 4096 + (b1 - 128) * 64 + (b2 - 128))
                   :: decode r2
            else 65533 :: decode r1
          | [] => [65533]
          end
        else 65533 :: decode r
      | [] => [65533]
      end
    else if in_range 240 244 b0 then
      match r with
      | b1 :: r1 =>
        if in_range (if b0 =? 240 then 144 else 128)
                    (if b0 =? 244 then 143 else 191) b1
        then
          match r1 with
          | b2 :: r2 =>
            if in_range 128 191 b2 then
              match r2 with
              | b3 :: r3 =>
                if in_range 128 191 b3
                then units_of_cp ((b0 - 240) * 262144 + (b1 - 128) * 4096
                                  + (b2 - 128) * 64 + (b3 - 128))
                       ++ decode r3
                else 65533 :: decode r2
              | [] => [65533]
              end
            else 65533 :: decode r1
          | [] => [65533]
          end
        else 65533 :: decode r
      | [] => [65533]
      end
    else 65533 :: decode r
  end.

End Utf8.

(** ** Base64, as [buf.toString('base64')] writes it and
    [Buffer.from(string, 'base64')] reads it *)

Module Base64.

Local Open Scope Z_scope.

(** The character of a six-bit value: A-Z, a-z, 0-9, plus, slash. *)
Definition b64char (n : Z) : Z :=
  if n <? 26 then 65 + n
  else if n <? 52 then 71 + n
  else if n <? 62 then n - 4
  else if n =? 62 then 43
  else 47.

(** The reader looks a character up by the low byte of its code unit,
    the way the decoder of [Buffer] casts it, and takes both the standard
    and the URL-safe alphabet. *)
Definition low_byte (c : Z) : Z := c mod 256.

Definition unbase64 (c : Z) : option Z :=
  let c := low_byte c in
  if (65 <=? c) && (c <=? 90) then Some (c - 65)
  else if (97 <=? c) && (c <=? 122) then Some (c - 71)
  else if (48 <=? c) && (c <=? 57) then Some (c + 4)
  else if (c =? 43) || (c =? 45) then Some 62
  else if (c =? 47) || (c =? 95) then Some 63
  else None.

Fixpoint encode (bs : list Z) : list Z :=
  match bs with
  | a :: b :: c :: r =>
    b64char (a / 4) :: b64char ((a mod 4) * 16 + b / 16)
      :: b64char ((b mod 16) * 4 + c / 64) :: b64char (c mod 64) :: encode r
  | [a; b] =>
    [b64char (a / 4); b64char ((a mod 4) * 16 + b / 16);
     b64char ((b mod 16) * 4); 61]
  | [a] => [b64char (a / 4); b64char ((a mod 4) * 16); 61; 61]
  | [] => []
  end.

(** The reader never fails: it skips every character whose low byte is
    outside the alphabets (white space included) and stops at the first
    one whose low byte is that of [=]. *)
Fixpoint sextets (s : list Z) : list Z :=
  match s with
  | [] => []
  | c :: r =>
    if low_byte c =? 61 then []
    else match unbase64 c with
         | Some v => v :: sextets r
         | None => sextets r
         end
  end.

Fixpoint bytes_of_sextets (l : list Z) : list Z :=
  match l with
  | a :: b :: c :: d :: r =>
    (a * 4 + b / 16) :: ((b mod 16) * 16 + c / 4) :: ((c mod 4) * 64 + d)
      :: bytes_of_sextets r
  | [a; b; c] => [a * 4 + b / 16; (b mod 16) * 16 + c / 4]
  | [a; b] => [a * 4 + b / 16]
  | _ => []
  end.

Definition decode (s : list Z) : list Z := bytes_of_sextets (sextets s).

End Base64.

(** ** JSON: [JSON.stringify] of strings and [JSON.parse] *)

Module Json.

Local Open Scope Z_scope.

(** A number keeps the exact decimal value of its literal:
    [(-1)^neg * mant * 10^exp10]. An object keeps its members in the
    order of the text, duplicates included. *)
#[warnings="-register-all"]
Inductive json : Type :=
  | JNull
  | JBool (b : bool)
  | JNum (neg : bool) (mant : Z) (exp10 : Z)
  | JStr (s : list Z)
  | JArr (l : list json)
  | JObj (l : list (list Z * json)).

(** *** QuoteJSONString *)

Definition hexdigit (n : Z) : Z := if n <? 10 then 48 + n else 87 + n.

Definition uescape (c : Z) : list Z :=
  [92; 117; hexdigit (c / 4096); hexdigit ((c / 256) mod 16);
   hexdigit ((c / 16) mod 16); hexdigit (c mod 16)].

Definition quote_char (c : Z) : list Z :=
  if c =? 8 then [92; 98]
  else if c =? 9 then [92; 116]
  else if c =? 10 then [92; 110]
  else if c =? 12 then [92; 102]
  else if c =? 13 then [92; 114]
  else if c =? 34 then [92; 34]
  else if c =? 92 then [92; 92]
  else if c <? 32 then uescape c
  else [c].

(** A surrogate pair is copied; a surrogate on its own is escaped. *)
Fixpoint quote_body (s : list Z) : list Z :=
  match s with
  | [] => []
  | c :: r =>
    if Utf8.is_hi c then
      match r with
      | d :: r' =>
        if Utf8.is_lo d then c :: d :: quote_body r'
        else uescape c ++ quote_body r
      | [] => uescape c
      end
    else if Utf8.is_lo c then uescape c ++ quote_body r
    else quote_char c ++ quote_body r
  end.

Definition quote (s : list Z) : list Z := 34 :: quote_body s ++ [34].

(** *** The parser *)

Definition is_json_ws (c : Z) : bool :=
  (c =? 32) || (c =? 9) || (c =? 10) || (c =? 13).

Fixpoint skip_ws (s : list Z) : list Z :=
  match s with
  | c :: r => if is_json_ws c then skip_ws r else s
  | [] => []
  end.

Definition hexval (c : Z) : option Z :=
  if (48 <=? c) && (c <=? 57) then Some (c - 48)
  else if (65 <=? c) && (c <=? 70) then Some (c - 55)
  else if (97 <=? c) && (c <=? 102) then Some (c - 87)
  else None.

Definition hex4 (h1 h2 h3 h4 : Z) : option Z :=
  match hexval h1, hexval h2, hexval h3, hexval h4 with
  | Some a, Some b, Some c, Some d => Some (a * 4096 + b * 256 + c * 16 + d)
  | _, _, _, _ => None
  end.

(** The character after a backslash, [u] apart. *)
Definition unescape (e : Z) : option Z :=
  if e =? 34 then Some 34
  else if e =? 92 then Some 92
  else if e =? 47 then Some 47
  else if e =? 98 then Some 8
  else if e =? 102 then Some 12
  else if e =? 110 then Some 10
  else if e =? 114 then Some 13
  else if e =? 116 then Some 9
  else None.

Definition cons_fst (c : Z) (p : option (list Z * list Z))
  : option (list Z * list Z) :=
  match p with Some (str, rest) => Some (c :: str, rest) | None => None end.

(** The characters of a string literal, read after its opening quote, and
    the text after its closing quote. *)
Fixpoint parse_chars (s : list Z) : option (list Z * list Z) :=
  match s with
  | [] => None
  | c :: r =>
    if c =? 34 then Some ([], r)
    else if c =? 92 then
      match r with
      | e :: r1 =>
        if e =? 117 then
          match r1 with
          | h1 :: h2 :: h3 :: h4 :: r2 =>
            match hex4 h1 h2 h3 h4 with
            | Some u => cons_fst u (parse_chars r2)
            | None => None
            end
          | _ => None
          end
        else
          match unescape e with
          | Some u => cons_fst u (parse_chars r1)
          | None => None
          end
      | [] => None
      end
    else if c <? 32 then None
    else cons_fst c (parse_chars r)
  end.

Definition is_digit (c : Z) : bool := (48 <=? c) && (c <=? 57).

(** The values of the leading digits, and the text after them. *)
Fixpoint digits (s : list Z) : list Z * list Z :=
  match s with
  | c :: r =>
    if is_digit c then let '(ds, rest) := digits r in ((c - 48) :: ds, rest)
    else ([], s)
  | [] => ([], [])
  end.

Definition of_digits (ds : list Z) : Z :=
  fold_left (fun a d => a * 10 + d) ds 0.

(** [- int frac exp]: an integer part without a leading zero, an optional
    fraction with at least one digit, an optional exponent with at least
    one digit. *)
Definition parse_number (s : list Z) : option (json * list Z) :=
  let '(neg, s1) :=
    match s with
    | c :: r => if c =? 45 then (true, r) else (false, s)
    | [] => (false, s)
    end in
  let '(ip, s2) := digits s1 in
  match ip with
  | [] => None
  | d :: ds =>
    if (d =? 0) && nonempty ds then None
    else
      let frac :=
        match s2 with
        | c :: r =>
          if c =? 46 then
            let '(fp, s3) := digits r in
            if nonempty fp then Some (fp, s3) else None
          else Some ([], s2)
        | [] => Some ([], s2)
        end in
      match frac with
      | None => None
      | Some (fp, s3) =>
        let mant := of_digits (ip ++ fp) in
        let shift := Z.of_nat (length fp) in
        match s3 with
        | c :: r =>
          if (c =? 101) || (c =? 69) then
            let '(eneg, r1) :=
              match r with
              | g :: r' =>
                if g =? 45 then (true, r')
                else if g =? 43 then (false, r')
                else (false, r)
              | [] => (false, r)
              end in
            let '(ep, s4) := digits r1 in
            if nonempty ep
            then Some (JNum neg mant
                         ((if eneg then - of_digits ep else of_digits ep)
                          - shift), s4)
            else None
          else Some (JNum neg mant (- shift), s3)
        | [] => Some (JNum neg mant (- shift), s3)
        end
      end
  end.

Definition with_fst {A B : Type} (f : A -> B) (p : option (A * list Z))
  : option (B * list Z) :=
  match p with Some (a, rest) => Some (f a, rest) | None => None end.

(** One JSON value at the head of the text, and the text after it. Every
    call spends one unit of [fuel]. *)
Fixpoint parse_value (fuel : nat) (s : list Z) {struct fuel}
  : option (json * list Z) :=
  match fuel with
  | O => None
  | S f =>
    match skip_ws s with
    | [] => None
    | c :: r =>
      if c =? 123 then
        match skip_ws r with
        | c' :: r' =>
          if c' =? 125 then Some (JObj [], r')
          else with_fst JObj (parse_members f (c' :: r'))
        | [] => None
        end
      else if c =? 91 then
        match skip_ws r with
        | c' :: r' =>
          if c' =? 93 then Some (JArr [], r')
          else with_fst JArr (parse_elements f (c' :: r'))
        | [] => None
        end
      else if c =? 34 then with_fst JStr (parse_chars r)
      else if startsWith (js "true") (c :: r)
      then Some (JBool true, drop 4 (c :: r))
      else if startsWith (js "false") (c :: r)
      then Some (JBool false, drop 5 (c :: r))
      else if startsWith (js "null") (c :: r)
      then Some (JNull, drop 4 (c :: r))
      else parse_number (c :: r)
    end
  end
with parse_elements (fuel : nat) (s : list Z) {struct fuel}
  : option (list json * list Z) :=
  match fuel with
  | O => None
  | S f =>
    match parse_value f s with
    | Some (v, rest) =>
      match skip_ws rest with
      | c :: r =>
        if c =? 44 then with_fst (cons v) (parse_elements f r)
        else if c =? 93 then Some ([v], r)
        else None
      | [] => None
      end
    | None => None
    end
  end
with parse_members (fuel : nat) (s : list Z) {struct fuel}
  : option (list (list Z * json) * list Z) :=
  match fuel with
  | O => None
  | S f =>
    match skip_ws s with
    | q :: r0 =>
      if q =? 34 then
        match parse_chars r0 with
        | Some (k, r1) =>
          match skip_ws r1 with
          | c :: r2 =>
            if c =? 58 then
              match parse_value f r2 with
              | Some (v, rest) =>
                match skip_ws rest with
                | c' :: r3 =>
                  if c' =? 44 then with_fst (cons (k, v)) (parse_members f r3)
                  else if c' =? 125 then Some ([(k, v)], r3)
                  else None
                | [] => None
                end
              | None => None
              end
            else None
          | [] => None
          end
        | None => None
        end
      else None
    | [] => None
    end
  end.

(** [JSON.parse(text)]: one value with white space around it, [None] for
    the SyntaxError. No chain of calls is longer than twice the text
    ([JsonFuel.JSON_parse_enough]). *)
Definition JSON_parse (text : list Z) : option json :=
  match parse_value (2 * length text + 2) text with
  | Some (v, rest) =>
    match skip_ws rest with
    | [] => Some v
    | _ :: _ => None
    end
  | None => None
  end.

(** *** Reading the parsed value *)

(** The member of an object for a key; of two members with one key the
    later one stays. *)
Fixpoint lookup_member (k : list Z) (l : list (list Z * json)) : option json :=
  match l with
  | [] => None
  | (k', v) :: r =>
    match lookup_member k r with
    | Some v' => Some v'
    | None => if streq k k' then Some v else None
    end
  end.

(** [v.k] for a name [k] that no prototype defines: [None] is
    [undefined], and reading a property of [null] throws. *)
Definition get_prop (v : json) (k : list Z) : exc (option json) :=
  match v with
  | JNull => Throw TypeError
  | JObj l => Ret (lookup_member k l)
  | _ => Ret None
  end.

(** A literal is the number zero when its value is zero or rounds to
    zero, which it does up to half of the least double, 2^-1075. *)
Definition num_is_zero (mant exp10 : Z) : bool :=
  (mant =? 0) || ((exp10 <? 0) && (mant * 2 ^ 1075 <=? 10 ^ (- exp10))).

(** ToBoolean of a property read. *)
Definition to_boolean (v : option json) : bool :=
  match v with
  | None => false
  | Some JNull => false
  | Some (JBool b) => b
  | Some (JNum _ m e) => negb (num_is_zero m e)
  | Some (JStr s) => nonempty s
  | Some (JArr _) => true
  | Some (JObj _) => true
  end.

End Json.

(** ** Values of a request body, and parsed JSON in the place of a
    string *)

Module Render.

Import Json.

(** A value that a handler reads from the parsed JSON body of a request:
    [undefined] for a property that is not there, or the JSON value that
    is: [null], a boolean, a number, a string, an array or an object. *)
Definition jsval : Type := option json.

Abbreviation VUndef := None (only parsing).
Abbreviation VNull := (Some JNull) (only parsing).
Abbreviation VBool b := (Some (JBool b)) (only parsing).
Abbreviation VStr s := (Some (JStr s)) (only parsing).

(** ToBoolean: an array and an object are truthy, the empty ones too. *)
Definition truthy (v : jsval) : bool := to_boolean v.

Section Numbers.

(** [Number::toString] of the number that a literal with this sign,
    mantissa and decimal exponent denotes. *)
Variable numberToString : bool -> Z -> Z -> list Z.

(** ToString of a value that [JSON.parse] made, as a template literal
    applies it. An array is joined with commas, [null] elements being
    empty; an object is [[object Object]] unless a member of its own
    hides [toString], which then is not callable. *)
Fixpoint ToString (v : json) : exc (list Z) :=
  match v with
  | JNull => Ret (js "null")
  | JBool b => Ret (if b then js "true" else js "false")
  | JNum neg mant exp10 => Ret (numberToString neg mant exp10)
  | JStr s => Ret s
  | JArr l =>
    (fix elements (l : list json) : exc (list Z) :=
       match l with
       | [] => Ret []
       | x :: r =>
         attempt a := match x with JNull => Ret [] | _ => ToString x end in
         match r with
         | [] => Ret a
         | _ :: _ => attempt b := elements r in Ret (a ++ [44%Z] ++ b)
         end
       end) l
  | JObj members =>
    match lookup_member (js "toString") members with
    | Some _ => Throw TypeError
    | None => Ret (js "[object Object]")
    end
  end.

(** [`${v}`] for a property that was read, and the conversion of a value
    that is assigned to a property of [process.env]: a missing one is
    [undefined]. *)
Definition template (v : option json) : exc (list Z) :=
  match v with
  | None => Ret (js "undefined")
  | Some x => ToString x
  end.

End Numbers.

(** [v?.k]: nothing is read from [undefined] or [null]. *)
Definition optional_prop (v : option json) (k : list Z) : option json :=
  match v with
  | Some (JObj l) => lookup_member k l
  | _ => None
  end.

(** [a || b] on a property that was read. *)
Definition or_else {A : Type} (a : option json) (f : json -> A) (b : A) : A :=
  match a with
  | Some v => if to_boolean (Some v) then f v else b
  | None => b
  end.

(** [d.includes(p)]: a string searches itself, an array looks for an
    element that is the string [p], nothing else has the method. *)
Definition includes_of (d : json) (p : list Z) : exc bool :=
  match d with
  | JStr s => Ret (includes p s)
  | JArr l =>
    Ret (existsb (fun x => match x with JStr s => streq s p | _ => false end) l)
  | _ => Throw TypeError
  end.

(** What [axios] hands back: the parsed body of a 2xx answer, or an
    error with its message and, when the platform answered, the status
    and the parsed body of the answer. *)
Inductive upstream : Type :=
  | Resolved (data : json)
  | Rejected (response : option (Z * json)) (message : list Z).

End Render.

(** ** src/pinterest-poster.js *)

Module Poster.

Import Json Render.

(** *** generatePinContent: from the model's reply to the returned value *)

(** The suffix of [s] that starts at the first [c]; empty without one. *)
Fixpoint from_char (c : Z) (s : list Z) : list Z :=
  match s with
  | [] => []
  | x :: r => if (x =? c)%Z then s else from_char c r
  end.

(** [content.match(/\{[\s\S]*\}/)]: the leftmost opening brace and,
    the star being greedy, everything up to the last closing brace
    after it. *)
Definition match_braces (content : list Z) : option (list Z) :=
  match from_char 123 content with
  | [] => None
  | open :: rest =>
    match from_char 125 (rev rest) with
    | [] => None
    | close :: before => Some (open :: rev (close :: before))
    end
  end.

(** What [generatePinContent] does with the text of the reply. Its
    [catch] throws a new [Error] with the message of what it caught. *)
Definition generatePinContent (content : list Z) : exc json :=
  match match_braces content with
  | Some m =>
    match JSON_parse m with
    | Some pinContent => Ret pinContent
    | None => Throw SyntaxError
    end
  | None => Throw (Error (js "Invalid JSON response from OpenRouter"))
  end.

(** *** createTextSVG *)

Definition maxCharsPerLine : nat := 25.

(** One turn of the loop over the words; the state is [lines] and
    [currentLine]. *)
Definition wrap_step (st : list (list Z) * list Z) (word : list Z)
  : list (list Z) * list Z :=
  let '(lines, currentLine) := st in
  let joined := trim (currentLine ++ [32%Z] ++ word) in
  if (length joined <=? maxCharsPerLine)%nat then (lines, joined)
  else ((if nonempty currentLine then lines ++ [currentLine] else lines),
        word).

(** [if (currentLine) lines.push(currentLine)] after the loop. *)
Definition flush (st : list (list Z) * list Z) : list (list Z) :=
  let '(lines, currentLine) := st in
  if nonempty currentLine then lines ++ [currentLine] else lines.

Definition wrapLines (titleUpper : list Z) : list (list Z) :=
  if (maxCharsPerLine <? length titleUpper)%nat
  then flush (fold_left wrap_step (split 32 titleUpper) ([], []))
  else [titleUpper].

Definition fontSize (lines : list (list Z)) : Z :=
  let fontSize := 72%Z in
  let fontSize :=
    if existsb (fun l => (20 <? length l)%nat) lines then 60%Z else fontSize in
  let fontSize :=
    if existsb (fun l => (25 <? length l)%nat) lines then 50%Z else fontSize in
  fontSize.

(** [escapeXml]: five global replacements, the ampersand first. *)
Definition escapeXml (text : list Z) : list Z :=
  replaceAll 39 (js "&apos;")
    (replaceAll 34 (js "&quot;")
      (replaceAll 62 (js "&gt;")
        (replaceAll 60 (js "&lt;")
          (replaceAll 38 (js "&amp;") text)))).

(** A [<text>] element of the banner: its font size and its character
    data. The other attributes are numbers computed from the geometry. *)
Record text_element : Type := TextElement {
  font_size : Z;
  content : list Z
}.

Section Banner.

(** [String.prototype.toUpperCase], which follows the Unicode case
    mapping. *)
Variable toUpperCase : list Z -> list Z.

Definition titleLines (title : list Z) : list (list Z) :=
  wrapLines (toUpperCase title).

(** The text elements of the banner, in document order: one per line of
    the title, then the site caption when there is one. *)
Definition createTextSVG (title websiteUrl : list Z) : list text_element :=
  let lines := titleLines title in
  let fontSize := fontSize lines in
  map (fun line => TextElement fontSize (escapeXml line)) lines
  ++ (if nonempty websiteUrl then [TextElement 32 (escapeXml websiteUrl)]
      else []).

End Banner.

(** Upper case of the ASCII letters, for examples. *)
Definition ascii_upper (s : list Z) : list Z :=
  map (fun c => if ((97 <=? c) && (c <=? 122))%Z then (c - 32)%Z else c) s.

(** *** createPin *)

Record pinData : Type := PinData {
  pin_title : jsval;
  pin_description : jsval;
  pin_hashtags : list json;
  pin_altText : jsval;
  pin_link : list Z
}.

(** The body and the bearer token of the POST to the platform; the board
    and the token are read from [process.env] by [getConfig]. *)
Record pin_request : Type := PinRequest {
  req_board_id : option (list Z);
  req_title : jsval;
  req_description : list Z;
  req_alt_text : jsval;
  req_link : list Z;
  req_bearer : option (list Z)
}.

Section Numbers.

Variable numberToString : bool -> Z -> Z -> list Z.

(** [hashtags.map(h => `#${h}`)] *)
Fixpoint tagged (hashtags : list json) : exc (list (list Z)) :=
  match hashtags with
  | [] => Ret []
  | h :: r =>
    attempt text := ToString numberToString h in
    attempt rest := tagged r in
    Ret ((35%Z :: text) :: rest)
  end.

(** The description of the request: the description, a blank line, the
    tags. Both the description and the tags go through a template
    literal. *)
Definition fullDescription (description : jsval) (hashtags : list json)
  : exc (list Z) :=
  attempt text := template numberToString description in
  attempt tags := tagged hashtags in
  Ret (text ++ [10%Z; 10%Z] ++ join [32%Z] tags).

Definition createPin (env : gmap string (list Z)) (pin : pinData)
  : exc pin_request :=
  attempt fullDescription :=
    fullDescription (pin_description pin) (pin_hashtags pin) in
  Ret {| req_board_id := env !! "PINTEREST_BOARD_ID";
         req_title := pin_title pin;
         req_description := fullDescription;
         req_alt_text := pin_altText pin;
         req_link := pin_link pin;
         req_bearer := env !! "PINTEREST_ACCESS_TOKEN" |}.

End Numbers.

End Poster.

(** ** src/server.js *)

Module Server.

Import Json Render Poster.

(** [o.k] on an object of the request body. *)
Definition prop (o : gmap string jsval) (k : string) : jsval :=
  default VUndef (o !! k).

(** [a === b] for a [b] that is a boolean or a string, the two kinds of
    value the program compares with. *)
Definition strict_eq (a b : jsval) : bool :=
  match a, b with
  | VUndef, VUndef => true
  | VNull, VNull => true
  | VBool x, VBool y => Bool.eqb x y
  | VStr s, VStr t => streq s t
  | _, _ => false
  end.

(** The [config] of a request body: [undefined] or [null]; an object;
    or another value (a boolean, a number, a string, an array), of which
    only the truthiness matters, since it has none of the properties
    read here. *)
Inductive config_arg : Type :=
  | CfgNullish
  | CfgPrim (t : bool)
  | CfgObj (o : gmap string jsval).

(** [config.k] in a handler. *)
Definition config_field (c : config_arg) (k : string) : exc jsval :=
  match c with
  | CfgNullish => Throw TypeError
  | CfgPrim _ => Ret VUndef
  | CfgObj o => Ret (prop o k)
  end.

(** Truthiness of [process.env.K]. *)
Definition env_set (env : gmap string (list Z)) (K : string) : bool :=
  match env !! K with Some s => nonempty s | None => false end.

(** The receiver of a string method: anything but a string throws,
    since no other value of a request body has the method. *)
Definition as_string (v : jsval) : exc (list Z) :=
  match v with VStr s => Ret s | _ => Throw TypeError end.

Definition guard (b : bool) (e : error) : exc unit :=
  if b then Throw e else Ret tt.

(** *** POST /api/post-pin *)

Definition default_site : list Z := js "https://www.omarecipes.com".

(** The lines that compute [finalLink] from the trimmed [websiteUrl] and
    [config.website_url]. *)
Definition normalizeLink (websiteUrl : list Z) (website_url : jsval)
  : exc (list Z) :=
  let finalLink := VStr (trim websiteUrl) in
  let finalLink :=
    if negb (truthy finalLink)
       || strict_eq finalLink (VStr (js "https://"))
       || strict_eq finalLink (VStr (js "http://"))
    then (if truthy website_url then website_url else VStr default_site)
    else finalLink in
  attempt link := as_string finalLink in
  Ret (if negb (startsWith (js "http") link) then js "https://" ++ link
       else link).

Record body : Type := Body {
  imageData : jsval;
  title : jsval;
  description : jsval;
  hashtags : jsval;
  altText : jsval;
  websiteUrl : jsval;
  config : config_arg
}.

(** The four properties the handler reads of the generated content. *)
Record seo : Type := Seo {
  seo_title : jsval;
  seo_description : jsval;
  seo_hashtags : jsval;
  seo_altText : jsval
}.

(** What the handler gets from outside: whether the image file could be
    written, and what the content generator returns when the model is
    asked. *)
Record world : Type := World {
  save_image : exc unit;
  generated : exc seo
}.

Definition token_missing : error :=
  Error (js "Pinterest Token is missing. Please connect first.").

Definition board_missing : error :=
  Error (js "Pinterest Board ID is missing. Please enter it in Settings "
         ++ [9881%Z; 65039%Z]).

(** The two checks at the head of the [try] block. *)
Definition check_credentials (env1 : gmap string (list Z)) (b : body)
  : exc unit :=
  attempt _ := guard (negb (env_set env1 "PINTEREST_ACCESS_TOKEN")
                   || bool_decide (env1 !! "PINTEREST_ACCESS_TOKEN"
                                   = Some (js "undefined")))
                  token_missing in
  attempt board := config_field (config b) "pinterest_board" in
  guard (negb (truthy board)) board_missing.

(** [Array.isArray(finalHash) ? finalHash
      : finalHash.split(',').map(h => h.trim())] *)
Definition hashtag_list (finalHash : jsval) : exc (list json) :=
  match finalHash with
  | Some (JArr l) => Ret l
  | Some (JStr s) => Ret (map JStr (map trim (split 44 s)))
  | _ => Throw TypeError
  end.

(** The request of the handler, or the error it answers with. The
    handler either answers [500] with the message of what was thrown,
    or reaches the POST of [createPin], which goes to the platform
    under the merged environment. *)
Inductive post_pin_outcome : Type :=
  | Failed (status : Z) (e : error)
  | Publishes (env : gmap string (list Z)) (request : pin_request).

Section Numbers.

Variable numberToString : bool -> Z -> Z -> list Z.

(** [if (data.k) process.env.K = data.k;] on the environment a call
    has made so far and the way it has gone so far: an assignment to
    [process.env] stores the string of the value, and the conversion
    can throw, which ends the call with what was stored before. *)
Definition assign_if (data : gmap string jsval) (k K : string)
  (st : gmap string (list Z) * exc unit) : gmap string (list Z) * exc unit :=
  match st with
  | (env, Ret _) =>
    if truthy (prop data k) then
      match template numberToString (prop data k) with
      | Ret s => (<[K := s]> env, Ret tt)
      | Throw e => (env, Throw e)
      end
    else st
  | (_, Throw _) => st
  end.

Definition setupEnv_fields (data : gmap string jsval)
  (env : gmap string (list Z)) : gmap string (list Z) * exc unit :=
  let st := (env, Ret tt) in
  let st := assign_if data "openrouter_key" "OPENROUTER_API_KEY" st in
  let st := assign_if data "pinterest_token" "PINTEREST_ACCESS_TOKEN" st in
  let st := assign_if data "pinterest_board" "PINTEREST_BOARD_ID" st in
  let st := assign_if data "website_url" "WEBSITE_URL" st in
  let st := assign_if data "openrouter_model" "OPENROUTER_MODEL" st in
  let st := assign_if data "pinterest_app_id" "PINTEREST_APP_ID" st in
  let st := assign_if data "pinterest_app_secret" "PINTEREST_APP_SECRET" st in
  match st with
  | (env, Ret _) =>
    let sandboxValue := prop data "pinterest_sandbox" in
    (<["PINTEREST_SANDBOX" :=
         if strict_eq sandboxValue (VBool true)
            || strict_eq sandboxValue (VStr (js "true"))
         then js "true" else js "false"]> env, Ret tt)
  | (_, Throw _) => st
  end.

(** [setupEnv]: the environment the call leaves and the way it ends;
    [if (!data) return;] comes first. *)
Definition setupEnv (data : config_arg) (env : gmap string (list Z))
  : gmap string (list Z) * exc unit :=
  match data with
  | CfgNullish => (env, Ret tt)
  | CfgPrim false => (env, Ret tt)
  | CfgPrim true => setupEnv_fields ∅ env
  | CfgObj o => setupEnv_fields o env
  end.

(** The rest of the block up to the call of [createPin]: the image is
    saved, missing content is generated (the prompt is built from the
    title before the model is asked), the link is normalized. *)
Definition assemble_pin (w : world) (b : body) : exc pinData :=
  attempt _ := as_string (imageData b) in
  attempt _ := save_image w in
  attempt final :=
    (if negb (truthy (description b)) then
       attempt _ := config_field (config b) "language" in
       attempt _ := template numberToString (title b) in
       attempt s := generated w in
       Ret (if negb (truthy (title b)) then seo_title s else title b,
            seo_description s, seo_hashtags s, seo_altText s)
     else Ret (title b, description b, hashtags b, altText b)) in
  let '(finalTitle, finalDesc, finalHash, finalAlt) := final in
  attempt url := as_string (websiteUrl b) in
  attempt website_url := config_field (config b) "website_url" in
  attempt finalLink := normalizeLink url website_url in
  attempt tags := hashtag_list finalHash in
  Ret (PinData finalTitle finalDesc tags finalAlt finalLink).

Definition prepare_pin (w : world) (env1 : gmap string (list Z)) (b : body)
  : exc pinData :=
  attempt _ := check_credentials env1 b in assemble_pin w b.

Definition post_pin (w : world) (env : gmap string (list Z)) (b : body)
  : post_pin_outcome :=
  let merged := setupEnv (config b) env in
  let env1 := merged.1 in
  match (attempt _ := merged.2 in
         attempt pin := prepare_pin w env1 b in
         createPin numberToString env1 pin)
  with
  | Ret request => Publishes env1 request
  | Throw e => Failed 500 e
  end.

End Numbers.

(** *** The query of a request *)

(** A value of [req.query]: a string, or, for a parameter that is given
    more than once or with brackets, an array or an object of such
    values. *)
#[warnings="-register-all"]
Inductive qval : Type :=
  | QStr (s : list Z)
  | QArr (l : list qval)
  | QObj (members : list (list Z * qval)).

(** [if (p)]: a parameter is taken as present when it is there with a
    value that is not the empty string. *)
Definition present (p : option qval) : bool :=
  match p with
  | Some (QStr s) => nonempty s
  | Some _ => true
  | None => false
  end.

(** [p === 'text'] *)
Definition is_text (p : option qval) (text : list Z) : bool :=
  match p with
  | Some (QStr s) => streq s text
  | _ => false
  end.

(** The member of an object for a key; the later of two stays. *)
Fixpoint lookup_param (k : list Z) (l : list (list Z * qval)) : option qval :=
  match l with
  | [] => None
  | (k', v) :: r =>
    match lookup_param k r with
    | Some v' => Some v'
    | None => if streq k k' then Some v else None
    end
  end.

(** ToString of a value of the query, as a template literal applies
    it: an array is joined with commas, an object is [[object Object]]
    unless a member of its own hides [toString]. *)
Fixpoint QToString (v : qval) : exc (list Z) :=
  match v with
  | QStr s => Ret s
  | QArr l =>
    (fix elements (l : list qval) : exc (list Z) :=
       match l with
       | [] => Ret []
       | x :: r =>
         attempt a := QToString x in
         match r with
         | [] => Ret a
         | _ :: _ => attempt b := elements r in Ret (a ++ [44%Z] ++ b)
         end
       end) l
  | QObj members =>
    match lookup_param (js "toString") members with
    | Some _ => Throw TypeError
    | None => Ret (js "[object Object]")
    end
  end.

(** [v.includes(p)]: a string searches itself, an array looks for an
    element that is the string [p], an object has no such method. *)
Definition includes_param (v : qval) (p : list Z) : exc bool :=
  match v with
  | QStr s => Ret (includes p s)
  | QArr l =>
    Ret (existsb (fun x => match x with QStr s => streq s p | _ => false end) l)
  | QObj _ => Throw TypeError
  end.

(** *** GET /auth/pinterest *)

(** [(p || '').trim()]: only a string has the method. *)
Definition trimmed (p : option qval) : exc (list Z) :=
  match p with
  | None => Ret (trim [])
  | Some (QStr s) => Ret (trim s)
  | Some _ => Throw TypeError
  end.

(** [JSON.stringify] of the object literal of the handler. *)
Definition stringify_state (client_id client_secret : list Z) (sandbox : bool)
  : list Z :=
  js "{" ++ quote (js "client_id") ++ js ":" ++ quote client_id
  ++ js "," ++ quote (js "client_secret") ++ js ":" ++ quote client_secret
  ++ js "," ++ quote (js "sandbox") ++ js ":"
  ++ (if sandbox then js "true" else js "false") ++ js "}".

Definition encode_state (client_id client_secret : list Z) (sandbox : bool)
  : list Z :=
  Base64.encode (Utf8.encode (stringify_state client_id client_secret sandbox)).

Record auth_query : Type := AuthQuery {
  q_client_id : option qval;
  q_client_secret : option qval;
  q_sandbox : option qval
}.

(** The handler sends the configuration-error page, goes on to the
    redirect, or throws, which leaves the answer to the framework. *)
Inductive auth_response : Type :=
  | ConfigurationErrorPage (status : Z)
  | RedirectToPlatform (client_id : list Z) (state : list Z)
  | AuthorizeThrows (e : error).

Definition auth_pinterest (q : auth_query) : auth_response :=
  match (attempt cleanId := trimmed (q_client_id q) in
         attempt cleanSecret := trimmed (q_client_secret q) in
         Ret (cleanId, cleanSecret))
  with
  | Throw e => AuthorizeThrows e
  | Ret (cleanId, cleanSecret) =>
    if negb (nonempty cleanId) || negb (nonempty cleanSecret)
    then ConfigurationErrorPage 400
    else RedirectToPlatform cleanId
           (encode_state cleanId cleanSecret
              (is_text (q_sandbox q) (js "true")))
  end.

(** *** GET /callback *)

Record callback_query : Type := CallbackQuery {
  q_code : option qval;
  q_error : option qval;
  q_error_description : option qval;
  q_state : option qval
}.

(** The remediation hints of the first branch. *)
Definition hints_denied : list (list Z) :=
  [js "You clicked " ++ [34%Z] ++ js "Cancel" ++ [34%Z] ++ js " or "
     ++ [34%Z] ++ js "Deny" ++ [34%Z] ++ js " on Pinterest";
   js "Click Connect again and approve the permissions"].

Definition hints_client : list (list Z) :=
  [js "Your App ID is incorrect or your app is not active";
   js "Double-check your App ID in Pinterest Developer Portal"].

Definition hints_redirect : list (list Z) :=
  [js "Redirect URI mismatch!";
   js "Add EXACTLY this URI to your Pinterest App: https://pin-cover-auto.vercel.app/callback"].

Definition hints_other : list (list Z) :=
  [js "Check your Pinterest App settings";
   js "Ensure your app is not in Draft mode"].

Definition hints_for (error : qval) : exc (list (list Z)) :=
  if is_text (Some error) (js "access_denied") then Ret hints_denied
  else if is_text (Some error) (js "invalid_request")
          || is_text (Some error) (js "invalid_client")
  then Ret hints_client
  else
    attempt found := includes_param error (js "redirect_uri") in
    Ret (if found then hints_redirect else hints_other).

Record credentials : Type := Credentials {
  client_id : option json;
  client_secret : option json;
  sandbox : option json
}.

(** The three diagnostic pages, the continuation to the token exchange
    with the code and the recovered credentials, or an error thrown
    outside the [try] blocks, with which the promise of the handler
    rejects and no page is sent. *)
Inductive callback_response : Type :=
  | AuthorizationFailedPage (status : Z) (error errorMsg : list Z)
      (hints : list (list Z))
  | NoCodePage (status : Z)
  | SessionErrorPage (status : Z) (e : error)
  | ExchangesToken (code : qval) (c : credentials)
  | Rejects (e : error).

(** The first branch: the hints are chosen, then the page is written
    with the error and its description in template literals. *)
Definition authorization_failed (error : qval) (error_description : option qval)
  : callback_response :=
  let errorMsg :=
    match error_description with
    | Some d => if present (Some d) then d else error
    | None => error
    end in
  match (attempt hints := hints_for error in
         attempt errorText := QToString error in
         attempt msgText := QToString errorMsg in
         Ret (AuthorizationFailedPage 400 errorText msgText hints))
  with
  | Ret page => page
  | Throw e => Rejects e
  end.

Section Buffers.

(** [Buffer.from(v, 'base64')] for a value that is not a string: the
    bytes of an array or of an array-like object, or a TypeError. *)
Variable bufferFromObject : qval -> exc (list Z).

Definition buffer_from (state : qval) : exc (list Z) :=
  match state with
  | QStr s => Ret (Base64.decode s)
  | _ => bufferFromObject state
  end.

(** The [try] block that recovers the credentials from [state]. *)
Definition recover_state (state : option qval) : exc credentials :=
  match state with
  | None => Throw (Error (js "Missing state parameter"))
  | Some v =>
    attempt _ := guard (negb (present (Some v)))
                   (Error (js "Missing state parameter")) in
    attempt bytes := buffer_from v in
    attempt decodedState :=
      match JSON_parse (Utf8.decode bytes) with
      | Some v => Ret v
      | None => Throw SyntaxError
      end in
    attempt client_id := get_prop decodedState (js "client_id") in
    attempt client_secret := get_prop decodedState (js "client_secret") in
    attempt sandbox := get_prop decodedState (js "sandbox") in
    attempt _ := guard (negb (to_boolean client_id)
                        || negb (to_boolean client_secret))
                   (Error (js "State missing credentials")) in
    Ret (Credentials client_id client_secret sandbox)
  end.

(** The handler after its first branch: without a code the no-code
    page, with one the state is decoded. *)
Definition without_error (q : callback_query) : callback_response :=
  match q_code q with
  | Some code =>
    if present (Some code) then
      match recover_state (q_state q) with
      | Throw e => SessionErrorPage 400 e
      | Ret c => ExchangesToken code c
      end
    else NoCodePage 400
  | None => NoCodePage 400
  end.

Definition callback (q : callback_query) : callback_response :=
  match q_error q with
  | Some error =>
    if present (Some error)
    then authorization_failed error (q_error_description q)
    else without_error q
  | None => without_error q
  end.

End Buffers.

End Server.

(** ** Percent-encoding: [encodeURIComponent] and the serializer of
    [URLSearchParams] *)

Module Uri.

Local Open Scope Z_scope.

Definition is_alnum (c : Z) : bool :=
  (48 <=? c) && (c <=? 57) || (65 <=? c) && (c <=? 90)
  || (97 <=? c) && (c <=? 122).

Definition hexupper (n : Z) : Z := if n <? 10 then 48 + n else 55 + n.

(** The escape of one byte: a percent sign and two upper-case hex
    digits. *)
Definition percent (b : Z) : list Z :=
  [37; hexupper (b / 16); hexupper (b mod 16)].

(** The characters [encodeURIComponent] copies: letters, digits and
    [- _ . ! ~ * ' ( )]. *)
Definition unreserved (c : Z) : bool :=
  is_alnum c || (c =? 45) || (c =? 95) || (c =? 46) || (c =? 33)
  || (c =? 126) || (c =? 42) || (c =? 39) || (c =? 40) || (c =? 41).

(** [encodeURIComponent(s)]: every other character is written as the
    escapes of its UTF-8 bytes; a surrogate on its own throws a
    URIError, which is [None]. *)
Fixpoint encodeURIComponent (s : list Z) : option (list Z) :=
  match s with
  | [] => Some []
  | c :: r =>
    if unreserved c then option_map (cons c) (encodeURIComponent r)
    else if Utf8.is_hi c then
      match r with
      | d :: r' =>
        if Utf8.is_lo d
        then option_map
               (app (flat_map percent
                       (Utf8.encode_cp
                          (65536 + (c - 55296) * 1024 + (d - 56320)))))
               (encodeURIComponent r')
        else None
      | [] => None
      end
    else if Utf8.is_lo c then None
    else option_map (app (flat_map percent (Utf8.encode_cp c)))
           (encodeURIComponent r)
  end.

(** The serializer of [URLSearchParams] works on the UTF-8 bytes of a
    name or a value: a space becomes a plus sign, letters, digits and
    [* - . _] are copied, every other byte is escaped. *)
Definition form_safe (b : Z) : bool :=
  is_alnum b || (b =? 42) || (b =? 45) || (b =? 46) || (b =? 95).

Definition form_byte (b : Z) : list Z :=
  if b =? 32 then [43] else if form_safe b then [b] else percent b.

Definition urlencoded (s : list Z) : list Z :=
  flat_map form_byte (Utf8.encode s).

End Uri.

(** ** src/server.js: the redirect of GET /auth/pinterest *)

Module Authorize.

Import Server Uri.

(** The two request headers the handlers read. *)
Record headers : Type := Headers {
  x_forwarded_proto : option (list Z);
  host : option (list Z)
}.

(** [req.headers[name] || d] *)
Definition header_or (p : option (list Z)) (d : list Z) : list Z :=
  match p with
  | Some s => if nonempty s then s else d
  | None => d
  end.

(** [`${protocol}://${host}/callback`] *)
Definition redirect_uri (h : headers) : list Z :=
  header_or (x_forwarded_proto h) (js "http")
  ++ js "://"
  ++ match host h with Some s => s | None => js "undefined" end
  ++ js "/callback".

Definition scopes : list Z :=
  js "boards:read,boards:write,pins:read,pins:write,user_accounts:read".

(** The part of [authUrl] after the question mark. *)
Definition authQuery (cleanId redirect stateData : list Z)
  : option (list Z) :=
  option_map
    (fun encoded =>
       js "client_id=" ++ cleanId ++ js "&redirect_uri=" ++ encoded
       ++ js "&response_type=code&scope=" ++ scopes
       ++ js "&state=" ++ stateData)
    (encodeURIComponent redirect).

Definition authUrl (cleanId redirect stateData : list Z) : option (list Z) :=
  option_map (app (js "https://www.pinterest.com/oauth/?"))
    (authQuery cleanId redirect stateData).

(** What the handler does: it sends the configuration-error page, it
    calls [res.redirect(authUrl)] (the argument of the call is kept; the
    framework writes it into the Location header and percent-encodes
    what is not a URL character on the way), or it throws: the URIError
    of [encodeURIComponent], or the error of [trim]. The handler is
    synchronous, so what it throws is answered by the framework with
    status 500. *)
Inductive authorize_response : Type :=
  | ConfigurationError (status : Z)
  | Redirect (authUrl : list Z)
  | ThrowsURIError
  | Throws (e : error).

(** The whole handler. *)
Definition authorize (h : headers) (q : auth_query) : authorize_response :=
  match auth_pinterest q with
  | AuthorizeThrows e => Throws e
  | ConfigurationErrorPage status => ConfigurationError status
  | RedirectToPlatform cleanId stateData =>
    match authUrl cleanId (redirect_uri h) stateData with
    | Some url => Redirect url
    | None => ThrowsURIError
    end
  end.

End Authorize.

(** ** src/server.js: the token exchange of GET /callback *)

Module Exchange.

Import Json Server Uri Render Authorize.

(** The body of the POST, as [URLSearchParams] serializes it. *)
Definition form_body (code redirect : list Z) : list Z :=
  js "grant_type=authorization_code&code=" ++ urlencoded code
  ++ js "&redirect_uri=" ++ urlencoded redirect.

(** [Buffer.from(`${client_id}:${client_secret}`).toString('base64')] *)
Definition basic (id secret : list Z) : list Z :=
  Base64.encode (Utf8.encode (id ++ js ":" ++ secret)).

Record token_request : Type := TokenRequest {
  authorization : list Z;
  form : list Z
}.

Definition hints_credentials : list (list Z) :=
  [js "Your App ID or App Secret is incorrect";
   js "Check your Pinterest Developer dashboard for the correct credentials"].

Definition hints_mismatch : list (list Z) :=
  [js "Redirect URI mismatch detected!";
   js "Add 'https://pin-cover-auto.vercel.app/callback' to your Pinterest App's Redirect URIs"].

Definition hints_generic : list (list Z) :=
  [js "Copy the error detail below and check Pinterest documentation"].

(** What the second half of the handler ends in: one of its two pages,
    or an error thrown out of its [catch] block. *)
Inductive exchange_response : Type :=
  | ConnectionSuccessPage (token : list Z)
  | ConnectionFailedPage (status : Z) (detail : list Z)
      (hints : list (list Z))
  | Unhandled (e : error).

(** [error.response?.data || {}] and [error.response?.status || 500] *)
Definition errorData (response : option (Z * json)) : json :=
  match response with
  | Some (_, data) => if to_boolean (Some data) then data else JObj []
  | None => JObj []
  end.

Definition statusCode (response : option (Z * json)) : Z :=
  match response with
  | Some (status, _) => if (status =? 0)%Z then 500%Z else status
  | None => 500%Z
  end.

Section Platform.

Variable numberToString : bool -> Z -> Z -> list Z.

(** [JSON.stringify] of a parsed value. *)
Variable JSON_stringify : json -> list Z.

(** The request of the block: the credentials go through a template
    literal, and [URLSearchParams] takes the string of the code. *)
Definition token_request_of (h : headers) (code : qval) (c : credentials)
  : exc token_request :=
  attempt id := template numberToString (client_id c) in
  attempt secret := template numberToString (client_secret c) in
  attempt code := QToString code in
  Ret (TokenRequest (js "Basic " ++ basic id secret)
         (form_body code (redirect_uri h))).

(** [detail] of the [catch] block. *)
Definition detail_of (errorData : json) : exc json :=
  match errorData with
  | JStr _ => Ret errorData
  | _ =>
    attempt error_description := get_prop errorData (js "error_description") in
    or_else error_description Ret
      (attempt message := get_prop errorData (js "message") in
       Ret (or_else message id (JStr (JSON_stringify errorData))))
  end.

(** The [catch] block, for the [response] of the error it caught. *)
Definition connection_failed (response : option (Z * json))
  : exchange_response :=
  let statusCode := statusCode response in
  match
    (attempt detail := detail_of (errorData response) in
     attempt credentials_hint :=
       (if (statusCode =? 401)%Z then Ret true
        else includes_of detail (js "invalid_client")) in
     attempt mismatch_hint := includes_of detail (js "redirect_uri") in
     let hints :=
       (if credentials_hint then hints_credentials else [])
       ++ (if mismatch_hint then hints_mismatch else []) in
     let hints := if (length hints =? 0)%nat then hints_generic else hints in
     attempt text := ToString numberToString detail in
     Ret (ConnectionFailedPage statusCode text hints))
  with
  | Ret page => page
  | Throw e => Unhandled e
  end.

(** The second [try] block with its [catch]: an error of the block's
    own code has no [response]. *)
Definition exchange (h : headers) (code : qval) (c : credentials)
  (platform : upstream) : exchange_response :=
  match token_request_of h code c with
  | Throw _ => connection_failed None
  | Ret _ =>
    match platform with
    | Rejected response _ => connection_failed response
    | Resolved data =>
      match (attempt token := get_prop data (js "access_token") in
             template numberToString token) with
      | Ret token => ConnectionSuccessPage token
      | Throw _ => connection_failed None
      end
    end
  end.

(** The handler as a whole, for the answer the platform gives when it
    is asked: the status of the page that is sent, or the error with
    which the promise of the handler rejects. *)
Inductive route_result : Type :=
  | Sends (status : Z)
  | Escapes (e : error).

Variable bufferFromObject : qval -> exc (list Z).

Definition callback_route (h : headers) (q : callback_query)
  (platform : upstream) : route_result :=
  match callback bufferFromObject q with
  | AuthorizationFailedPage status _ _ _ => Sends status
  | NoCodePage status => Sends status
  | SessionErrorPage status _ => Sends status
  | Rejects e => Escapes e
  | ExchangesToken code c =>
    match exchange h code c platform with
    | ConnectionSuccessPage _ => Sends 200
    | ConnectionFailedPage status _ _ => Sends status
    | Unhandled e => Escapes e
    end
  end.

End Platform.

End Exchange.

(** ** src/server.js: GET /api/list-boards *)

Module Boards.

Import Json Server Render.

Record boards_query : Type := BoardsQuery {
  q_token : option qval;
  q_boards_sandbox : option qval
}.

Definition sandbox_host : list Z := js "https://api-sandbox.pinterest.com".

Definition production_host : list Z := js "https://api.pinterest.com".

Definition baseUrl (env : gmap string (list Z)) (q : boards_query) : list Z :=
  if is_text (q_boards_sandbox q) (js "true")
     || bool_decide (env !! "PINTEREST_SANDBOX" = Some (js "true"))
  then sandbox_host else production_host.

Record boards_request : Type := BoardsRequest {
  url : list Z;
  bearer : list Z
}.

(** The GET the handler sends: none without a token; with one, the
    token goes through a template literal on the way into the header,
    which can throw. *)
Definition boards_request_of (env : gmap string (list Z)) (q : boards_query)
  : option (exc boards_request) :=
  match q_token q with
  | Some token =>
    if present (Some token)
    then Some (attempt text := QToString token in
               Ret (BoardsRequest (baseUrl env q ++ js "/v5/boards")
                      (js "Bearer " ++ text)))
    else None
  | None => None
  end.

(** The [message] of the error answer: a value of the platform's
    answer, a text, or the message of the error that was caught. *)
Inductive reported : Type :=
  | Value (v : json)
  | Text (s : list Z)
  | MessageOf (e : error).

(** The answers of the handler, or an error thrown out of its [catch]
    block. *)
Inductive boards_response : Type :=
  | MissingToken (status : Z)
  | BoardList (items : option json)
  | BoardsFailed (status : Z) (message : reported)
  | BoardsUnhandled (e : error).

Section Platform.

Variable JSON_stringify : json -> list Z.

(** The [catch] block, for the error it caught and its [response]. *)
Definition boards_failed (response : option (Z * json)) (e : error)
  : boards_response :=
  let errData := Exchange.errorData response in
  match get_prop errData (js "message") with
  | Throw thrown => BoardsUnhandled thrown
  | Ret message =>
    BoardsFailed 500
      (or_else message Value
         (let text := match errData with
                      | JStr s => s
                      | _ => JSON_stringify errData
                      end in
          if nonempty text then Text text else MessageOf e))
  end.

Definition list_boards (env : gmap string (list Z)) (q : boards_query)
  (platform : upstream) : boards_response :=
  match boards_request_of env q with
  | None => MissingToken 400
  | Some (Throw e) => boards_failed None e
  | Some (Ret _) =>
    match platform with
    | Rejected response message => boards_failed response (Error message)
    | Resolved data =>
      match get_prop data (js "items") with
      | Ret items => BoardList items
      | Throw e => boards_failed None e
      end
    end
  end.

End Platform.

End Boards.

(** ** The request and the answer of the content generator, and
    POST /api/generate-only *)

Module Generate.

Import Json Poster Server Render.

(** [process.env.K || d] *)
Definition env_or (env : gmap string (list Z)) (K : string) (d : list Z)
  : list Z :=
  match env !! K with
  | Some s => if nonempty s then s else d
  | None => d
  end.

(** [getConfig()], without the constants of the design. *)
Record config : Type := Config {
  openrouterApiKey : option (list Z);
  openrouterModel : list Z;
  pinterestAccessToken : option (list Z);
  pinterestBoardId : option (list Z);
  siteUrl : list Z
}.

Definition getConfig (env : gmap string (list Z)) : config :=
  {| openrouterApiKey := env !! "OPENROUTER_API_KEY";
     openrouterModel :=
       env_or env "OPENROUTER_MODEL" (js "google/gemini-2.0-flash-001");
     pinterestAccessToken := env !! "PINTEREST_ACCESS_TOKEN";
     pinterestBoardId := env !! "PINTEREST_BOARD_ID";
     siteUrl := env_or env "WEBSITE_URL" (js "www.omarecipes.com") |}.

(** The language the prompt names. *)
Definition language_name (language : jsval) : list Z :=
  if strict_eq language (VStr (js "ar")) then js "Arabic"
  else if strict_eq language (VStr (js "fr")) then js "French"
  else js "English".

(** The user prompt, for the text that the template literal makes of
    the topic. *)
Definition userPrompt (topic : list Z) (language : jsval)
  (websiteUrl : list Z) : list Z :=
  js "Generate Pinterest SEO content for a pin about: "
  ++ [34%Z] ++ topic ++ [34%Z; 10%Z]
  ++ js "    " ++ [10%Z]
  ++ js "Language: " ++ language_name language ++ [10%Z; 10%Z]
  ++ js "The pin will link to: " ++ websiteUrl ++ [10%Z; 10%Z]
  ++ js "Return ONLY valid JSON, no markdown.".

(** What of the POST to the model depends on the call: the model, the
    user prompt and two headers. *)
Record completion_request : Type := CompletionRequest {
  model : list Z;
  user : list Z;
  authorization : list Z;
  referer : list Z
}.

(** [v[0]] on a property that was read. *)
Definition first_of (v : option json) : exc (option json) :=
  match v with
  | None | Some JNull => Throw TypeError
  | Some (JArr l) => Ret (head l)
  | Some (JStr s) =>
    Ret (match s with c :: _ => Some (JStr [c]) | [] => None end)
  | Some (JObj members) => Ret (lookup_member (js "0") members)
  | Some _ => Ret None
  end.

(** [v.k] on a property that was read. *)
Definition prop_of (v : option json) (k : list Z) : exc (option json) :=
  match v with
  | None => Throw TypeError
  | Some x => get_prop x k
  end.

(** [response.data.choices[0].message.content], which has to be a
    string for [content.match] to be there. *)
Definition response_content (data : json) : exc (list Z) :=
  attempt choices := get_prop data (js "choices") in
  attempt first := first_of choices in
  attempt message := prop_of first (js "message") in
  attempt content := prop_of message (js "content") in
  match content with
  | Some (JStr s) => Ret s
  | _ => Throw TypeError
  end.

Section Numbers.

Variable numberToString : bool -> Z -> Z -> list Z.

(** The request of [generatePinContent(topic, language = 'en')]: the
    prompt is written before the [try] block, and the topic goes
    through its template literal. *)
Definition completion_request_of (env : gmap string (list Z))
  (topic language : jsval) : exc completion_request :=
  let config := getConfig env in
  let language :=
    match language with VUndef => VStr (js "en") | _ => language end in
  attempt topic := template numberToString topic in
  Ret {| model := openrouterModel config;
         user := userPrompt topic language (siteUrl config);
         authorization :=
           js "Bearer "
           ++ match openrouterApiKey config with
              | Some key => key
              | None => js "undefined"
              end;
         referer :=
           if startsWith (js "http") (siteUrl config) then siteUrl config
           else js "https://" ++ siteUrl config |}.

(** [generatePinContent] from the answer of the model on. An error of
    the [try] block is thrown again with its message; for an error of
    the request the message is [error.response?.data?.error?.message]
    when that is truthy. *)
Definition generatePinContent_of (platform : upstream) : exc json :=
  match platform with
  | Resolved data =>
    attempt content := response_content data in generatePinContent content
  | Rejected response message =>
    or_else
      (optional_prop
         (optional_prop (option_map snd response) (js "error"))
         (js "message"))
      (fun errorMsg =>
         attempt text := ToString numberToString errorMsg in
         Throw (Error text))
      (Throw (Error message))
  end.

Record generate_body : Type := GenerateBody {
  g_title : jsval;
  g_config : config_arg;
  g_language : jsval
}.

(** [language || config.language || 'en'] *)
Definition language_of (b : generate_body) : exc jsval :=
  if truthy (g_language b) then Ret (g_language b)
  else
    attempt language := config_field (g_config b) "language" in
    Ret (if truthy language then language else VStr (js "en")).

(** The request the handler has [generatePinContent] send. *)
Definition generate_only_request (env : gmap string (list Z))
  (b : generate_body) : exc completion_request :=
  let merged := setupEnv numberToString (g_config b) env in
  attempt _ := merged.2 in
  attempt language := language_of b in
  completion_request_of merged.1 (g_title b) language.

Inductive generate_response : Type :=
  | SeoContent (seoContent : json)
  | GenerateFailed (status : Z) (e : error).

(** The handler: the environment it leaves, and its answer for the
    answer the model gives when it is asked. *)
Definition generate_only (env : gmap string (list Z)) (b : generate_body)
  (platform : upstream) : gmap string (list Z) * generate_response :=
  ((setupEnv numberToString (g_config b) env).1,
   match (attempt _ := generate_only_request env b in
          generatePinContent_of platform) with
   | Ret seoContent => SeoContent seoContent
   | Throw e => GenerateFailed 500 e
   end).

End Numbers.

End Generate.

(** ** The image of a pin, from the request to the platform *)

Module Media.

Definition jpeg_prefix : list Z := js "data:image/jpeg;base64,".

(** [imageData.replace(/^data:image\/jpeg;base64,/, ...)] with the
    empty string. *)
Definition base64Data (imageData : list Z) : list Z :=
  if startsWith jpeg_prefix imageData
  then drop (length jpeg_prefix) imageData
  else imageData.

(** The bytes [fs.writeFileSync(imagePath, base64Data, 'base64')]
    writes. *)
Definition written_file (imageData : list Z) : list Z :=
  Base64.decode (base64Data imageData).

(** [imageBuffer.toString('base64')] in [createPin], for the bytes
    [fs.readFileSync(imagePath)] reads. *)
Definition base64Image (imageBuffer : list Z) : list Z :=
  Base64.encode imageBuffer.

End Media.

(** ** src/pinterest-poster.js: generateAndPostPin *)

Module Cli.

Import Json Poster Render Generate.

(** The function is called from the command line, which gives it
    strings for the topic, the images, the link and the language. What
    it gets from the machine it runs on: whether the
    output directory can be made, whether the two images can be read
    and resized, whether the poster can be composed and written, and
    the bytes of the poster file when it is read back. *)
Record machine : Type := Machine {
  make_dir : exc unit;
  resize_images : exc unit;
  compose_poster : exc unit;
  read_poster : exc (list Z)
}.

(** The body and the bearer token of the POST of [createPin]. *)
Record pin_post : Type := PinPost {
  post_board_id : option (list Z);
  post_title : option json;
  post_description : list Z;
  post_alt_text : option json;
  post_link : list Z;
  post_data : list Z;
  post_bearer : option (list Z)
}.

Inductive result : Type :=
  | Success (pinId : option json) (pinUrl : list Z) (seoContent : json)
  | Failure (e : error).

Section Numbers.

Variable numberToString : bool -> Z -> Z -> list Z.

(** The three lines that log the generated content: the title goes
    into a template, [substring] is called on the description and
    [join] on the hashtags, which converts the elements as the
    conversion of the array to a string does. *)
Definition logged (seoContent : json)
  : exc (option json * list Z * list json) :=
  attempt title := get_prop seoContent (js "title") in
  attempt _ := template numberToString title in
  attempt description := get_prop seoContent (js "description") in
  attempt text :=
    match description with
    | Some (JStr s) => Ret s
    | _ => Throw TypeError
    end in
  attempt hashtags := get_prop seoContent (js "hashtags") in
  attempt tags :=
    match hashtags with
    | Some (JArr l) => attempt _ := ToString numberToString (JArr l) in Ret l
    | _ => Throw TypeError
    end in
  Ret (title, text, tags).

(** [generatePosterImage]: the images are resized, then
    [createTextSVG] calls [title.toUpperCase()], then the poster is
    composed and written. *)
Definition generatePosterImage (m : machine) (title : option json)
  : exc unit :=
  attempt _ := resize_images m in
  attempt _ :=
    match title with
    | Some (JStr _) => Ret tt
    | _ => Throw TypeError
    end in
  compose_poster m.

(** The request of [createPin], for the data [generateAndPostPin]
    passes. *)
Definition pin_post_of (env : gmap string (list Z)) (m : machine)
  (title : option json) (description : list Z) (hashtags : list json)
  (altText : option json) (link : list Z) : exc pin_post :=
  attempt tags := tagged numberToString hashtags in
  attempt imageBuffer := read_poster m in
  Ret {| post_board_id := pinterestBoardId (getConfig env);
         post_title := title;
         post_description := description ++ [10%Z; 10%Z] ++ join [32%Z] tags;
         post_alt_text := altText;
         post_link := link;
         post_data := Base64.encode imageBuffer;
         post_bearer := pinterestAccessToken (getConfig env) |}.

(** The [try] block up to the POST of [createPin]: the generated
    content with the request that is sent for it. *)
Definition publication (env : gmap string (list Z)) (link : list Z)
  (m : machine) (generator : upstream) : exc (json * pin_post) :=
  attempt seoContent := generatePinContent_of numberToString generator in
  attempt content := logged seoContent in
  let '(title, description, hashtags) := content in
  attempt _ := make_dir m in
  attempt _ := generatePosterImage m title in
  attempt altText := get_prop seoContent (js "altText") in
  attempt post := pin_post_of env m title description hashtags altText link in
  Ret (seoContent, post).

(** What [createPin] returns for the answer of the platform: it logs
    the id of the pin before it returns the body. *)
Definition created (platform : upstream) : exc json :=
  match platform with
  | Resolved data =>
    attempt id := get_prop data (js "id") in
    attempt _ := template numberToString id in
    Ret data
  | Rejected _ message => Throw (Error message)
  end.

Definition generateAndPostPin (env : gmap string (list Z)) (link : list Z)
  (m : machine) (generator platform : upstream) : result :=
  match
    (attempt sent := publication env link m generator in
     attempt pinResult := created platform in
     attempt id := get_prop pinResult (js "id") in
     attempt text := template numberToString id in
     Ret (Success id (js "https://pinterest.com/pin/" ++ text) (fst sent)))
  with
  | Ret r => r
  | Throw e => Failure e
  end.

End Numbers.

End Cli.

(** ** Notions the properties are stated with *)

Module Notions.

Import Render.

(** What one character becomes in one pass over the text. *)
Definition escape_char (c : Z) : list Z :=
  if (c =? 38)%Z then js "&amp;"
  else if (c =? 60)%Z then js "&lt;"
  else if (c =? 62)%Z then js "&gt;"
  else if (c =? 34)%Z then js "&quot;"
  else if (c =? 39)%Z then js "&apos;"
  else [c].

(** The characters that open or close a tag or an attribute value. *)
Definition markup_char (c : Z) : bool :=
  ((c =? 60) || (c =? 62) || (c =? 34) || (c =? 39))%Z.

Definition entities : list (list Z) :=
  [js "&amp;"; js "&lt;"; js "&gt;"; js "&quot;"; js "&apos;"].

(** Every ampersand of [s] starts one of the five entities. *)
Fixpoint amps_are_entities (s : list Z) : bool :=
  match s with
  | [] => true
  | c :: r =>
    (if (c =? 38)%Z then existsb (fun e => startsWith e s) entities else true)
    && amps_are_entities r
  end.

(** The tags as the claim words them: every tag gives a space, a hash
    sign and the tag as it is, and the first space is dropped. *)
Definition tags_text (hashtags : list (list Z)) : list Z :=
  drop 1 (flat_map (fun h => 32%Z :: 35%Z :: h) hashtags).

(** [config.website_url || 'https://www.omarecipes.com'] *)
Definition configured_default (website_url : jsval) : jsval :=
  if truthy website_url then website_url else VStr Server.default_site.

Definition with_scheme (link : list Z) : list Z :=
  if startsWith (js "http") link then link else js "https://" ++ link.

Definition bare_scheme (link : list Z) : Prop :=
  link = [] \/ link = js "https://" \/ link = js "http://".

(** The seven configuration fields with the environment variable each
    one is merged into, and all the variables [setupEnv] can write. *)
Definition config_keys : list (string * string) :=
  [("openrouter_key", "OPENROUTER_API_KEY");
   ("pinterest_token", "PINTEREST_ACCESS_TOKEN");
   ("pinterest_board", "PINTEREST_BOARD_ID");
   ("website_url", "WEBSITE_URL");
   ("openrouter_model", "OPENROUTER_MODEL");
   ("pinterest_app_id", "PINTEREST_APP_ID");
   ("pinterest_app_secret", "PINTEREST_APP_SECRET")].

Definition written_keys : list string :=
  map snd config_keys ++ ["PINTEREST_SANDBOX"].

(** The string an assignment to [process.env] stores for a value; none
    when the conversion of the value throws. *)
Definition stored (numberToString : bool -> Z -> Z -> list Z) (v : jsval)
  : option (list Z) :=
  match template numberToString v with
  | Ret s => Some s
  | Throw _ => None
  end.

(** A config whose non-empty fields can all be stored. *)
Definition storable (numberToString : bool -> Z -> Z -> list Z)
  (o : gmap string jsval) : Prop :=
  Forall (fun kK => truthy (Server.prop o kK.1) = true ->
                    exists s, stored numberToString (Server.prop o kK.1) = Some s)
    config_keys.

(** The seven assignments of [setupEnv] as a loop over the fields, and
    the assignment of the sandbox variable that ends the call. *)
Definition assign_all (numberToString : bool -> Z -> Z -> list Z)
  (data : gmap string jsval) (fields : list (string * string))
  (st : gmap string (list Z) * exc unit) : gmap string (list Z) * exc unit :=
  fold_left (fun st kK => Server.assign_if numberToString data kK.1 kK.2 st)
    fields st.

Definition finish (data : gmap string jsval)
  (st : gmap string (list Z) * exc unit) : gmap string (list Z) * exc unit :=
  match st with
  | (env, Ret _) =>
    (<["PINTEREST_SANDBOX" :=
         if Server.strict_eq (Server.prop data "pinterest_sandbox") (VBool true)
            || Server.strict_eq (Server.prop data "pinterest_sandbox")
                 (VStr (js "true"))
         then js "true" else js "false"]> env, Ret tt)
  | (_, Throw _) => st
  end.


Definition token_usable (env : gmap string (list Z)) : Prop :=
  exists token, env !! "PINTEREST_ACCESS_TOKEN" = Some token
    /\ token <> [] /\ token <> js "undefined".


(** A parameter of the query is given when it is there and is not the
    empty string: a string that is not empty, an array or an object. *)
Definition given (p : option Server.qval) : Prop :=
  exists v, p = Some v /\ v <> Server.QStr [].

(** The string a parameter holds; none for a parameter that is absent
    or is not a string. *)
Definition text_of (p : option Server.qval) : list Z :=
  match p with
  | Some (Server.QStr s) => s
  | _ => []
  end.

(** A parameter that is there and is not a string. *)
Definition not_a_string (p : option Server.qval) : Prop :=
  exists v, p = Some v /\ forall s, v <> Server.QStr s.









(** A value that [if (!v)] takes as missing: [undefined], [null],
    [false], the empty string, or a number that is zero (its literal
    denotes zero or rounds to it as a double). *)
Definition missing (v : option Json.json) : Prop :=
  v = None \/ v = Some Json.JNull \/ v = Some (Json.JBool false)
  \/ v = Some (Json.JStr [])
  \/ exists neg mant exp10,
       v = Some (Json.JNum neg mant exp10)
       /\ (mant = 0 \/ (exp10 < 0 /\ mant * 2 ^ 1075 <= 10 ^ (- exp10)))%Z.

(** The member of a parsed value for a name; a value that is not an
    object has none. *)
Definition member (v : Json.json) (k : list Z) : option Json.json :=
  match v with
  | Json.JObj l => Json.lookup_member k l
  | _ => None
  end.

(** The text the callback decodes out of a state that is a string. *)
Definition state_text (state : list Z) : list Z :=
  Utf8.decode (Base64.decode state).

(** The text the callback decodes out of a state value: for a string
    through the base64 reader, for another value through the bytes the
    platform makes of it. *)
Definition decoded (bufferFromObject : Server.qval -> exc (list Z))
  (state : Server.qval) (text : list Z) : Prop :=
  match state with
  | Server.QStr s => text = state_text s
  | _ => exists bytes, bufferFromObject state = Ret bytes
                       /\ text = Utf8.decode bytes
  end.

(** A state that holds no usable credentials: its text is not JSON, or
    is [null], or the client id or the client secret of the parsed
    value is missing. *)
Definition unusable (text : list Z) : Prop :=
  Json.JSON_parse text = None
  \/ Json.JSON_parse text = Some Json.JNull
  \/ exists v, Json.JSON_parse text = Some v
       /\ (missing (member v (js "client_id"))
            \/ missing (member v (js "client_secret"))).

(** A reply whose title has 101 characters and whose tag starts with a
    hash sign, and a reply with two objects in it. *)
Definition long_title_reply : list Z :=
  js "Here you go: {" ++ Json.quote (js "title") ++ js ":"
  ++ Json.quote (repeat 65%Z 101) ++ js ","
  ++ Json.quote (js "hashtags") ++ js ":[" ++ Json.quote (js "#a")
  ++ js "]}".

Definition two_objects_reply : list Z :=
  js "{" ++ Json.quote (js "title") ++ js ":" ++ Json.quote (js "T")
  ++ js "} or {" ++ Json.quote (js "title") ++ js ":"
  ++ Json.quote (js "U") ++ js "}".

(** A string of code units, a buffer of bytes. *)
Definition wf_string (s : list Z) : bool :=
  forallb (fun c => (0 <=? c)%Z && (c <? 65536)%Z) s.

Definition is_bytes (bs : list Z) : Prop :=
  Forall (fun b => (0 <= b < 256)%Z) bs.

(** A string of code units in which every surrogate is half of a
    pair. *)
Fixpoint paired (s : list Z) : bool :=
  match s with
  | [] => true
  | c :: r =>
    if Utf8.is_hi c then
      match r with
      | d :: r' => Utf8.is_lo d && paired r'
      | [] => false
      end
    else negb (Utf8.is_lo c) && (0 <=? c)%Z && (c <? 65536)%Z && paired r
  end.

(** The object the authorize step encodes. *)
Definition state_object (client_id client_secret : list Z) (sandbox : bool)
  : Json.json :=
  Json.JObj [(js "client_id", Json.JStr client_id);
             (js "client_secret", Json.JStr client_secret);
             (js "sandbox", Json.JBool sandbox)].

(** The state of the authorize step for the credentials X and Y, with an
    asterisk put after each of its characters, and with a line break put
    after its first ten characters. *)
Definition starred_state : list Z :=
  flat_map (fun c => [c; 42%Z]) (Server.encode_state (js "X") (js "Y") true).

(** The same state with its character at index 46, a [k], turned into
    an [o]. *)
Definition flipped_state : list Z :=
  <[46%nat := 111%Z]> (Server.encode_state (js "X") (js "Y") true).

Definition broken_line_state : list Z :=
  take 10 (Server.encode_state (js "X") (js "Y") true) ++ [10%Z]
  ++ drop 10 (Server.encode_state (js "X") (js "Y") true).

(** The same state with 256 added to each of its code units, so that
    none of them is a character of base64. *)
Definition high_state : list Z :=
  map (fun c => (c + 256)%Z) (Server.encode_state (js "X") (js "Y") true).

(** A word holds no white space and is not empty; a title is spaced
    plainly when the space character is the only white space in it. *)
Definition no_space (w : list Z) : Prop := Forall (fun c => is_ws c = false) w.

Definition spaced_plainly (s : list Z) : Prop :=
  Forall (fun c => is_ws c = true -> c = 32%Z) s.

(** The words of a title: what stands between its spaces. *)
Definition words_of (s : list Z) : list (list Z) :=
  List.filter nonempty (split 32 s).

(** The words of a title as the loop takes them, whatever its white
    space: what stands between its space characters, without the other
    white space at its two ends; a piece of white space only is no
    word. *)
Definition title_words (s : list Z) : list (list Z) :=
  List.filter nonempty (map trim (split 32 s)).

(** A title of four words with tabs between them, and one whose second
    word comes after four tabs. *)
Definition tabbed_title : list Z :=
  js "easy" ++ [9%Z] ++ js "chocolate" ++ [9%Z] ++ js "chip" ++ [9%Z]
  ++ js "cookies".

Definition indented_title : list Z :=
  js "aaaaaaaaaaaaaaaaaaaa " ++ [9%Z; 9%Z; 9%Z; 9%Z] ++ js "bcde f".

(** A text that starts and ends with a character that is not white
    space. *)
Definition tight (s : list Z) : Prop :=
  (exists c r, s = c :: r /\ is_ws c = false)
  /\ (exists r d, s = r ++ [d] /\ is_ws d = false).

(** A line as the list of its words, and its text. *)
Definition line_of (ws : list (list Z)) : list Z := join [32%Z] ws.

Definition is_word (w : list Z) : Prop := w <> [] /\ no_space w.

Definition good_line (wl : list (list Z)) : Prop :=
  wl <> [] /\ Forall is_word wl.

(** A line fits, or it is one word. *)
Definition fits_or_single (wl : list (list Z)) : Prop :=
  length (line_of wl) <= 25 \/ exists w, wl = [w].

(** The first word of [b] does not fit at the end of [a]. *)
Definition breaks_before (a b : list (list Z)) : Prop :=
  match b with
  | w :: _ => 25 < length (line_of a ++ 32%Z :: w)
  | [] => True
  end.

(** Every line break of the lines [wls] is one the next word forced. *)
Fixpoint forced_breaks (wls : list (list (list Z))) : Prop :=
  match wls with
  | [] => True
  | a :: rest =>
    match rest with
    | b :: _ => breaks_before a b
    | [] => True
    end /\ forced_breaks rest
  end.

(** The finished lines with the running line after them, when it has
    words. *)
Definition with_current (wls : list (list (list Z))) (wc : list (list Z))
  : list (list (list Z)) :=
  wls ++ match wc with [] => [] | _ :: _ => [wc] end.

(** The last finished line, when there is one, is too long. *)
Definition closed (wls : list (list (list Z))) : Prop :=
  wls = [] \/ exists pre a, wls = pre ++ [a] /\ 25 < length (line_of a).

(** What the loop keeps true: [done] are the pieces of the title read
    so far, the state holds the texts of [wls] and of [wc]. *)
Definition wrap_inv (done : list (list Z)) (st : list (list Z) * list Z)
  : Prop :=
  exists wls wc,
    st = (map line_of wls, line_of wc)
    /\ Forall good_line wls /\ Forall is_word wc
    /\ concat wls ++ wc = List.filter nonempty done
    /\ Forall fits_or_single (with_current wls wc)
    /\ forced_breaks (with_current wls wc)
    /\ (wc = [] -> closed wls).

(** What the loop keeps true for any title: the finished lines are not
    empty, a line that is longer than 25 holds no space character, the
    running line is trimmed or is one piece, and the words so far are
    those of the pieces read. *)
Definition any_inv (done : list (list Z)) (st : list (list Z) * list Z)
  : Prop :=
  Forall (fun l => l <> [] /\ (length l <= 25 \/ ~ In 32%Z l)) st.1
  /\ (length st.2 <= 25 \/ ~ In 32%Z st.2)
  /\ (tight st.2 \/ ~ In 32%Z st.2)
  /\ flat_map title_words st.1 ++ title_words st.2
     = List.filter nonempty (map trim done).

(** The bodies of the three functions of the parser, with the calls at
    the smaller fuel as parameters. *)
Definition value_body
  (pm : list Z -> option (list (list Z * Json.json) * list Z))
  (pe : list Z -> option (list Json.json * list Z))
  (s : list Z) : option (Json.json * list Z) :=
  match Json.skip_ws s with
  | [] => None
  | c :: r =>
    if (c =? 123)%Z then
      match Json.skip_ws r with
      | c' :: r' =>
        if (c' =? 125)%Z then Some (Json.JObj [], r')
        else Json.with_fst Json.JObj (pm (c' :: r'))
      | [] => None
      end
    else if (c =? 91)%Z then
      match Json.skip_ws r with
      | c' :: r' =>
        if (c' =? 93)%Z then Some (Json.JArr [], r')
        else Json.with_fst Json.JArr (pe (c' :: r'))
      | [] => None
      end
    else if (c =? 34)%Z then Json.with_fst Json.JStr (Json.parse_chars r)
    else if startsWith (js "true") (c :: r)
    then Some (Json.JBool true, drop 4 (c :: r))
    else if startsWith (js "false") (c :: r)
    then Some (Json.JBool false, drop 5 (c :: r))
    else if startsWith (js "null") (c :: r)
    then Some (Json.JNull, drop 4 (c :: r))
    else Json.parse_number (c :: r)
  end.

Definition elements_body
  (pv : list Z -> option (Json.json * list Z))
  (pe : list Z -> option (list Json.json * list Z))
  (s : list Z) : option (list Json.json * list Z) :=
  match pv s with
  | Some (v, rest) =>
    match Json.skip_ws rest with
    | c :: r =>
      if (c =? 44)%Z then Json.with_fst (cons v) (pe r)
      else if (c =? 93)%Z then Some ([v], r)
      else None
    | [] => None
    end
  | None => None
  end.

Definition members_body
  (pv : list Z -> option (Json.json * list Z))
  (pm : list Z -> option (list (list Z * Json.json) * list Z))
  (s : list Z) : option (list (list Z * Json.json) * list Z) :=
  match Json.skip_ws s with
  | q :: r0 =>
    if (q =? 34)%Z then
      match Json.parse_chars r0 with
      | Some (k, r1) =>
        match Json.skip_ws r1 with
        | c :: r2 =>
          if (c =? 58)%Z then
            match pv r2 with
            | Some (v, rest) =>
              match Json.skip_ws rest with
              | c' :: r3 =>
                if (c' =? 44)%Z then Json.with_fst (cons (k, v)) (pm r3)
                else if (c' =? 125)%Z then Some ([(k, v)], r3)
                else None
              | [] => None
              end
            | None => None
            end
          else None
        | [] => None
        end
      | None => None
      end
    else None
  | [] => None
  end.

End Notions.

(** ** Notions for the other routes *)

Module RouteNotions.

(** A query parameter that is absent, empty, or white space only. *)
Definition blank (p : option Server.qval) : Prop :=
  p = None \/ exists s, p = Some (Server.QStr s)
                         /\ Forall (fun c => is_ws c = true) s.

(** The characters of base64 text: the alphabet and the padding. *)
Definition base64_char (c : Z) : bool :=
  Uri.is_alnum c || (c =? 43)%Z || (c =? 47)%Z || (c =? 61)%Z.

(** The characters [encodeURIComponent] can write. *)
Definition component_char (c : Z) : bool :=
  Uri.unreserved c || (c =? 37)%Z.

(** A hexadecimal digit. *)
Definition is_hex (c : Z) : bool :=
  ((48 <=? c) && (c <=? 57) || (65 <=? c) && (c <=? 70)
   || (97 <=? c) && (c <=? 102))%Z.

(** The characters that stand for themselves in the query of a URL and
    in a Location header: the unreserved ones and [: , / ? = & +]. *)
Definition url_plain (c : Z) : bool :=
  (Uri.unreserved c || (c =? 58) || (c =? 44) || (c =? 47) || (c =? 63)
   || (c =? 61) || (c =? 38) || (c =? 43))%Z.

(** A text in which a percent-encoder of URLs finds nothing to encode:
    the characters above, and percent signs that two hexadecimal digits
    follow. There is no number sign in it, so no fragment. *)
Fixpoint encoded_text (s : list Z) : bool :=
  match s with
  | [] => true
  | c :: r =>
    (if (c =? 37)%Z
     then match r with
          | a :: b :: _ => is_hex a && is_hex b
          | _ => false
          end
     else url_plain c)
    && encoded_text r
  end.

(** The characters the serializer of [URLSearchParams] can write. *)
Definition form_char (c : Z) : bool :=
  Uri.form_safe c || (c =? 43)%Z || (c =? 37)%Z.

(** How often a character stands in a text. *)
Definition occurrences (c : Z) (s : list Z) : nat := count_occ Z.eq_dec s c.

(** What a reader of XML makes of character data that uses the five
    predefined entities: each entity is the character it names, every
    other character is itself. *)
Fixpoint unescapeXml (s : list Z) : list Z :=
  match s with
  | [] => []
  | c :: r =>
    if (c =? 38)%Z then
      match r with
      | 97%Z :: 109%Z :: 112%Z :: 59%Z :: r' => 38%Z :: unescapeXml r'
      | 108%Z :: 116%Z :: 59%Z :: r' => 60%Z :: unescapeXml r'
      | 103%Z :: 116%Z :: 59%Z :: r' => 62%Z :: unescapeXml r'
      | 113%Z :: 117%Z :: 111%Z :: 116%Z :: 59%Z :: r' =>
        34%Z :: unescapeXml r'
      | 97%Z :: 112%Z :: 111%Z :: 115%Z :: 59%Z :: r' =>
        39%Z :: unescapeXml r'
      | _ => c :: unescapeXml r
      end
    else c :: unescapeXml r
  end.

(** One of the five characters [escapeXml] replaces. *)
Definition xml_special (c : Z) : bool :=
  ((c =? 38) || (c =? 60) || (c =? 62) || (c =? 34) || (c =? 39))%Z.

End RouteNotions.

(** * Properties *)

(** ** Strings *)

Module JSFacts.

Lemma streq_true (s t : list Z) : streq s t = true <-> s = t.
Proof. unfold streq. apply bool_decide_eq_true. Qed.

Lemma nonempty_false (s : list Z) : nonempty s = false <-> s = [].
Proof. destruct s; simpl; split; congruence. Qed.

Lemma nonempty_true (s : list Z) : nonempty s = true <-> s <> [].
Proof. destruct s; simpl; split; congruence. Qed.

Lemma replaceAll_app (c : Z) (rep a b : list Z) :
  replaceAll c rep (a ++ b) = replaceAll c rep a ++ replaceAll c rep b.
Proof.
  induction a as [|x a IH]; simpl; [reflexivity|].
  now rewrite IH, app_assoc.
Qed.

(** A string whose first character is not white space is its own
    [trimStart]. *)
Lemma trimStart_head (c : Z) (s : list Z) :
  is_ws c = false -> trimStart (c :: s) = c :: s.
Proof. intros H. simpl. now rewrite H. Qed.

Lemma trimStart_ws (c : Z) (s : list Z) :
  is_ws c = true -> trimStart (c :: s) = trimStart s.
Proof. intros H. simpl. now rewrite H. Qed.

Lemma trimEnd_last (s : list Z) (c : Z) :
  is_ws c = false -> trimEnd (s ++ [c]) = s ++ [c].
Proof.
  intros H. unfold trimEnd. rewrite rev_app_distr. simpl.
  rewrite H. simpl. now rewrite rev_involutive.
Qed.

Lemma trimEnd_ws (s : list Z) (c : Z) :
  is_ws c = true -> trimEnd (s ++ [c]) = trimEnd s.
Proof.
  intros H. unfold trimEnd. rewrite rev_app_distr. simpl. now rewrite H.
Qed.

(** What [trimStart] leaves starts with no white space. *)
Lemma trimStart_spec (s : list Z) :
  trimStart s = [] \/ exists c r, trimStart s = c :: r /\ is_ws c = false.
Proof.
  induction s as [|c s IH]; simpl; [now left|].
  destruct (is_ws c) eqn:E; [exact IH|]. right. now exists c, s.
Qed.

Lemma trimStart_idem (s : list Z) : trimStart (trimStart s) = trimStart s.
Proof.
  destruct (trimStart_spec s) as [->|(c & r & -> & H)]; [reflexivity|].
  now apply trimStart_head.
Qed.

Lemma trimEnd_idem (s : list Z) : trimEnd (trimEnd s) = trimEnd s.
Proof.
  unfold trimEnd. now rewrite rev_involutive, trimStart_idem.
Qed.

(** [trimEnd] keeps the first character of what it leaves. *)
Lemma trimEnd_cons (c : Z) (s : list Z) :
  is_ws c = false -> exists r, trimEnd (c :: s) = c :: r.
Proof.
  intros H. induction s as [|x s IH] using rev_ind.
  - exists []. apply (trimEnd_last [] c H).
  - destruct (is_ws x) eqn:E.
    + rewrite app_comm_cons, trimEnd_ws by exact E. exact IH.
    + exists (s ++ [x]). rewrite app_comm_cons. now apply trimEnd_last.
Qed.

Lemma trimStart_trimEnd (s : list Z) :
  trimStart (trimEnd (trimStart s)) = trimEnd (trimStart s).
Proof.
  destruct (trimStart_spec s) as [->|(c & r & -> & H)]; [reflexivity|].
  destruct (trimEnd_cons c r H) as [r' ->]. now apply trimStart_head.
Qed.

Lemma trim_idem (s : list Z) : trim (trim s) = trim s.
Proof.
  unfold trim. now rewrite trimStart_trimEnd, trimEnd_idem.
Qed.

End JSFacts.

(** ** More on strings *)

Module StringFacts.

Import JSFacts Notions RouteNotions.

Lemma startsWith_prefix (p s : list Z) :
  startsWith p s = true <-> exists r, s = p ++ r.
Proof.
  revert s. induction p as [|a p IH]; intros s; cbn [startsWith].
  - split; [intros _; now exists s | reflexivity].
  - destruct s as [|b s].
    + split; [discriminate | intros [r H]; discriminate H].
    + rewrite andb_true_iff, IH, Z.eqb_eq. split.
      * intros [-> [r ->]]. now exists r.
      * intros [r H]. injection H as -> ->. split; [reflexivity | now exists r].
Qed.

Lemma startsWith_same (p r : list Z) : startsWith p (p ++ r) = true.
Proof. apply startsWith_prefix. now exists r. Qed.

Lemma trimStart_nil (s : list Z) :
  trimStart s = [] <-> Forall (fun c => is_ws c = true) s.
Proof.
  induction s as [|c s IH]; cbn [trimStart].
  - split; [constructor | reflexivity].
  - destruct (is_ws c) eqn:E.
    + rewrite IH. split; [now constructor | now inversion 1].
    + split; [discriminate | inversion 1; congruence].
Qed.

(** What [trim] leaves is empty exactly for white space. *)
Lemma trim_nil (s : list Z) :
  trim s = [] <-> Forall (fun c => is_ws c = true) s.
Proof.
  rewrite <- trimStart_nil. unfold trim, trimEnd. split.
  - intros H. apply (f_equal (@rev Z)) in H. rewrite rev_involutive in H.
    cbn in H. apply trimStart_nil in H. apply Forall_rev in H.
    rewrite rev_involutive in H.
    destruct (trimStart_spec s) as [E|(c & r & E & Hc)]; [exact E|].
    rewrite E in H. inversion H; congruence.
  - intros ->. reflexivity.
Qed.

Lemma trimStart_suffix (s : list Z) : exists pre, s = pre ++ trimStart s.
Proof.
  induction s as [|c s [pre IH]]; [now exists []|]. cbn [trimStart].
  destruct (is_ws c); [|now exists []].
  exists (c :: pre). cbn. now rewrite <- IH.
Qed.

(** [trim] takes characters away at the two ends only. *)
Lemma trim_middle (s : list Z) : exists pre post, s = pre ++ trim s ++ post.
Proof.
  unfold trim, trimEnd. destruct (trimStart_suffix s) as [pre Hpre].
  destruct (trimStart_suffix (rev (trimStart s))) as [post Hpost].
  exists pre, (rev post). rewrite <- rev_app_distr, <- Hpost, rev_involutive.
  exact Hpre.
Qed.

Lemma trim_In (c : Z) (s : list Z) : In c (trim s) -> In c s.
Proof.
  destruct (trim_middle s) as (pre & post & H). intros Hi. rewrite H.
  apply in_or_app. right. apply in_or_app. now left.
Qed.

Lemma Ret_inj {A : Type} (a b : A) : @Ret A a = Ret b -> a = b.
Proof. now intros [= ->]. Qed.

Lemma split_go_length (sep : Z) (acc s : list Z) :
  length (split_go sep acc s) = S (occurrences sep s).
Proof.
  unfold occurrences. revert acc.
  induction s as [|x s IH]; intros acc; cbn [split_go count_occ];
    [reflexivity|].
  destruct (Z.eqb_spec x sep) as [->|H].
  - destruct (Z.eq_dec sep sep); [|congruence]. cbn [length]. now rewrite IH.
  - destruct (Z.eq_dec x sep); [congruence|]. apply IH.
Qed.

(** A text has one piece more than it has separators. *)
Lemma split_length (sep : Z) (s : list Z) :
  length (split sep s) = S (occurrences sep s).
Proof. apply split_go_length. Qed.

Lemma split_go_nonempty (sep : Z) (acc s : list Z) : split_go sep acc s <> [].
Proof.
  revert acc. induction s as [|x s IH]; intros acc; cbn [split_go];
    [discriminate|].
  destruct (x =? sep)%Z; [discriminate | apply IH].
Qed.

Lemma join_split_go (sep : Z) (acc s : list Z) :
  join [sep] (split_go sep acc s) = rev acc ++ s.
Proof.
  revert acc. induction s as [|x s IH]; intros acc; cbn [split_go].
  - cbn. now rewrite app_nil_r.
  - destruct (Z.eqb_spec x sep) as [->|Hx].
    + pose proof (split_go_nonempty sep [] s) as Hn.
      specialize (IH []). destruct (split_go sep [] s) as [|p ps];
        [congruence|].
      change (join [sep] (rev acc :: p :: ps))
        with (rev acc ++ [sep] ++ join [sep] (p :: ps)).
      now rewrite IH.
    + rewrite IH. cbn [rev]. now rewrite <- app_assoc.
Qed.

(** The pieces of a text, put together again with the separator between
    them, are the text. *)
Lemma join_split (sep : Z) (s : list Z) : join [sep] (split sep s) = s.
Proof. apply join_split_go. Qed.


End StringFacts.

(** ** Values and their strings *)

Module RenderFacts.

Import Json Render Server Notions JSFacts.

(** Induction over a parsed value with the elements of an array and the
    members of an object as hypotheses. *)
Lemma json_values_ind (P : json -> Prop) :
  P JNull -> (forall b, P (JBool b)) -> (forall n m e, P (JNum n m e)) ->
  (forall s, P (JStr s)) ->
  (forall l, Forall P l -> P (JArr l)) ->
  (forall members, Forall (fun kv => P kv.2) members -> P (JObj members)) ->
  forall v, P v.
Proof.
  intros HN HB Hn HS HA HO. fix IH 1. intros [|b|n m e|s|l|members].
  - exact HN.
  - apply HB.
  - apply Hn.
  - apply HS.
  - apply HA. induction l as [|y l IHl]; constructor; [apply IH | exact IHl].
  - apply HO. induction members as [|[k y] members IHm]; constructor;
      [apply IH | exact IHm].
Qed.


(** The conversion to a string throws nothing but a TypeError. *)
Lemma ToString_throws (numberToString : bool -> Z -> Z -> list Z)
  (v : json) (x : error) :
  ToString numberToString v = Throw x -> x = TypeError.
Proof.
  revert x. induction v as [|b|n m e|s|l IHl|members _] using json_values_ind;
    intros x; cbn [ToString]; try discriminate.
  - revert x. induction IHl as [|y l Hy _ IH]; intros x; [discriminate|].
    destruct (match y with JNull => Ret [] | _ => ToString numberToString y end)
      as [a|e] eqn:Ey; cbn [JS.bind].
    + destruct l as [|z l']; [discriminate|].
      match goal with
      | |- JS.bind ?t _ = _ -> _ => destruct t as [b|e] eqn:Et
      end; cbn [JS.bind]; [discriminate|].
      intros [= <-]. now apply IH.
    + intros [= <-]. destruct y; try discriminate Ey; now apply Hy.
  - destruct (lookup_member (js "toString") members); congruence.
Qed.

Lemma template_throws (numberToString : bool -> Z -> Z -> list Z)
  (v : jsval) (x : error) :
  template numberToString v = Throw x -> x = TypeError.
Proof.
  destruct v as [v|]; [apply ToString_throws | discriminate].
Qed.



Lemma tagged_throws (numberToString : bool -> Z -> Z -> list Z)
  (hashtags : list json) (x : error) :
  Poster.tagged numberToString hashtags = Throw x -> x = TypeError.
Proof.
  induction hashtags as [|h r IH]; cbn [Poster.tagged]; [discriminate|].
  destruct (ToString numberToString h) as [a|e] eqn:Eh; cbn [JS.bind].
  - destruct (Poster.tagged numberToString r) as [b|e]; cbn [JS.bind];
      [discriminate|]. intros [= <-]. now apply IH.
  - intros [= <-]. now apply (ToString_throws numberToString h).
Qed.

(** [if (!v)] takes exactly the missing values as false. *)
Lemma truthy_missing (v : jsval) : truthy v = false <-> missing v.
Proof.
  unfold truthy, missing, to_boolean, num_is_zero.
  destruct v as [[|[]|n m e|[|c s]|l|o]|]; simpl.
  all: try (split; [intros _; tauto | reflexivity]).
  all: try (split; [discriminate|];
            intros [H|[H|[H|[H|(n0 & m0 & e0 & H & _)]]]]; discriminate H).
  rewrite negb_false_iff, orb_true_iff, andb_true_iff.
  rewrite Z.eqb_eq, Z.ltb_lt, Z.leb_le. split.
  - intros H. do 4 right. now exists n, m, e.
  - intros [H|[H|[H|[H|(n0 & m0 & e0 & [= <- <- <-] & H)]]]];
      try discriminate H. exact H.
Qed.


(** [if (p)] on a parameter of the query. *)
Lemma present_given (p : option qval) : present p = true <-> given p.
Proof.
  unfold present, given. destruct p as [[s|l|m]|].
  - rewrite nonempty_true. split.
    + intros H. exists (QStr s). split; [reflexivity | congruence].
    + intros (v & [= <-] & H) ->. now apply H.
  - split; [|reflexivity]. intros _. now exists (QArr l).
  - split; [|reflexivity]. intros _. now exists (QObj m).
  - split; [discriminate|]. intros (v & H & _). discriminate H.
Qed.

Lemma present_not_given (p : option qval) : present p = false <-> ~ given p.
Proof.
  rewrite <- present_given. destruct (present p); split; congruence.
Qed.

End RenderFacts.

(** ** The banner text: escapeXml *)

Module EscapeXml.

Import Poster JSFacts Notions.

Lemma escapeXml_app (a b : list Z) :
  escapeXml (a ++ b) = escapeXml a ++ escapeXml b.
Proof. unfold escapeXml. now rewrite !replaceAll_app. Qed.

Lemma escapeXml_one (c : Z) : escapeXml [c] = escape_char c.
Proof.
  unfold escapeXml, escape_char.
  repeat (simpl;
          match goal with
          | |- context [Z.eqb c ?k] => destruct (Z.eqb_spec c k) as [->|?]
          end; try reflexivity).
Qed.

Lemma escapeXml_cons (c : Z) (s : list Z) :
  escapeXml (c :: s) = escape_char c ++ escapeXml s.
Proof. now rewrite <- escapeXml_one, <- escapeXml_app. Qed.

Lemma escapeXml_flat_map (s : list Z) : escapeXml s = flat_map escape_char s.
Proof.
  induction s as [|c s IH]; [reflexivity|].
  rewrite escapeXml_cons, IH. reflexivity.
Qed.

Lemma escape_char_cases (c : Z) :
  In (escape_char c) entities \/ (escape_char c = [c] /\ c <> 38%Z
                                  /\ markup_char c = false).
Proof.
  unfold escape_char, markup_char, entities.
  destruct (Z.eqb_spec c 38); [left; simpl; tauto|].
  destruct (Z.eqb_spec c 60); [left; simpl; tauto|].
  destruct (Z.eqb_spec c 62); [left; simpl; tauto|].
  destruct (Z.eqb_spec c 34); [left; simpl; tauto|].
  destruct (Z.eqb_spec c 39); [left; simpl; tauto|].
  right. simpl. auto.
Qed.

Lemma escapeXml_no_markup (s : list Z) :
  Forall (fun c => markup_char c = false) (escapeXml s).
Proof.
  rewrite escapeXml_flat_map. induction s as [|c s IH]; simpl; [constructor|].
  apply Forall_app. split; [|exact IH].
  destruct (escape_char_cases c) as [H|(-> & _ & H)].
  - simpl in H.
    destruct H as [<-|[<-|[<-|[<-|[<-|[]]]]]]; repeat constructor.
  - repeat constructor. exact H.
Qed.

Lemma escapeXml_amps (s : list Z) : amps_are_entities (escapeXml s) = true.
Proof.
  rewrite escapeXml_flat_map. induction s as [|c s IH]; simpl; [reflexivity|].
  destruct (escape_char_cases c) as [H|(-> & Hc & _)].
  - simpl in H.
    destruct H as [<-|[<-|[<-|[<-|[<-|[]]]]]]; simpl; exact IH.
  - simpl. apply Z.eqb_neq in Hc. rewrite Hc. exact IH.
Qed.

(** C10. [escapeXml] of a text is the text with every [&], [<], [>],
    double quote and apostrophe replaced by its entity and every other
    character kept; the text elements of the banner hold, in order, the
    lines of the upper-cased title and then the site caption (when
    there is one), each with these replacements made; so no element
    holds [<], [>], a double quote or an apostrophe, and each [&] in it
    starts an entity: no title or caption can close the element or add
    markup. *)
Theorem banner_text_is_escaped
  (toUpperCase : list Z -> list Z) (title websiteUrl : list Z) :
  (forall text, escapeXml text = flat_map escape_char text)
  /\ map content (createTextSVG toUpperCase title websiteUrl)
     = map (flat_map escape_char)
         (titleLines toUpperCase title
          ++ (if nonempty websiteUrl then [websiteUrl] else []))
  /\ Forall (fun el =>
       Forall (fun c => markup_char c = false) (content el)
       /\ amps_are_entities (content el) = true)
     (createTextSVG toUpperCase title websiteUrl).
Proof.
  split; [exact escapeXml_flat_map|]. unfold createTextSVG. split.
  - rewrite map_app, map_app, map_map. simpl. f_equal.
    + apply map_ext. intros line. apply escapeXml_flat_map.
    + destruct (nonempty websiteUrl); [|reflexivity]. simpl.
      now rewrite escapeXml_flat_map.
  - apply Forall_app. split.
    + apply Forall_map. apply Forall_forall. intros line _. simpl.
      auto using escapeXml_no_markup, escapeXml_amps.
    + destruct (nonempty websiteUrl); constructor; [|constructor].
      simpl. auto using escapeXml_no_markup, escapeXml_amps.
Qed.

End EscapeXml.

(** ** The banner text: font size *)

Module FontSize.

Import Poster.

Lemma some_longer (n : nat) (lines : list (list Z)) :
  existsb (fun l => (n <? length l)%nat) lines = true
  <-> Exists (fun l => n < length l) lines.
Proof.
  induction lines as [|l lines IH]; simpl.
  - split; [discriminate | intros H; inversion H].
  - rewrite orb_true_iff, IH, Exists_cons, Nat.ltb_lt. reflexivity.
Qed.

Lemma none_longer (n : nat) (lines : list (list Z)) :
  existsb (fun l => (n <? length l)%nat) lines = false
  <-> Forall (fun l => length l <= n) lines.
Proof.
  induction lines as [|l lines IH]; simpl.
  - split; [constructor | reflexivity].
  - rewrite orb_false_iff, IH, Forall_cons, Nat.ltb_ge. reflexivity.
Qed.

Lemma longer_mono (lines : list (list Z)) :
  existsb (fun l => (25 <? length l)%nat) lines = true ->
  existsb (fun l => (20 <? length l)%nat) lines = true.
Proof.
  rewrite !some_longer. intros H.
  induction H as [l r H|l r _ IH]; [left; lia | right; exact IH].
Qed.

(** C5. The font size of a set of lines is 72 exactly when no line is
    longer than 20 characters, 60 exactly when some line is longer than
    20 and none longer than 25, and 50 exactly when some line is longer
    than 25; there is no fourth size. *)
Theorem fontSize_three_tiers (lines : list (list Z)) :
  (fontSize lines = 72%Z <-> Forall (fun l => length l <= 20) lines)
  /\ (fontSize lines = 60%Z
      <-> Exists (fun l => 20 < length l) lines
          /\ Forall (fun l => length l <= 25) lines)
  /\ (fontSize lines = 50%Z <-> Exists (fun l => 25 < length l) lines)
  /\ (fontSize lines = 72%Z \/ fontSize lines = 60%Z \/ fontSize lines = 50%Z).
Proof.
  rewrite <- (none_longer 20), <- (none_longer 25).
  rewrite <- (some_longer 20), <- (some_longer 25).
  pose proof (longer_mono lines) as Hm. unfold fontSize.
  destruct (existsb (fun l => (25 <? length l)%nat) lines) eqn:E25;
    destruct (existsb (fun l => (20 <? length l)%nat) lines) eqn:E20;
    try (specialize (Hm eq_refl); discriminate);
    repeat split; intros; (discriminate || tauto || intuition discriminate).
Qed.

End FontSize.

(** ** The description of the pin *)

Module Hashtags.

Import Json Render Poster Notions.

Lemma join_tags (hashtags : list (list Z)) :
  join [32%Z] (map (fun h => 35%Z :: h) hashtags) = tags_text hashtags.
Proof.
  unfold tags_text. destruct hashtags as [|h r]; [reflexivity|].
  simpl. revert h.
  induction r as [|h' r IH]; intros h; simpl.
  - now rewrite app_nil_r.
  - rewrite IH. reflexivity.
Qed.

(** Tags that are strings are taken as they are. *)
Lemma tagged_strings (numberToString : bool -> Z -> Z -> list Z)
  (hashtags : list (list Z)) :
  tagged numberToString (map JStr hashtags)
  = Ret (map (fun h => 35%Z :: h) hashtags).
Proof.
  induction hashtags as [|h r IH]; [reflexivity|].
  cbn [map tagged ToString JS.bind]. now rewrite IH.
Qed.

Lemma fullDescription_strings (numberToString : bool -> Z -> Z -> list Z)
  (description : list Z) (hashtags : list (list Z)) :
  fullDescription numberToString (VStr description) (map JStr hashtags)
  = Ret (description ++ [10%Z; 10%Z] ++ tags_text hashtags).
Proof.
  unfold fullDescription. cbn [template ToString JS.bind].
  rewrite tagged_strings. cbn [JS.bind]. now rewrite join_tags.
Qed.

(** C6. The description [createPin] submits is the description, two
    newlines, and the tags, each with a hash sign before it and one
    space between two of them, nothing in them changed; for D and the
    tags a and b c it is D, two newlines, #a #b c. *)
Theorem createPin_description
  (numberToString : bool -> Z -> Z -> list Z)
  (env : gmap string (list Z)) (title altText : jsval)
  (description link : list Z) (hashtags : list (list Z)) :
  (exists request,
      createPin numberToString env
        (PinData title (VStr description) (map JStr hashtags) altText link)
      = Ret request
      /\ req_description request
         = description ++ [10%Z; 10%Z] ++ tags_text hashtags)
  /\ fullDescription numberToString (VStr (js "D"))
       [JStr (js "a"); JStr (js "b c")]
     = Ret (js "D" ++ [10%Z; 10%Z] ++ js "#a #b c").
Proof.
  split; [|reflexivity].
  unfold createPin. cbn [pin_description pin_hashtags].
  rewrite fullDescription_strings. cbn [JS.bind].
  eexists. split; reflexivity.
Qed.

End Hashtags.

(** ** The link of the pin *)

Module Link.

Import Json Render Server Notions JSFacts.

Lemma normalizeLink_default (websiteUrl : list Z) (website_url : jsval)
  (d : list Z) :
  bare_scheme (trim websiteUrl) ->
  configured_default website_url = VStr d ->
  normalizeLink websiteUrl website_url = Ret (with_scheme d).
Proof.
  intros Hb Hd. unfold normalizeLink, with_scheme.
  assert (negb (truthy (VStr (trim websiteUrl)))
          || strict_eq (VStr (trim websiteUrl)) (VStr (js "https://"))
          || strict_eq (VStr (trim websiteUrl)) (VStr (js "http://")) = true)
    as ->.
  { destruct Hb as [->|[->| ->]]; reflexivity. }
  unfold configured_default in Hd. rewrite Hd. cbv [as_string JS.bind].
  destruct (startsWith (js "http") d); reflexivity.
Qed.

Lemma normalizeLink_given (websiteUrl : list Z) (website_url : jsval) :
  ~ bare_scheme (trim websiteUrl) ->
  normalizeLink websiteUrl website_url = Ret (with_scheme (trim websiteUrl)).
Proof.
  intros Hb. unfold normalizeLink, with_scheme.
  assert (negb (truthy (VStr (trim websiteUrl)))
          || strict_eq (VStr (trim websiteUrl)) (VStr (js "https://"))
          || strict_eq (VStr (trim websiteUrl)) (VStr (js "http://")) = false)
    as ->.
  { unfold bare_scheme in Hb. simpl.
    destruct (nonempty (trim websiteUrl)) eqn:E1;
      [|apply nonempty_false in E1; tauto].
    destruct (streq (trim websiteUrl) (js "https://")) eqn:E2;
      [apply streq_true in E2; tauto|].
    destruct (streq (trim websiteUrl) (js "http://")) eqn:E3;
      [apply streq_true in E3; tauto|].
    reflexivity. }
  cbv [as_string JS.bind].
  destruct (startsWith (js "http") (trim websiteUrl)); reflexivity.
Qed.

(** C3, as the code has it. When the trimmed link is empty or a bare
    scheme, the final link is the configured default site URL
    ([config.website_url], or https://www.omarecipes.com without one),
    with https:// put before it when it does not start with http. Any
    other trimmed link that starts with http is the final link as it
    is, and normalizing it again changes nothing; any other trimmed link
    gets https:// put before it. So example.com gives
    https://example.com, and https://example.com stays. *)
Theorem link_normalization (websiteUrl : list Z) (website_url : jsval) :
  (forall d, bare_scheme (trim websiteUrl) ->
     configured_default website_url = VStr d ->
     normalizeLink websiteUrl website_url
     = Ret (if startsWith (js "http") d then d else js "https://" ++ d))
  /\ (~ bare_scheme (trim websiteUrl) ->
      startsWith (js "http") (trim websiteUrl) = true ->
      normalizeLink websiteUrl website_url = Ret (trim websiteUrl)
      /\ normalizeLink (trim websiteUrl) website_url = Ret (trim websiteUrl))
  /\ (~ bare_scheme (trim websiteUrl) ->
      startsWith (js "http") (trim websiteUrl) = false ->
      normalizeLink websiteUrl website_url
      = Ret (js "https://" ++ trim websiteUrl))
  /\ normalizeLink (js "example.com") website_url
     = Ret (js "https://example.com")
  /\ normalizeLink (js "https://example.com") website_url
     = Ret (js "https://example.com").
Proof.
  split; [|split; [|split; [|split]]].
  - intros d Hb Hd. now apply normalizeLink_default.
  - intros Hb Hs. split.
    + rewrite normalizeLink_given by exact Hb. unfold with_scheme.
      now rewrite Hs.
    + rewrite normalizeLink_given by (now rewrite trim_idem).
      rewrite trim_idem. unfold with_scheme. now rewrite Hs.
  - intros Hb Hs. rewrite normalizeLink_given by exact Hb.
    unfold with_scheme. now rewrite Hs.
  - reflexivity.
  - reflexivity.
Qed.

(** The theorem at the link [  http://a.b ] with no configured site, at
    the empty link with the configured site [a.b], and at the link
    [a.b]. *)
Lemma link_normalization_witness :
  normalizeLink [] (VStr (js "a.b")) = Ret (js "https://a.b")
  /\ normalizeLink (js "  http://a.b ") VUndef = Ret (js "http://a.b")
  /\ normalizeLink (js "a.b") VUndef = Ret (js "https://a.b").
Proof.
  split; [|split].
  - apply (proj1 (link_normalization [] (VStr (js "a.b"))) (js "a.b"));
      [left; reflexivity | reflexivity].
  - apply (proj1 (proj2 (link_normalization (js "  http://a.b ") VUndef)));
      [|reflexivity].
    unfold bare_scheme. vm_compute. intros [H|[H|H]]; discriminate H.
  - apply (proj1 (proj2 (proj2 (link_normalization (js "a.b") VUndef))));
      [|reflexivity].
    unfold bare_scheme. vm_compute. intros [H|[H|H]]; discriminate H.
Defined.

(** C3 as worded fails: with the configured site [example.com] and an
    empty link, the final link is not the configured site but
    https://example.com. *)
Lemma default_link_gets_scheme :
  normalizeLink (js "") (VStr (js "example.com"))
  = Ret (js "https://example.com")
  /\ normalizeLink (js "") (VStr (js "example.com"))
     <> Ret (js "example.com").
Proof. split; [reflexivity | discriminate]. Qed.

End Link.

(** ** The merge of the request's configuration *)

Module Merge.

Import Json Render Server Notions JSFacts RenderFacts.

Section Numbers.

Variable numberToString : bool -> Z -> Z -> list Z.

Lemma setupEnv_fields_loop (o : gmap string jsval) (env : gmap string (list Z)) :
  setupEnv_fields numberToString o env
  = finish o (assign_all numberToString o config_keys (env, Ret tt)).
Proof. reflexivity. Qed.

Lemma stored_ret (v : jsval) (s : list Z) :
  stored numberToString v = Some s <-> template numberToString v = Ret s.
Proof.
  unfold stored. destruct (template numberToString v); split; congruence.
Qed.

Lemma stored_none (v : jsval) :
  stored numberToString v = None
  <-> template numberToString v = Throw TypeError.
Proof.
  unfold stored. destruct (template numberToString v) as [s|e] eqn:E.
  - split; discriminate.
  - apply template_throws in E as ->. split; reflexivity.
Qed.

(** What the loop has done after some of the fields: the call goes on
    exactly when every non-empty field so far could be stored, and then
    each of these fields holds its value or is as it was; a call that
    stopped did so with a TypeError, and every field is as it was or
    holds its value; no other variable changes. *)
Lemma assign_all_spec (o : gmap string jsval) (env : gmap string (list Z))
  (fields : list (string * string)) :
  NoDup (map snd fields) ->
  let st := assign_all numberToString o fields (env, Ret tt) in
  (st.2 = Ret tt
   <-> forall k K, In (k, K) fields -> truthy (prop o k) = true ->
         exists s, stored numberToString (prop o k) = Some s)
  /\ (st.2 = Ret tt ->
      forall k K, In (k, K) fields ->
        st.1 !! K = if truthy (prop o k)
                    then stored numberToString (prop o k)
                    else env !! K)
  /\ (forall e, st.2 = Throw e -> e = TypeError)
  /\ (forall k K, In (k, K) fields ->
       st.1 !! K = env !! K
       \/ (truthy (prop o k) = true
           /\ exists s, stored numberToString (prop o k) = Some s
                        /\ st.1 !! K = Some s))
  /\ (forall K, ~ In K (map snd fields) -> st.1 !! K = env !! K).
Proof.
  unfold assign_all.
  induction fields as [|[k K] fields IH] using rev_ind; intros Hnd.
  - simpl. repeat split; try discriminate; try tauto.
  - rewrite map_app in Hnd. apply NoDup_app in Hnd.
    destruct Hnd as (Hnd & Hfresh & _).
    specialize (IH Hnd). cbv zeta in IH |- *.
    rewrite fold_left_app. cbn [fold_left fst snd].
    destruct (fold_left _ fields (env, Ret tt)) as [env1 r1] eqn:E1.
    cbn [fst snd] in IH. destruct IH as (IHr & IHk & IHe & IHf & IHo).
    assert (~ In K (map snd fields)) as HK.
    { intros Hin. apply (Hfresh K); [now apply list_elem_of_In|].
      apply list_elem_of_In. now left. }
    assert (forall k' K', In (k', K') fields -> K <> K') as Hother.
    { intros k' K' Hin ->. apply HK. apply in_map_iff. now exists (k', K'). }
    assert (forall k' K', In (k', K') (fields ++ [(k, K)])
              <-> In (k', K') fields \/ (k', K') = (k, K)) as Hin.
    { intros k' K'. rewrite in_app_iff. simpl. intuition congruence. }
    assert (forall K', ~ In K' (map snd (fields ++ [(k, K)]))
              <-> ~ In K' (map snd fields) /\ K' <> K) as Hout.
    { intros K'. rewrite map_app, in_app_iff. simpl. intuition congruence. }
    unfold assign_if. destruct r1 as [[]|e1].
    + destruct (truthy (prop o k)) eqn:Et.
      * destruct (template numberToString (prop o k)) as [s|e] eqn:Es;
          cbn [fst snd].
        -- apply stored_ret in Es.
           split; [|split; [|split; [|split]]].
           ++ split; [|reflexivity]. intros _ k' K' [H|[= -> ->]]%Hin.
              ** now apply (proj1 IHr eq_refl k' K').
              ** intros _. now exists s.
           ++ intros _ k' K' [H|[= -> ->]]%Hin.
              ** rewrite lookup_insert_ne by now apply (Hother k').
                 now apply IHk.
              ** rewrite Et, Es. apply lookup_insert_eq.
           ++ discriminate.
           ++ intros k' K' [H|[= -> ->]]%Hin.
              ** rewrite lookup_insert_ne by now apply (Hother k').
                 now apply IHf.
              ** right. split; [exact Et|]. exists s.
                 split; [exact Es | apply lookup_insert_eq].
           ++ intros K' [H1 H2]%Hout.
              rewrite lookup_insert_ne by congruence. now apply IHo.
        -- pose proof Es as Es'. apply template_throws in Es' as ->.
           apply stored_none in Es.
           split; [|split; [|split; [|split]]].
           ++ split; [discriminate|]. intros H. exfalso.
              destruct (H k K) as [s Hs]; [apply Hin; now right | exact Et|].
              congruence.
           ++ discriminate.
           ++ now intros e [= <-].
           ++ intros k' K' [H|[= -> ->]]%Hin; [now apply IHf|].
              left. now apply IHo.
           ++ intros K' [H1 H2]%Hout. now apply IHo.
      * cbn [fst snd]. split; [|split; [|split; [|split]]].
        -- split; [|reflexivity]. intros _ k' K' [H|[= -> ->]]%Hin.
           ++ now apply (proj1 IHr eq_refl k' K').
           ++ rewrite Et. discriminate.
        -- intros _ k' K' [H|[= -> ->]]%Hin; [now apply IHk|].
           rewrite Et. now apply IHo.
        -- discriminate.
        -- intros k' K' [H|[= -> ->]]%Hin; [now apply IHf|].
           left. now apply IHo.
        -- intros K' [H1 H2]%Hout. now apply IHo.
    + cbn [fst snd]. split; [|split; [|split; [|split]]].
      * split; [discriminate|]. intros H. apply IHr.
        intros k' K' Hk'. apply (H k' K'). apply Hin. now left.
      * discriminate.
      * exact IHe.
      * intros k' K' [H|[= -> ->]]%Hin; [now apply IHf|].
        left. now apply IHo.
      * intros K' [H1 H2]%Hout. now apply IHo.
Qed.

Lemma config_keys_NoDup : NoDup (map snd config_keys).
Proof. apply (bool_decide_unpack _). vm_compute. exact I. Qed.

Lemma sandbox_not_field : ~ In "PINTEREST_SANDBOX" (map snd config_keys).
Proof.
  intros H. apply list_elem_of_In in H. apply (bool_decide_pack _) in H.
  vm_compute in H. exact H.
Qed.

Lemma Forall_keys (P : string * string -> Prop) :
  (forall k K, In (k, K) config_keys -> P (k, K)) -> Forall P config_keys.
Proof.
  intros H. apply Forall_forall. intros [k K] Hin.
  apply H. now apply list_elem_of_In.
Qed.

Lemma setupEnv_fields_returns (o : gmap string jsval)
  (env : gmap string (list Z)) :
  (setupEnv_fields numberToString o env).2 = Ret tt
  <-> storable numberToString o.
Proof.
  rewrite setupEnv_fields_loop.
  destruct (assign_all_spec o env config_keys config_keys_NoDup)
    as (Hr & _ & _ & _ & _). cbv zeta in Hr. unfold storable.
  destruct (assign_all numberToString o config_keys (env, Ret tt)) as [env1 [[]|e]];
    cbn [finish fst snd] in *.
  - split; [|reflexivity]. intros _. apply Forall_keys.
    intros k K Hin. now apply (proj1 Hr eq_refl k K).
  - split; [discriminate|]. intros H. apply Hr. intros k K Hin.
    rewrite Forall_forall in H. apply (H (k, K)). now apply list_elem_of_In.
Qed.

Lemma setupEnv_fields_key (o : gmap string jsval)
  (env : gmap string (list Z)) :
  (setupEnv_fields numberToString o env).2 = Ret tt ->
  Forall (fun kK =>
    (setupEnv_fields numberToString o env).1 !! kK.2
    = if truthy (prop o kK.1) then stored numberToString (prop o kK.1)
      else env !! kK.2) config_keys.
Proof.
  rewrite setupEnv_fields_loop.
  destruct (assign_all_spec o env config_keys config_keys_NoDup)
    as (_ & Hk & _ & _ & _). cbv zeta in Hk.
  destruct (assign_all numberToString o config_keys (env, Ret tt)) as [env1 [[]|e]];
    cbn [finish fst snd] in *; [|discriminate].
  intros _. apply Forall_keys. intros k K Hin. cbn [fst snd].
  rewrite lookup_insert_ne.
  - now apply Hk.
  - intros <-. apply sandbox_not_field. apply in_map_iff. now exists (k, "PINTEREST_SANDBOX").
Qed.

Lemma setupEnv_fields_sandbox (o : gmap string jsval)
  (env : gmap string (list Z)) :
  (setupEnv_fields numberToString o env).2 = Ret tt ->
  (setupEnv_fields numberToString o env).1 !! "PINTEREST_SANDBOX"
  = Some (if strict_eq (prop o "pinterest_sandbox") (VBool true)
             || strict_eq (prop o "pinterest_sandbox") (VStr (js "true"))
          then js "true" else js "false").
Proof.
  rewrite setupEnv_fields_loop.
  destruct (assign_all numberToString o config_keys (env, Ret tt)) as [env1 [[]|e]];
    cbn [finish fst snd]; [|discriminate].
  intros _. apply lookup_insert_eq.
Qed.

(** A call that stops: the error is a TypeError, the sandbox variable
    is as it was, and each field is as it was or holds its value. *)
Lemma setupEnv_fields_stopped (o : gmap string jsval)
  (env : gmap string (list Z)) (e : error) :
  (setupEnv_fields numberToString o env).2 = Throw e ->
  e = TypeError
  /\ (setupEnv_fields numberToString o env).1 !! "PINTEREST_SANDBOX"
     = env !! "PINTEREST_SANDBOX"
  /\ Forall (fun kK =>
       (setupEnv_fields numberToString o env).1 !! kK.2 = env !! kK.2
       \/ (truthy (prop o kK.1) = true
           /\ (setupEnv_fields numberToString o env).1 !! kK.2
              = stored numberToString (prop o kK.1))) config_keys.
Proof.
  rewrite setupEnv_fields_loop.
  destruct (assign_all_spec o env config_keys config_keys_NoDup)
    as (_ & _ & He & Hf & Ho). cbv zeta in He, Hf, Ho.
  destruct (assign_all numberToString o config_keys (env, Ret tt)) as [env1 [[]|e1]];
    cbn [finish fst snd] in *; [discriminate|].
  intros [= <-]. split; [now apply He|]. split.
  - apply Ho. exact sandbox_not_field.
  - apply Forall_keys. intros k K Hin. cbn [fst snd].
    destruct (Hf k K Hin) as [H|(Ht & s & Hs & H)]; [now left|].
    right. split; [exact Ht|]. now rewrite Hs.
Qed.

Lemma setupEnv_fields_frame (o : gmap string jsval)
  (env : gmap string (list Z)) (K : string) :
  K ∉ written_keys ->
  (setupEnv_fields numberToString o env).1 !! K = env !! K.
Proof.
  intros H. unfold written_keys in H. rewrite not_elem_of_app in H.
  destruct H as [H1 H2]. rewrite setupEnv_fields_loop.
  destruct (assign_all_spec o env config_keys config_keys_NoDup)
    as (_ & _ & _ & _ & Ho). cbv zeta in Ho.
  specialize (Ho K). rewrite <- list_elem_of_In in Ho. specialize (Ho H1).
  destruct (assign_all numberToString o config_keys (env, Ret tt)) as [env1 [[]|e1]];
    cbn [finish fst snd] in *; [|exact Ho].
  rewrite lookup_insert_ne; [exact Ho|]. intros <-. apply H2. now left.
Qed.

(** A call ends in one of the two ways. *)
Lemma setupEnv_ends (data : config_arg) (env : gmap string (list Z)) :
  (setupEnv numberToString data env).2 = Ret tt
  \/ (setupEnv numberToString data env).2 = Throw TypeError.
Proof.
  destruct ((setupEnv numberToString data env).2) as [[]|e] eqn:E;
    [now left|]. right. f_equal.
  destruct data as [|[]|o]; try discriminate E;
    now apply setupEnv_fields_stopped in E.
Qed.

Lemma strict_eq_true (v : jsval) :
  strict_eq v (VBool true) || strict_eq v (VStr (js "true")) = true
  <-> v = VBool true \/ v = VStr (js "true").
Proof.
  destruct v as [[|[]|n m e|s|l|o]|]; simpl;
    try (split; [discriminate|intros [|]; discriminate]).
  - split; auto.
  - rewrite streq_true. split; [intros ->; now right|].
    intros [H|H]; [discriminate | congruence].
Qed.


End Numbers.



(** With a field that cannot be stored the call stops: here the key of
    the model is an object with a [toString] member, and a sandbox
    variable that says [true] stays, although the config turns the
    sandbox off. *)
Lemma setupEnv_stops_at_object :
  forall numberToString,
    setupEnv numberToString
      (CfgObj {[ "openrouter_key" := Some (JObj [(js "toString", JNull)]);
                 "pinterest_board" := VStr (js "b1");
                 "pinterest_sandbox" := VBool false ]})
      {[ "PINTEREST_SANDBOX" := js "true" ]}
    = ({[ "PINTEREST_SANDBOX" := js "true" ]}, Throw TypeError).
Proof. intros numberToString. reflexivity. Qed.

End Merge.

(** ** The guard of the publish attempt *)

Module Publish.

Import Json Render Poster Server Notions JSFacts RenderFacts.




Lemma check_credentials_pass (env1 : gmap string (list Z)) (b : body) :
  token_usable env1 ->
  (exists o, config b = CfgObj o /\ truthy (prop o "pinterest_board") = true) ->
  check_credentials env1 b = Ret tt.
Proof.
  intros (token & Ht & Hn & Hu) (o & Ho & Hb).
  unfold check_credentials, env_set. rewrite Ht, Ho.
  apply nonempty_true in Hn. rewrite Hn.
  rewrite bool_decide_eq_false_2 by congruence.
  cbn [negb orb guard JS.bind config_field]. now rewrite Hb.
Qed.

Section Numbers.

Variable numberToString : bool -> Z -> Z -> list Z.

(** What a request that reaches [createPin] has gone through. *)
Lemma post_pin_publishes (w : world) (env : gmap string (list Z)) (b : body)
  (env1 : gmap string (list Z)) (request : pin_request) :
  post_pin numberToString w env b = Publishes env1 request ->
  setupEnv numberToString (config b) env = (env1, Ret tt)
  /\ check_credentials env1 b = Ret tt
  /\ exists pin, assemble_pin numberToString w b = Ret pin
                 /\ createPin numberToString env1 pin = Ret request.
Proof.
  unfold post_pin, prepare_pin. cbv zeta.
  destruct (setupEnv numberToString (config b) env) as [env' [[]|e]];
    cbn [fst snd JS.bind]; [|discriminate].
  destruct (check_credentials env' b) as [[]|e] eqn:Ek; cbn [JS.bind];
    [|discriminate].
  destruct (assemble_pin numberToString w b) as [pin|e] eqn:Ea; cbn [JS.bind];
    [|discriminate].
  destruct (createPin numberToString env' pin) as [rq|e] eqn:Ec; [|discriminate].
  intros [= <- <-]. split; [reflexivity|]. split; [exact Ek|].
  exists pin. now split.
Qed.

Lemma createPin_fields (env1 : gmap string (list Z)) (pin : pinData)
  (request : pin_request) :
  createPin numberToString env1 pin = Ret request ->
  req_board_id request = env1 !! "PINTEREST_BOARD_ID"
  /\ req_bearer request = env1 !! "PINTEREST_ACCESS_TOKEN"
  /\ req_title request = pin_title pin
  /\ req_alt_text request = pin_altText pin
  /\ req_link request = pin_link pin
  /\ fullDescription numberToString (pin_description pin) (pin_hashtags pin)
     = Ret (req_description request).
Proof.
  unfold createPin.
  destruct (fullDescription numberToString (pin_description pin)
              (pin_hashtags pin)) as [d|e]; cbn [JS.bind]; [|discriminate].
  intros [= <-]. repeat split.
Qed.


End Numbers.

(** A board id that only the process environment holds does not pass
    the board check, which reads the config of the request. *)
Lemma environment_board_refused :
  forall numberToString w,
    post_pin numberToString w
      {[ "PINTEREST_ACCESS_TOKEN" := js "tok";
         "PINTEREST_BOARD_ID" := js "b1" ]}
      (Body (VStr (js "data:image/jpeg;base64,AAAA")) (VStr (js "T"))
         (VStr (js "D")) (Some (JArr [JStr (js "a")])) (VStr (js "alt"))
         (VStr (js "example.com")) (CfgObj ∅))
    = Failed 500 board_missing.
Proof. intros numberToString w. reflexivity. Qed.



End Publish.

(** ** The branches of the callback *)

Module Callback.

Import Json Render Server Notions JSFacts StringFacts RenderFacts.




Lemma hints_for_object (m : list (list Z * qval)) :
  hints_for (QObj m) = Throw TypeError.
Proof. reflexivity. Qed.




Section Buffers.

Variable bufferFromObject : qval -> exc (list Z).



Lemma without_error_code (q : callback_query) (code : qval) :
  q_code q = Some code -> code <> QStr [] ->
  without_error bufferFromObject q
  = match recover_state bufferFromObject (q_state q) with
    | Throw e => SessionErrorPage 400 e
    | Ret c => ExchangesToken code c
    end.
Proof.
  intros Hc Hn. unfold without_error. rewrite Hc.
  assert (present (Some code) = true) as ->; [|reflexivity].
  apply present_given. now exists code.
Qed.

Lemma recover_state_missing (state : option qval) :
  ~ given state ->
  recover_state bufferFromObject state
  = Throw (Error (js "Missing state parameter")).
Proof.
  intros Hn. apply present_not_given in Hn. unfold recover_state.
  destruct state as [v|]; [|reflexivity]. now rewrite Hn.
Qed.

Lemma recover_state_buffer (v : qval) (e : error) :
  (forall s, v <> QStr s) -> bufferFromObject v = Throw e ->
  recover_state bufferFromObject (Some v) = Throw e.
Proof.
  intros Hn He. unfold recover_state, buffer_from.
  destruct v as [s|l|m]; [now destruct (Hn s)|..]; cbn [present negb guard JS.bind];
    now rewrite He.
Qed.

Lemma get_prop_member (j : json) (k : list Z) :
  j <> JNull -> get_prop j k = Ret (member j k).
Proof. destruct j; try reflexivity. congruence. Qed.

(** What the [try] block makes of the text it decodes. *)
Lemma recover_state_text (v : qval) (text : list Z) :
  v <> QStr [] -> decoded bufferFromObject v text ->
  recover_state bufferFromObject (Some v)
  = match JSON_parse text with
    | None => Throw SyntaxError
    | Some JNull => Throw TypeError
    | Some j =>
      if to_boolean (member j (js "client_id"))
         && to_boolean (member j (js "client_secret"))
      then Ret (Credentials (member j (js "client_id"))
                  (member j (js "client_secret")) (member j (js "sandbox")))
      else Throw (Error (js "State missing credentials"))
    end.
Proof.
  intros Hn Hd. unfold recover_state.
  assert (present (Some v) = true) as ->
    by (apply present_given; now exists v).
  cbn [negb guard JS.bind].
  assert (buffer_from bufferFromObject v = Ret
            match v with
            | QStr s => Base64.decode s
            | _ => match bufferFromObject v with Ret b => b | Throw _ => [] end
            end /\ text = Utf8.decode
            match v with
            | QStr s => Base64.decode s
            | _ => match bufferFromObject v with Ret b => b | Throw _ => [] end
            end) as [-> ->].
  { unfold decoded, state_text, buffer_from in *.
    destruct v as [s|l|m]; [now split|..];
      destruct Hd as (bytes & -> & ->); now split. }
  cbn [JS.bind].
  match goal with
  | |- context [JSON_parse ?t] => destruct (JSON_parse t) as [j|]
  end; [|reflexivity].
  destruct j; cbn [JS.bind get_prop member]; try reflexivity;
    match goal with
    | |- context [guard (negb ?a || negb ?b)] => destruct a, b; reflexivity
    end.
Qed.


End Buffers.



End Callback.

(** ** The content generator *)

Module Generator.

Import Json Poster Notions JSFacts.

Lemma from_char_none (c : Z) (s : list Z) :
  from_char c s = [] <-> ~ In c s.
Proof.
  induction s as [|x s IH]; simpl; [tauto|].
  destruct (Z.eqb_spec x c) as [->|H].
  - split; [discriminate | intros Hn; exfalso; apply Hn; now left].
  - rewrite IH. split; [intros Hn [Hx|Hi]; [congruence | tauto] | tauto].
Qed.

Lemma from_char_some (c : Z) (s : list Z) (x : Z) (r : list Z) :
  from_char c s = x :: r ->
  x = c /\ exists pre, s = pre ++ c :: r /\ ~ In c pre.
Proof.
  induction s as [|y s IH]; simpl; [discriminate|].
  destruct (Z.eqb_spec y c) as [->|H].
  - intros [= <- <-]. split; [reflexivity|]. exists []. split; [reflexivity|].
    simpl. tauto.
  - intros Hf. destruct (IH Hf) as (-> & pre & -> & Hp).
    split; [reflexivity|]. exists (y :: pre). split; [reflexivity|].
    simpl. intros [Hy|Hi]; [congruence | tauto].
Qed.

(** The match is the text from the first opening brace to the last
    closing brace. *)
Lemma match_braces_some (content m : list Z) :
  match_braces content = Some m ->
  exists pre mid post,
    content = pre ++ [123%Z] ++ mid ++ [125%Z] ++ post
    /\ ~ In 123%Z pre /\ ~ In 125%Z post
    /\ m = [123%Z] ++ mid ++ [125%Z].
Proof.
  unfold match_braces.
  destruct (from_char 123 content) as [|open rest] eqn:E1; [discriminate|].
  destruct (from_char 125 (rev rest)) as [|close before] eqn:E2; [discriminate|].
  intros [= <-].
  destruct (from_char_some _ _ _ _ E1) as (-> & pre & -> & Hpre).
  destruct (from_char_some _ _ _ _ E2) as (-> & post & Hrev & Hpost).
  exists pre, (rev before), (rev post).
  assert (rest = rev before ++ [125%Z] ++ rev post) as ->.
  { rewrite <- (rev_involutive rest), Hrev, rev_app_distr. simpl.
    now rewrite <- app_assoc. }
  split; [reflexivity|]. split; [exact Hpre|].
  split; [now rewrite <- in_rev | reflexivity].
Qed.

(** Without a match, no opening brace has a closing brace after it. *)
Lemma match_braces_none (content : list Z) :
  match_braces content = None ->
  forall pre post, content = pre ++ 123%Z :: post -> ~ In 125%Z post.
Proof.
  unfold match_braces. intros H pre post ->.
  destruct (from_char 123 (pre ++ 123%Z :: post)) as [|open rest] eqn:E1.
  - apply from_char_none in E1. exfalso. apply E1. apply in_or_app.
    right. now left.
  - destruct (from_char 125 (rev rest)) as [|close before] eqn:E2;
      [|discriminate].
    apply from_char_none in E2. rewrite <- in_rev in E2.
    destruct (from_char_some _ _ _ _ E1) as (-> & pre' & Heq & Hpre').
    intros Hin. apply E2.
    assert (exists t, rest = t ++ post) as [t ->].
    { clear - Heq Hpre'. revert pre' Heq Hpre'.
      induction pre as [|x pre IH]; intros pre' Heq Hpre'.
      - destruct pre' as [|y pre']; simpl in *.
        + injection Heq as <-. now exists [].
        + injection Heq as <- _. exfalso. apply Hpre'. now left.
      - destruct pre' as [|y pre']; simpl in *.
        + injection Heq as -> <-. exists (pre ++ [123%Z]).
          now rewrite <- app_assoc.
        + injection Heq as _ Heq. apply (IH pre' Heq). tauto. }
    apply in_or_app. now right.
Qed.

(** A text that starts with an opening brace parses to an object or not
    at all. *)
Lemma parse_value_brace (fuel : nat) (r : list Z) (v : json) (rest : list Z) :
  parse_value fuel (123%Z :: r) = Some (v, rest) -> exists members, v = JObj members.
Proof.
  destruct fuel as [|f]; [discriminate|]. simpl.
  destruct (skip_ws r) as [|c' r']; [discriminate|].
  destruct (c' =? 125)%Z.
  - intros [= <- _]. now exists [].
  - destruct (parse_members f (c' :: r')) as [[ms rest']|]; [|discriminate].
    intros [= <- _]. now exists ms.
Qed.

Lemma JSON_parse_brace (r : list Z) (v : json) :
  JSON_parse (123%Z :: r) = Some v -> exists members, v = JObj members.
Proof.
  unfold JSON_parse.
  destruct (parse_value _ (123%Z :: r)) as [[v' rest]|] eqn:E; [|discriminate].
  destruct (skip_ws rest); [|discriminate]. intros [= <-].
  exact (parse_value_brace _ _ _ _ E).
Qed.

(** C8, as the code has it. [generatePinContent] takes the text from
    the first opening brace of the reply to the last closing brace. With
    no such text it fails with the message Invalid JSON response from
    OpenRouter; when JSON.parse rejects that text it fails with the
    parser's own message; otherwise it returns the object JSON.parse
    gives, as it is: nothing checks the length of the title or of the alt
    text, nor the shape of the hashtags. *)
Theorem generatePinContent_result (content : list Z) :
  (match_braces content = None ->
   generatePinContent content
   = Throw (Error (js "Invalid JSON response from OpenRouter"))
   /\ forall pre post, content = pre ++ 123%Z :: post -> ~ In 125%Z post)
  /\ (forall m, match_braces content = Some m ->
      (exists pre mid post,
          content = pre ++ [123%Z] ++ mid ++ [125%Z] ++ post
          /\ ~ In 123%Z pre /\ ~ In 125%Z post
          /\ m = [123%Z] ++ mid ++ [125%Z])
      /\ (JSON_parse m = None -> generatePinContent content = Throw SyntaxError)
      /\ (forall v, JSON_parse m = Some v ->
            generatePinContent content = Ret v
            /\ exists members, v = JObj members)).
Proof.
  split.
  - intros H. split; [|now apply match_braces_none].
    unfold generatePinContent. now rewrite H.
  - intros m H. split; [now apply match_braces_some|].
    unfold generatePinContent. rewrite H. split.
    + now intros ->.
    + intros v Hv. rewrite Hv. split; [reflexivity|].
      destruct (match_braces_some _ _ H) as (_ & mid & _ & _ & _ & _ & ->).
      exact (JSON_parse_brace _ _ Hv).
Qed.

(** The theorem at a reply without braces, at a reply whose braces hold
    no JSON, and at a reply that wraps an object in prose. *)
Lemma generatePinContent_result_witness :
  generatePinContent (js "no json here")
  = Throw (Error (js "Invalid JSON response from OpenRouter"))
  /\ generatePinContent (js "so {this} is it") = Throw SyntaxError
  /\ generatePinContent (js "so {} is it") = Ret (JObj []).
Proof.
  split; [|split].
  - apply (proj1 (generatePinContent_result (js "no json here"))).
    reflexivity.
  - apply (proj2 (generatePinContent_result (js "so {this} is it"))
             (js "{this}")); reflexivity.
  - apply (proj2 (generatePinContent_result (js "so {} is it")) (js "{}"));
      reflexivity.
Defined.

(** C8 as worded fails: a reply with a title of 101 characters and a tag
    that starts with a hash sign is returned as it is, and a reply whose
    braces do not hold valid JSON fails with the parser's error, not with
    Invalid JSON response. *)
Lemma overlong_title_returned :
  (exists members t,
      generatePinContent long_title_reply = Ret (JObj members)
      /\ lookup_member (js "title") members = Some (JStr t)
      /\ length t = 101
      /\ lookup_member (js "hashtags") members = Some (JArr [JStr (js "#a")]))
  /\ generatePinContent two_objects_reply = Throw SyntaxError
  /\ generatePinContent two_objects_reply
     <> Throw (Error (js "Invalid JSON response from OpenRouter")).
Proof.
  split; [|split; [vm_compute; reflexivity | vm_compute; discriminate]].
  eexists _, _. split; [vm_compute; reflexivity|].
  split; [vm_compute; reflexivity|]. split; reflexivity.
Qed.

End Generator.

(** ** Base64 *)

Module Base64Facts.

Import Base64 Notions.

Local Open Scope Z_scope.

(** Induction three elements at a time. *)
Lemma list_ind3 (A : Type) (P : list A -> Prop) :
  P [] -> (forall a, P [a]) -> (forall a b, P [a; b]) ->
  (forall a b c r, P r -> P (a :: b :: c :: r)) ->
  forall l, P l.
Proof.
  intros H0 H1 H2 H3.
  assert (forall l, P l /\ (forall a, P (a :: l)) /\ (forall a b, P (a :: b :: l)))
    as H.
  { induction l as [|x l (IH0 & IH1 & IH2)]; [now auto|].
    split; [exact (IH1 x)|]. split; [exact (fun a => IH2 a x)|].
    intros a b. now apply H3. }
  intros l. apply H.
Qed.

Lemma low_byte_small (c : Z) : 0 <= c < 256 -> low_byte c = c.
Proof. intros H. unfold low_byte. now apply Z.mod_small. Qed.

Lemma b64char_byte (n : Z) : 0 <= n < 64 -> 0 <= b64char n < 256.
Proof.
  intros Hn. unfold b64char.
  repeat match goal with
         | |- context [?a <? ?b] => destruct (Z.ltb_spec a b)
         | |- context [?a =? ?b] => destruct (Z.eqb_spec a b)
         end; lia.
Qed.

Lemma unbase64_b64char (n : Z) :
  0 <= n < 64 -> unbase64 (b64char n) = Some n /\ b64char n <> 61.
Proof.
  intros Hn. unfold unbase64.
  rewrite (low_byte_small _ (b64char_byte n Hn)). cbv zeta. unfold b64char.
  repeat match goal with
         | |- context [?a <? ?b] => destruct (Z.ltb_spec a b)
         | |- context [?a =? ?b] => destruct (Z.eqb_spec a b)
         | |- context [?a <=? ?b] => destruct (Z.leb_spec a b)
         end; simpl; try lia; split; (lia || (f_equal; lia)).
Qed.

Lemma sextets_b64char (n : Z) (r : list Z) :
  0 <= n < 64 -> sextets (b64char n :: r) = n :: sextets r.
Proof.
  intros Hn. destruct (unbase64_b64char n Hn) as [Hu Hp].
  cbn [sextets]. rewrite (low_byte_small _ (b64char_byte n Hn)).
  apply Z.eqb_neq in Hp. now rewrite Hp, Hu.
Qed.

Ltac sextet_range := Z.div_mod_to_equations; lia.

Lemma base64_decode_encode (bs : list Z) :
  is_bytes bs -> decode (encode bs) = bs.
Proof.
  unfold decode, is_bytes.
  induction bs as [|a|a b|a b c r IH] using list_ind3; intros Hb.
  - reflexivity.
  - inversion Hb as [|? ? Ha _]; subst.
    cbn [encode]. rewrite !sextets_b64char by sextet_range.
    change (sextets (61 :: 61 :: [])) with (@nil Z).
    cbn [bytes_of_sextets]. f_equal. sextet_range.
  - inversion Hb as [|? ? Ha Hb']; subst.
    inversion Hb' as [|? ? Hb2 _]; subst.
    cbn [encode]. rewrite !sextets_b64char by sextet_range.
    change (sextets (61 :: [])) with (@nil Z).
    cbn [bytes_of_sextets]. f_equal; [|f_equal]; sextet_range.
  - inversion Hb as [|? ? Ha Hb']; subst.
    inversion Hb' as [|? ? Hb2 Hb'']; subst.
    inversion Hb'' as [|? ? Hc Hr]; subst.
    cbn [encode]. rewrite !sextets_b64char by sextet_range.
    cbn [bytes_of_sextets]. rewrite (IH Hr).
    f_equal; [|f_equal; [|f_equal]]; sextet_range.
Qed.

Lemma encode_nonempty (b : Z) (bs : list Z) : encode (b :: bs) <> [].
Proof. destruct bs as [|c [|d r]]; discriminate. Qed.

End Base64Facts.

(** ** UTF-8 *)

Module Utf8Facts.

Import Utf8 Notions.

Local Open Scope Z_scope.

(** Induction that keeps the hypothesis for the tail and for the tail
    of the tail. *)
Lemma list_ind2 (A : Type) (P : list A -> Prop) :
  P [] -> (forall a, P [a]) ->
  (forall a b r, P r -> P (b :: r) -> P (a :: b :: r)) ->
  forall l, P l.
Proof.
  intros H0 H1 H2.
  assert (forall l, P l /\ (forall a, P (a :: l))) as H.
  { induction l as [|x l (IH0 & IH1)]; [now auto|].
    split; [exact (IH1 x)|]. intros a. apply H2; [exact IH0 | exact (IH1 x)]. }
  intros l. apply H.
Qed.

Ltac arith := Z.div_mod_to_equations; lia.

(** The value of a test of the decoder, from the bounds at hand. *)
Ltac test_is v := match goal with
  | |- context [if ?c then _ else _] =>
    replace c with v by (unfold in_range; lia)
  end.

Lemma decode_1 (b0 : Z) (r : list Z) :
  b0 < 128 -> decode (b0 :: r) = b0 :: decode r.
Proof. intros H. cbn [decode]. now test_is true. Qed.

Lemma decode_2 (b0 b1 : Z) (r : list Z) :
  194 <= b0 <= 223 -> 128 <= b1 <= 191 ->
  decode (b0 :: b1 :: r) = (b0 - 192) * 64 + (b1 - 128) :: decode r.
Proof.
  intros H0 H1. set (t := b1 :: r). cbn [decode].
  test_is false. test_is true. subst t. cbv beta iota. now test_is true.
Qed.

Lemma decode_3 (b0 b1 b2 : Z) (r : list Z) :
  224 <= b0 <= 239 -> 128 <= b1 <= 191 -> 128 <= b2 <= 191 ->
  (b0 = 224 -> 160 <= b1) -> (b0 = 237 -> b1 <= 159) ->
  decode (b0 :: b1 :: b2 :: r)
  = (b0 - 224) * 4096 + (b1 - 128) * 64 + (b2 - 128) :: decode r.
Proof.
  intros H0 H1 H2 Hlo Hhi. set (t := b1 :: b2 :: r). cbn [decode].
  test_is false. test_is false. test_is true. subst t. cbv beta iota.
  destruct (Z.eqb_spec b0 224), (Z.eqb_spec b0 237); try lia;
    test_is true; now test_is true.
Qed.

Lemma decode_4 (b0 b1 b2 b3 : Z) (r : list Z) :
  240 <= b0 <= 244 -> 128 <= b1 <= 191 -> 128 <= b2 <= 191 ->
  128 <= b3 <= 191 ->
  (b0 = 240 -> 144 <= b1) -> (b0 = 244 -> b1 <= 143) ->
  decode (b0 :: b1 :: b2 :: b3 :: r)
  = units_of_cp ((b0 - 240) * 262144 + (b1 - 128) * 4096
                 + (b2 - 128) * 64 + (b3 - 128)) ++ decode r.
Proof.
  intros H0 H1 H2 H3 Hlo Hhi. set (t := b1 :: b2 :: b3 :: r). cbn [decode].
  test_is false. test_is false. test_is false. test_is true.
  subst t. cbv beta iota.
  destruct (Z.eqb_spec b0 240), (Z.eqb_spec b0 244); try lia;
    test_is true; test_is true; now test_is true.
Qed.

(** One code point that is not a surrogate is read back as written. *)
Lemma decode_encode_cp (cp : Z) (rest : list Z) :
  0 <= cp < 1114112 -> ~ (55296 <= cp <= 57343) ->
  decode (encode_cp cp ++ rest) = units_of_cp cp ++ decode rest.
Proof.
  intros Hr Hs. unfold encode_cp.
  destruct (Z.ltb_spec cp 128).
  { cbn [app]. rewrite decode_1 by lia. unfold units_of_cp.
    now replace (cp <? 65536) with true by lia. }
  destruct (Z.ltb_spec cp 2048).
  { cbn [app]. rewrite decode_2 by arith. unfold units_of_cp.
    replace (cp <? 65536) with true by lia. cbn [app]. f_equal. arith. }
  destruct (Z.ltb_spec cp 65536).
  { cbn [app]. rewrite decode_3 by arith. unfold units_of_cp.
    replace (cp <? 65536) with true by lia. cbn [app]. f_equal. arith. }
  cbn [app]. rewrite decode_4 by arith. f_equal. f_equal. arith.
Qed.

Lemma units_of_pair (c d : Z) :
  is_hi c = true -> is_lo d = true ->
  units_of_cp (65536 + (c - 55296) * 1024 + (d - 56320)) = [c; d].
Proof.
  unfold is_hi, is_lo, units_of_cp. intros Hc Hd.
  replace (65536 + (c - 55296) * 1024 + (d - 56320) <? 65536) with false
    by lia.
  f_equal; [|f_equal]; arith.
Qed.

Lemma encode_plain (c : Z) (r : list Z) :
  is_hi c = false -> is_lo c = false ->
  encode (c :: r) = encode_cp c ++ encode r.
Proof. intros H1 H2. cbn [encode]. now rewrite H1, H2. Qed.

Lemma encode_pair (c d : Z) (r : list Z) :
  is_hi c = true -> is_lo d = true ->
  encode (c :: d :: r)
  = encode_cp (65536 + (c - 55296) * 1024 + (d - 56320)) ++ encode r.
Proof. intros H1 H2. cbn [encode]. now rewrite H1, H2. Qed.

Lemma paired_plain (c : Z) (r : list Z) :
  is_hi c = false ->
  paired (c :: r) = negb (is_lo c) && (0 <=? c) && (c <? 65536) && paired r.
Proof. intros H. cbn [paired]. now rewrite H. Qed.

Lemma paired_pair (c d : Z) (r : list Z) :
  is_hi c = true -> paired (c :: d :: r) = is_lo d && paired r.
Proof. intros H. cbn [paired]. now rewrite H. Qed.

(** A string without lone surrogates is read back as written. *)
Lemma utf8_decode_encode (s : list Z) :
  paired s = true -> decode (encode s) = s.
Proof.
  induction s as [|a|a b r IH1 IH2] using list_ind2; intros Hp.
  - reflexivity.
  - destruct (is_hi a) eqn:Ea; [cbn [paired] in Hp; now rewrite Ea in Hp|].
    rewrite paired_plain in Hp by exact Ea.
    rewrite encode_plain by (unfold is_lo in *; lia).
    rewrite decode_encode_cp by (unfold is_hi, is_lo in *; lia).
    unfold units_of_cp. now replace (a <? 65536) with true by lia.
  - destruct (is_hi a) eqn:Ea.
    + rewrite paired_pair in Hp by exact Ea.
      apply andb_true_iff in Hp as [Hb Hr].
      rewrite encode_pair by assumption.
      rewrite decode_encode_cp by (unfold is_hi, is_lo in *; lia).
      rewrite units_of_pair by assumption. cbn [app]. now rewrite IH1.
    + rewrite paired_plain in Hp by exact Ea.
      rewrite encode_plain by (unfold is_lo in *; lia).
      rewrite decode_encode_cp by (unfold is_hi, is_lo in *; lia).
      unfold units_of_cp. replace (a <? 65536) with true by lia.
      cbn [app]. rewrite IH2; [reflexivity | lia].
Qed.

Lemma encode_cp_bytes (cp : Z) :
  0 <= cp < 1114112 -> is_bytes (encode_cp cp).
Proof.
  intros H. unfold is_bytes, encode_cp.
  destruct (Z.ltb_spec cp 128); [|destruct (Z.ltb_spec cp 2048);
    [|destruct (Z.ltb_spec cp 65536)]]; repeat constructor; arith.
Qed.

Lemma encode_bytes (s : list Z) : paired s = true -> is_bytes (encode s).
Proof.
  unfold is_bytes.
  induction s as [|a|a b r IH1 IH2] using list_ind2; intros Hp.
  - constructor.
  - destruct (is_hi a) eqn:Ea; [cbn [paired] in Hp; now rewrite Ea in Hp|].
    rewrite paired_plain in Hp by exact Ea.
    rewrite encode_plain by (unfold is_lo in *; lia).
    apply Forall_app. split; [apply encode_cp_bytes; lia | constructor].
  - destruct (is_hi a) eqn:Ea.
    + rewrite paired_pair in Hp by exact Ea.
      apply andb_true_iff in Hp as [Hb Hr].
      rewrite encode_pair by assumption.
      apply Forall_app. split; [|now apply IH1].
      apply encode_cp_bytes. unfold is_hi, is_lo in *. lia.
    + rewrite paired_plain in Hp by exact Ea.
      rewrite encode_plain by (unfold is_lo in *; lia).
      apply Forall_app. split; [apply encode_cp_bytes; lia|].
      apply IH2. lia.
Qed.

Lemma paired_app (a b : list Z) :
  paired a = true -> paired b = true -> paired (a ++ b) = true.
Proof.
  intros Ha Hb. induction a as [|x|x y r IH1 IH2] using list_ind2.
  - exact Hb.
  - destruct (is_hi x) eqn:Ex; [cbn [paired] in Ha; now rewrite Ex in Ha|].
    cbn [app]. rewrite paired_plain in * by exact Ex.
    cbn [paired] in Ha. lia.
  - destruct (is_hi x) eqn:Ex.
    + cbn [app]. rewrite paired_pair in * by exact Ex.
      apply andb_true_iff in Ha as [Hy Hr]. rewrite Hy. now apply IH1.
    + change ((x :: y :: r) ++ b) with (x :: (y :: r) ++ b).
      rewrite paired_plain in * by exact Ex.
      rewrite IH2 by lia. lia.
Qed.

End Utf8Facts.

(** ** JSON *)

Module JsonFacts.

Import Utf8 Json Notions Utf8Facts.

Local Open Scope Z_scope.

Lemma hexval_hexdigit (n : Z) : 0 <= n < 16 -> hexval (hexdigit n) = Some n.
Proof.
  intros H. unfold hexval, hexdigit. destruct (Z.ltb_spec n 10).
  - replace ((48 <=? 48 + n) && (48 + n <=? 57)) with true by lia.
    f_equal. lia.
  - replace ((48 <=? 87 + n) && (87 + n <=? 57)) with false by lia.
    replace ((65 <=? 87 + n) && (87 + n <=? 70)) with false by lia.
    replace ((97 <=? 87 + n) && (87 + n <=? 102)) with true by lia.
    f_equal. lia.
Qed.

Lemma hexdigit_ascii (n : Z) : 0 <= n < 16 -> 48 <= hexdigit n <= 102.
Proof. intros H. unfold hexdigit. destruct (Z.ltb_spec n 10); lia. Qed.

Lemma parse_plain (c : Z) (r : list Z) :
  32 <= c -> c <> 34 -> c <> 92 ->
  parse_chars (c :: r) = cons_fst c (parse_chars r).
Proof.
  intros H1 H2 H3. cbn [parse_chars].
  replace (c =? 34) with false by lia. replace (c =? 92) with false by lia.
  now replace (c <? 32) with false by lia.
Qed.

Lemma parse_uescape (c : Z) (r : list Z) :
  0 <= c < 65536 -> parse_chars (uescape c ++ r) = cons_fst c (parse_chars r).
Proof.
  intros H. unfold uescape. cbn [app parse_chars Z.eqb Pos.eqb]. unfold hex4.
  rewrite !hexval_hexdigit by arith.
  replace (c / 4096 * 4096 + (c / 256) mod 16 * 256 + (c / 16) mod 16 * 16
           + c mod 16) with c by arith.
  reflexivity.
Qed.

Lemma parse_quote_char (c : Z) (r : list Z) :
  0 <= c < 65536 ->
  parse_chars (quote_char c ++ r) = cons_fst c (parse_chars r).
Proof.
  intros H. unfold quote_char.
  repeat match goal with
         | |- context [c =? ?k] => destruct (Z.eqb_spec c k) as [->|?];
                                    [reflexivity|]
         end.
  destruct (Z.ltb_spec c 32); [now apply parse_uescape|].
  now apply parse_plain.
Qed.

Lemma quote_body_plain (c : Z) (r : list Z) :
  is_hi c = false -> is_lo c = false ->
  quote_body (c :: r) = quote_char c ++ quote_body r.
Proof. intros H1 H2. cbn [quote_body]. now rewrite H1, H2. Qed.

Lemma quote_body_low (c : Z) (r : list Z) :
  is_hi c = false -> is_lo c = true ->
  quote_body (c :: r) = uescape c ++ quote_body r.
Proof. intros H1 H2. cbn [quote_body]. now rewrite H1, H2. Qed.

Lemma quote_body_pair (c d : Z) (r : list Z) :
  is_hi c = true -> is_lo d = true ->
  quote_body (c :: d :: r) = c :: d :: quote_body r.
Proof. intros H1 H2. cbn [quote_body]. now rewrite H1, H2. Qed.

Lemma quote_body_high (c d : Z) (r : list Z) :
  is_hi c = true -> is_lo d = false ->
  quote_body (c :: d :: r) = uescape c ++ quote_body (d :: r).
Proof.
  intros H1 H2. set (t := d :: r). cbn [quote_body]. rewrite H1. subst t.
  cbv beta iota. now rewrite H2.
Qed.

Lemma quote_body_high_end (c : Z) :
  is_hi c = true -> quote_body [c] = uescape c.
Proof. intros H1. cbn [quote_body]. now rewrite H1. Qed.

(** How [quote_body] starts on a string that is not empty: with an
    escape of the first unit, with the first unit as it is, or with a
    surrogate pair as it is. *)
Lemma quote_body_cases (c : Z) (r : list Z) :
  0 <= c < 65536 ->
  (exists q, quote_body (c :: r) = q ++ quote_body r
     /\ (forall t, parse_chars (q ++ t) = cons_fst c (parse_chars t))
     /\ paired q = true)
  \/ (exists d r', r = d :: r' /\ is_hi c = true /\ is_lo d = true
        /\ quote_body (c :: r) = c :: d :: quote_body r').
Proof.
  intros H.
  assert (forall k, 0 <= k < 16 -> paired [hexdigit k] = true) as Hhex.
  { intros k Hk. pose proof (hexdigit_ascii k Hk).
    rewrite paired_plain by (unfold is_hi; lia).
    cbn [paired]. unfold is_lo. lia. }
  assert (paired (uescape c) = true) as Hup.
  { unfold uescape.
    change (paired ([92; 117] ++ [hexdigit (c / 4096)]
                    ++ [hexdigit ((c / 256) mod 16)]
                    ++ [hexdigit ((c / 16) mod 16)]
                    ++ [hexdigit (c mod 16)]) = true).
    repeat apply paired_app; try reflexivity; apply Hhex; arith. }
  destruct (is_hi c) eqn:Eh.
  - destruct r as [|d r'].
    + left. exists (uescape c). rewrite quote_body_high_end by exact Eh.
      split; [now rewrite app_nil_r|].
      split; [intros t; now apply parse_uescape | exact Hup].
    + destruct (is_lo d) eqn:Ed.
      * right. exists d, r'. rewrite quote_body_pair by assumption. auto.
      * left. exists (uescape c). rewrite quote_body_high by assumption.
        split; [reflexivity|].
        split; [intros t; now apply parse_uescape | exact Hup].
  - destruct (is_lo c) eqn:El.
    + left. exists (uescape c). rewrite quote_body_low by assumption.
      split; [reflexivity|].
      split; [intros t; now apply parse_uescape | exact Hup].
    + left. exists (quote_char c). rewrite quote_body_plain by assumption.
      split; [reflexivity|].
      split; [intros t; now apply parse_quote_char|].
      unfold quote_char.
      repeat match goal with
             | |- context [c =? ?k] => destruct (Z.eqb_spec c k) as [->|?];
                                        [reflexivity|]
             end.
      destruct (Z.ltb_spec c 32); [exact Hup|].
      rewrite paired_plain by exact Eh. cbn [paired]. rewrite El. lia.
Qed.

Lemma wf_string_cons (c : Z) (s : list Z) :
  wf_string (c :: s) = true <-> 0 <= c < 65536 /\ wf_string s = true.
Proof. unfold wf_string. cbn [forallb]. lia. Qed.

(** The parser reads back the string that was quoted. *)
Lemma parse_chars_quote_body (s rest : list Z) :
  wf_string s = true ->
  parse_chars (quote_body s ++ 34 :: rest) = Some (s, rest).
Proof.
  induction s as [|a|a b r IH1 IH2] using list_ind2; intros Hw.
  - reflexivity.
  - apply wf_string_cons in Hw as [Ha _].
    destruct (quote_body_cases a [] Ha) as [(q & -> & Hq & _)|(d & r' & H & _)];
      [|discriminate].
    rewrite <- app_assoc, Hq. reflexivity.
  - apply wf_string_cons in Hw as [Ha Hw].
    destruct (quote_body_cases a (b :: r) Ha)
      as [(q & -> & Hq & _)|(d & r' & [= <- <-] & Hh & Hl & ->)].
    + rewrite <- app_assoc, Hq, IH2 by exact Hw. reflexivity.
    + apply wf_string_cons in Hw as [Hb Hw].
      cbn [app]. unfold is_hi, is_lo in *.
      rewrite !parse_plain by lia. rewrite IH1 by exact Hw. reflexivity.
Qed.

(** A quoted string holds no lone surrogate. *)
Lemma paired_quote_body (s : list Z) :
  wf_string s = true -> paired (quote_body s) = true.
Proof.
  induction s as [|a|a b r IH1 IH2] using list_ind2; intros Hw.
  - reflexivity.
  - apply wf_string_cons in Hw as [Ha _].
    destruct (quote_body_cases a [] Ha) as [(q & -> & _ & Hq)|(d & r' & H & _)];
      [|discriminate].
    now apply paired_app.
  - apply wf_string_cons in Hw as [Ha Hw].
    destruct (quote_body_cases a (b :: r) Ha)
      as [(q & -> & _ & Hq)|(d & r' & [= <- <-] & Hh & Hl & ->)].
    + apply paired_app; [exact Hq | now apply IH2].
    + apply wf_string_cons in Hw as [Hb Hw].
      rewrite paired_pair by exact Hh. rewrite Hl. now apply IH1.
Qed.

Lemma paired_quote (s : list Z) :
  wf_string s = true -> paired (quote s) = true.
Proof.
  intros H. unfold quote. change (paired ([34] ++ quote_body s ++ [34]) = true).
  repeat apply paired_app; try reflexivity. now apply paired_quote_body.
Qed.

Lemma parse_value_string (f : nat) (s rest : list Z) :
  wf_string s = true ->
  parse_value (S f) (quote s ++ rest) = Some (JStr s, rest).
Proof.
  intros H. unfold quote. cbn [app]. rewrite <- app_assoc. cbn [app].
  cbn [parse_value skip_ws is_json_ws Z.eqb Pos.eqb orb].
  now rewrite parse_chars_quote_body.
Qed.

Lemma parse_value_bool (f : nat) (b : bool) (rest : list Z) :
  parse_value (S f) ((if b then js "true" else js "false") ++ rest)
  = Some (JBool b, rest).
Proof. destruct b; reflexivity. Qed.

Lemma parse_members_more (f : nat) (k : list Z) (v : json)
  (vtext more : list Z) :
  wf_string k = true ->
  parse_value f (vtext ++ 44 :: more) = Some (v, 44 :: more) ->
  parse_members (S f) (quote k ++ 58 :: vtext ++ 44 :: more)
  = with_fst (cons (k, v)) (parse_members f more).
Proof.
  intros Hk Hv. unfold quote. cbn [app]. rewrite <- app_assoc. cbn [app].
  cbn [parse_members skip_ws is_json_ws Z.eqb Pos.eqb orb].
  rewrite parse_chars_quote_body by exact Hk.
  cbn [skip_ws is_json_ws Z.eqb Pos.eqb orb]. rewrite Hv. reflexivity.
Qed.

Lemma parse_members_last (f : nat) (k : list Z) (v : json)
  (vtext rest : list Z) :
  wf_string k = true ->
  parse_value f (vtext ++ 125 :: rest) = Some (v, 125 :: rest) ->
  parse_members (S f) (quote k ++ 58 :: vtext ++ 125 :: rest)
  = Some ([(k, v)], rest).
Proof.
  intros Hk Hv. unfold quote. cbn [app]. rewrite <- app_assoc. cbn [app].
  cbn [parse_members skip_ws is_json_ws Z.eqb Pos.eqb orb].
  rewrite parse_chars_quote_body by exact Hk.
  cbn [skip_ws is_json_ws Z.eqb Pos.eqb orb]. rewrite Hv. reflexivity.
Qed.

End JsonFacts.

(** ** The fuel of the parser *)

Module JsonFuel.

Import Json Notions.

Lemma parse_value_S (f : nat) (s : list Z) :
  parse_value (S f) s = value_body (parse_members f) (parse_elements f) s.
Proof. reflexivity. Qed.

Lemma parse_elements_S (f : nat) (s : list Z) :
  parse_elements (S f) s = elements_body (parse_value f) (parse_elements f) s.
Proof. reflexivity. Qed.

Lemma parse_members_S (f : nat) (s : list Z) :
  parse_members (S f) s = members_body (parse_value f) (parse_members f) s.
Proof. reflexivity. Qed.

(** *** What the parts without fuel consume *)

Lemma skip_ws_length (s : list Z) : length (skip_ws s) <= length s.
Proof.
  induction s as [|c s IH]; [reflexivity|]. cbn [skip_ws].
  destruct (is_json_ws c); cbn [length]; lia.
Qed.

Lemma parse_chars_length (s str rest : list Z) :
  parse_chars s = Some (str, rest) -> length rest < length s.
Proof.
  remember (length s) as n eqn:Hn. revert s str rest Hn.
  induction n as [n IH] using lt_wf_ind. intros s str rest Hn.
  destruct s as [|c r]; [discriminate|]. cbn [parse_chars].
  assert (Hrec : forall t u str' , length t < n ->
            cons_fst u (parse_chars t) = Some (str', rest) ->
            length rest < length t).
  { intros t u str' Ht. destruct (parse_chars t) as [[x y]|] eqn:E;
      [|discriminate].
    intros [= _ <-]. exact (IH _ Ht t x y eq_refl E). }
  subst n. cbn [length] in *.
  destruct (c =? 34)%Z; [intros [= _ <-]; lia|].
  destruct (c =? 92)%Z.
  - destruct r as [|e r1]; [discriminate|]. cbn [length] in *.
    destruct (e =? 117)%Z.
    + destruct r1 as [|h1 [|h2 [|h3 [|h4 r2]]]]; try discriminate.
      cbn [length] in *. destruct (hex4 h1 h2 h3 h4); [|discriminate].
      intros H. apply Hrec in H; lia.
    + destruct (unescape e); [|discriminate].
      intros H. apply Hrec in H; lia.
  - destruct (c <? 32)%Z; [discriminate|].
    intros H. apply Hrec in H; lia.
Qed.

Lemma digits_length (s ds rest : list Z) :
  digits s = (ds, rest) -> length s = length ds + length rest.
Proof.
  revert ds rest. induction s as [|c s IH]; intros ds rest.
  - intros [= <- <-]. reflexivity.
  - cbn [digits]. destruct (is_digit c).
    + destruct (digits s) as [ds' rest'] eqn:E. intros [= <- <-].
      cbn [length]. now rewrite (IH _ _ eq_refl).
    + intros [= <- <-]. reflexivity.
Qed.

Lemma parse_number_length (s : list Z) (v : json) (rest : list Z) :
  parse_number s = Some (v, rest) -> length rest < length s.
Proof.
  unfold parse_number.
  assert (exists neg s1, (match s with
                          | c :: r => if (c =? 45)%Z then (true, r) else (false, s)
                          | [] => (false, s)
                          end) = (neg, s1) /\ length s1 <= length s)
    as (neg & s1 & -> & Hs1).
  { destruct s as [|c r]; [now exists false, []|].
    destruct (c =? 45)%Z; eexists _, _; split; try reflexivity;
      cbn [length]; lia. }
  destruct (digits s1) as [ip s2] eqn:E1. apply digits_length in E1.
  destruct ip as [|d ds]; [discriminate|]. cbn [length] in E1.
  destruct ((d =? 0)%Z && nonempty ds); [discriminate|].
  assert (forall fp s3,
    (match s2 with
     | c :: r =>
       if (c =? 46)%Z then
         let '(fp, s3) := digits r in
         if nonempty fp then Some (fp, s3) else None
       else Some ([], s2)
     | [] => Some ([], s2)
     end) = Some (fp, s3) -> length s3 <= length s2) as Hfrac.
  { intros fp s3. destruct s2 as [|c r]; [intros [= _ <-]; lia|].
    destruct (c =? 46)%Z; [|intros [= _ <-]; lia].
    destruct (digits r) as [fp' s3'] eqn:E2. apply digits_length in E2.
    destruct (nonempty fp'); [|discriminate]. intros [= _ <-].
    cbn [length]. lia. }
  destruct (match s2 with
            | c :: r =>
              if (c =? 46)%Z then
                let '(fp, s3) := digits r in
                if nonempty fp then Some (fp, s3) else None
              else Some ([], s2)
            | [] => Some ([], s2)
            end) as [[fp s3]|]; [|discriminate].
  specialize (Hfrac _ _ eq_refl).
  destruct s3 as [|c r]; [intros [= _ <-]; cbn [length] in *; lia|].
  cbn [length] in Hfrac.
  destruct ((c =? 101)%Z || (c =? 69)%Z); [|intros [= _ <-]; cbn [length]; lia].
  assert (exists eneg r1, (match r with
                           | g :: r' =>
                             if (g =? 45)%Z then (true, r')
                             else if (g =? 43)%Z then (false, r')
                             else (false, r)
                           | [] => (false, r)
                           end) = (eneg, r1) /\ length r1 <= length r)
    as (eneg & r1 & -> & Hr1).
  { destruct r as [|g r']; [now exists false, []|].
    destruct (g =? 45)%Z; [|destruct (g =? 43)%Z];
      eexists _, _; split; try reflexivity; cbn [length]; lia. }
  destruct (digits r1) as [ep s4] eqn:E4. apply digits_length in E4.
  destruct (nonempty ep); [|discriminate]. intros [= _ <-]. lia.
Qed.

Lemma with_fst_some {A B : Type} (g : A -> B) (p : option (A * list Z))
  (b : B) (rest : list Z) :
  with_fst g p = Some (b, rest) -> exists a, p = Some (a, rest) /\ b = g a.
Proof.
  destruct p as [[a r]|]; [|discriminate]. intros [= <- <-]. now exists a.
Qed.

(** *** Where the answer of a body comes from *)

Lemma value_body_inv pm pe (s : list Z) (v : json) (rest : list Z) :
  value_body pm pe s = Some (v, rest) ->
  (length rest < length s
   /\ forall pm' pe', value_body pm' pe' s = Some (v, rest))
  \/ (exists t ms, length t < length s /\ pm t = Some (ms, rest)
        /\ forall pm' pe', pm' t = Some (ms, rest) ->
                           value_body pm' pe' s = Some (v, rest))
  \/ (exists t l, length t < length s /\ pe t = Some (l, rest)
        /\ forall pm' pe', pe' t = Some (l, rest) ->
                           value_body pm' pe' s = Some (v, rest)).
Proof.
  unfold value_body. pose proof (skip_ws_length s) as Hs.
  destruct (skip_ws s) as [|c r]; [discriminate|]. cbn [length] in Hs.
  pose proof (skip_ws_length r) as Hr.
  destruct (c =? 123)%Z.
  { destruct (skip_ws r) as [|c' r']; [discriminate|]. cbn [length] in Hr.
    destruct (c' =? 125)%Z.
    - intros [= <- <-]. left. split; [lia | reflexivity].
    - intros H. apply with_fst_some in H as (ms & H & ->).
      right. left. exists (c' :: r'), ms.
      split; [cbn [length]; lia|]. split; [exact H|].
      intros pm' pe' H'. now rewrite H'. }
  destruct (c =? 91)%Z.
  { destruct (skip_ws r) as [|c' r']; [discriminate|]. cbn [length] in Hr.
    destruct (c' =? 93)%Z.
    - intros [= <- <-]. left. split; [lia | reflexivity].
    - intros H. apply with_fst_some in H as (l & H & ->).
      right. right. exists (c' :: r'), l.
      split; [cbn [length]; lia|]. split; [exact H|].
      intros pm' pe' H'. now rewrite H'. }
  intros H. left. split; [|intros _ _; exact H].
  destruct (c =? 34)%Z.
  { apply with_fst_some in H as (str & H & _).
    apply parse_chars_length in H. lia. }
  destruct (startsWith (js "true") (c :: r)).
  { injection H as _ <-. rewrite length_drop. cbn [length]. lia. }
  destruct (startsWith (js "false") (c :: r)).
  { injection H as _ <-. rewrite length_drop. cbn [length]. lia. }
  destruct (startsWith (js "null") (c :: r)).
  { injection H as _ <-. rewrite length_drop. cbn [length]. lia. }
  apply parse_number_length in H. cbn [length] in H. lia.
Qed.

Lemma elements_body_inv pv pe (s : list Z) (l : list json) (rest : list Z) :
  elements_body pv pe s = Some (l, rest) ->
  exists v rest1, pv s = Some (v, rest1)
    /\ ((length rest < length rest1
         /\ forall pv' pe', pv' s = Some (v, rest1) ->
                            elements_body pv' pe' s = Some (l, rest))
        \/ (exists t l', length t < length rest1 /\ pe t = Some (l', rest)
              /\ forall pv' pe', pv' s = Some (v, rest1) ->
                                 pe' t = Some (l', rest) ->
                                 elements_body pv' pe' s = Some (l, rest))).
Proof.
  unfold elements_body. destruct (pv s) as [[v rest1]|]; [|discriminate].
  intros H0. exists v, rest1. split; [reflexivity|]. revert H0.
  pose proof (skip_ws_length rest1) as Hr.
  destruct (skip_ws rest1) as [|c r] eqn:Ews; [discriminate|].
  cbn [length] in Hr.
  destruct (c =? 44)%Z eqn:Ec.
  - intros H. apply with_fst_some in H as (l' & H & ->).
    right. exists r, l'. split; [lia|]. split; [exact H|].
    intros pv' pe' Hv H'. rewrite Hv. cbv beta iota.
    now rewrite Ews, Ec, H'.
  - destruct (c =? 93)%Z eqn:Ec'; [|discriminate]. intros [= <- <-].
    left. split; [lia|]. intros pv' pe' Hv. rewrite Hv. cbv beta iota.
    now rewrite Ews, Ec, Ec'.
Qed.

Lemma members_body_inv pv pm (s : list Z) (ms : list (list Z * json))
  (rest : list Z) :
  members_body pv pm s = Some (ms, rest) ->
  exists t v rest1, length t < length s /\ pv t = Some (v, rest1)
    /\ ((length rest < length rest1
         /\ forall pv' pm', pv' t = Some (v, rest1) ->
                            members_body pv' pm' s = Some (ms, rest))
        \/ (exists t2 ms', length t2 < length rest1 /\ pm t2 = Some (ms', rest)
              /\ forall pv' pm', pv' t = Some (v, rest1) ->
                                 pm' t2 = Some (ms', rest) ->
                                 members_body pv' pm' s = Some (ms, rest))).
Proof.
  unfold members_body. pose proof (skip_ws_length s) as Hs.
  destruct (skip_ws s) as [|q r0]; [discriminate|]. cbn [length] in Hs.
  destruct (q =? 34)%Z; [|discriminate].
  destruct (parse_chars r0) as [[k r1]|] eqn:Ek; [|discriminate].
  apply parse_chars_length in Ek.
  pose proof (skip_ws_length r1) as Hr1.
  destruct (skip_ws r1) as [|c r2]; [discriminate|]. cbn [length] in Hr1.
  destruct (c =? 58)%Z; [|discriminate].
  destruct (pv r2) as [[v rest1]|] eqn:Ev; [|discriminate].
  intros H0. exists r2, v, rest1. split; [lia|]. split; [exact Ev|].
  revert H0. pose proof (skip_ws_length rest1) as Hr.
  destruct (skip_ws rest1) as [|c' r3] eqn:Ews; [discriminate|].
  cbn [length] in Hr.
  destruct (c' =? 44)%Z eqn:Ec.
  - intros H. apply with_fst_some in H as (ms' & H & ->).
    right. exists r3, ms'. split; [lia|]. split; [exact H|].
    intros pv' pm' Hv H'. rewrite Hv. cbv beta iota.
    now rewrite Ews, Ec, H'.
  - destruct (c' =? 125)%Z eqn:Ec'; [|discriminate]. intros [= <- <-].
    left. split; [lia|]. intros pv' pm' Hv. rewrite Hv. cbv beta iota.
    now rewrite Ews, Ec, Ec'.
Qed.

(** *** Enough fuel *)

(** A call that answers takes something off the text, and answers the
    same with any fuel from twice what it took. *)
Lemma fuel_bound (f : nat) :
  (forall s v rest, parse_value f s = Some (v, rest) ->
     length rest < length s
     /\ forall g, 2 * (length s - length rest) <= g + 1 ->
                  parse_value g s = Some (v, rest))
  /\ (forall s l rest, parse_elements f s = Some (l, rest) ->
        length rest + 1 < length s
        /\ forall g, 2 * (length s - length rest) <= g + 2 ->
                     parse_elements g s = Some (l, rest))
  /\ (forall s ms rest, parse_members f s = Some (ms, rest) ->
        length rest + 1 < length s
        /\ forall g, 2 * (length s - length rest) <= g + 2 ->
                     parse_members g s = Some (ms, rest)).
Proof.
  induction f as [|f (IHv & IHe & IHm)].
  { repeat split; discriminate. }
  split; [|split].
  - intros s v rest. rewrite parse_value_S. intros H.
    apply value_body_inv in H
      as [[Hl Hany]|[(t & ms & Ht & Hpm & Hany)|(t & l & Ht & Hpe & Hany)]].
    + split; [exact Hl|]. intros [|g] Hg; [lia|].
      rewrite parse_value_S. apply Hany.
    + destruct (IHm _ _ _ Hpm) as [Hl Hfuel]. split; [lia|].
      intros [|g] Hg; [lia|]. rewrite parse_value_S. apply Hany.
      apply Hfuel. lia.
    + destruct (IHe _ _ _ Hpe) as [Hl Hfuel]. split; [lia|].
      intros [|g] Hg; [lia|]. rewrite parse_value_S. apply Hany.
      apply Hfuel. lia.
  - intros s l rest. rewrite parse_elements_S. intros H.
    apply elements_body_inv in H as (v & rest1 & Hpv & H).
    destruct (IHv _ _ _ Hpv) as [Hl1 Hfuel1].
    destruct H as [[Hl Hany]|(t & l' & Ht & Hpe & Hany)].
    + split; [lia|]. intros [|g] Hg; [lia|]. rewrite parse_elements_S.
      apply Hany. apply Hfuel1. lia.
    + destruct (IHe _ _ _ Hpe) as [Hl Hfuel]. split; [lia|].
      intros [|g] Hg; [lia|]. rewrite parse_elements_S.
      apply Hany; [apply Hfuel1 | apply Hfuel]; lia.
  - intros s ms rest. rewrite parse_members_S. intros H.
    apply members_body_inv in H as (t & v & rest1 & Ht & Hpv & H).
    destruct (IHv _ _ _ Hpv) as [Hl1 Hfuel1].
    destruct H as [[Hl Hany]|(t2 & ms' & Ht2 & Hpm & Hany)].
    + split; [lia|]. intros [|g] Hg; [lia|]. rewrite parse_members_S.
      apply Hany. apply Hfuel1. lia.
    + destruct (IHm _ _ _ Hpm) as [Hl Hfuel]. split; [lia|].
      intros [|g] Hg; [lia|]. rewrite parse_members_S.
      apply Hany; [apply Hfuel1 | apply Hfuel]; lia.
Qed.

(** The fuel of [JSON_parse] is enough: a text that parses with some
    fuel parses with it, so that [None] is a text no fuel parses. *)
Lemma JSON_parse_enough (f : nat) (s : list Z) (v : json) (rest : list Z) :
  parse_value f s = Some (v, rest) -> skip_ws rest = [] ->
  JSON_parse s = Some v.
Proof.
  intros H Hrest. destruct (proj1 (fuel_bound f) _ _ _ H) as [Hl Hfuel].
  unfold JSON_parse. rewrite (Hfuel (2 * length s + 2)) by lia.
  now rewrite Hrest.
Qed.

Lemma JSON_parse_none (s : list Z) :
  JSON_parse s = None ->
  forall f v rest, parse_value f s = Some (v, rest) -> skip_ws rest <> [].
Proof.
  intros Hn f v rest H Hrest.
  rewrite (JSON_parse_enough f s v rest H Hrest) in Hn. discriminate.
Qed.

End JsonFuel.

(** ** The pages of a failed token exchange *)

Module PagesFacts.

Import Json Render Server Authorize Exchange Notions JSFacts RenderFacts.

Lemma errorData_not_null (response : option (Z * json)) :
  errorData response <> JNull.
Proof.
  unfold errorData. destruct response as [[status data]|]; [|discriminate].
  destruct (to_boolean (Some data)) eqn:E; [|discriminate].
  intros ->. discriminate E.
Qed.

Lemma errorData_members (response : option (Z * json))
  (members : list (list Z * json)) :
  errorData response = JObj members -> members <> [] ->
  exists status, response = Some (status, JObj members).
Proof.
  unfold errorData. destruct response as [[status data]|].
  - destruct (to_boolean (Some data)).
    + intros -> _. now exists status.
    + intros [= <-]. congruence.
  - intros [= <-]. congruence.
Qed.

Lemma statusCode_nonzero (response : option (Z * json)) :
  statusCode response <> 0%Z.
Proof.
  unfold statusCode. destruct response as [[status data]|]; [|discriminate].
  destruct (Z.eqb_spec status 0); [discriminate | assumption].
Qed.

Lemma includes_of_throws (v : json) (p : list Z) (x : error) :
  includes_of v p = Throw x -> x = TypeError.
Proof. destruct v; cbn; congruence. Qed.

Section Pages.

Variable numberToString : bool -> Z -> Z -> list Z.
Variable JSON_stringify : json -> list Z.

Lemma detail_of_cases (d : json) :
  d <> JNull ->
  (exists text, detail_of JSON_stringify d = Ret (JStr text))
  \/ exists members v,
       d = JObj members /\ members <> []
       /\ detail_of JSON_stringify d = Ret v.
Proof.
  intros Hn. destruct d as [|b|n m e|s|l|members]; try congruence;
    try (left; eexists; reflexivity).
  unfold detail_of, get_prop, JS.bind.
  destruct members as [|kv members]; [left; eexists; reflexivity|].
  right. exists (kv :: members).
  destruct (lookup_member (js "error_description") (kv :: members))
    as [v|]; cbn [or_else].
  - destruct (to_boolean (Some v)).
    + exists v. repeat split. discriminate.
    + eexists. repeat split. discriminate.
  - eexists. repeat split. discriminate.
Qed.

Lemma connection_failed_text (response : option (Z * json)) (text : list Z) :
  detail_of JSON_stringify (errorData response) = Ret (JStr text) ->
  exists hints,
    connection_failed numberToString JSON_stringify response
    = ConnectionFailedPage (statusCode response) text hints.
Proof.
  intros H. unfold connection_failed. rewrite H.
  cbn [JS.bind includes_of ToString].
  destruct (statusCode response =? 401)%Z; cbn [JS.bind]; eexists; reflexivity.
Qed.

(** An error gets out of the [catch] block only as a TypeError, and
    only when the body of the answer is an object with members. *)
Lemma connection_failed_unhandled (response : option (Z * json)) (e : error) :
  connection_failed numberToString JSON_stringify response = Unhandled e ->
  e = TypeError
  /\ exists status members,
       members <> [] /\ response = Some (status, JObj members).
Proof.
  destruct (detail_of_cases (errorData response) (errorData_not_null _))
    as [[text Ht]|(members & v & Hm & Hne & Hv)].
  - destruct (connection_failed_text _ _ Ht) as [hints ->]. discriminate.
  - intros He. split.
    + unfold connection_failed in He. rewrite Hv in He. cbn [JS.bind] in He.
      destruct (statusCode response =? 401)%Z; cbn [JS.bind] in He.
      * destruct (includes_of v (js "redirect_uri")) as [m|x] eqn:E2;
          cbn [JS.bind] in He.
        -- destruct (ToString numberToString v) as [t|x] eqn:E3;
             cbn [JS.bind] in He; [discriminate|].
           injection He as <-. now apply (ToString_throws numberToString v).
        -- injection He as <-. now apply (includes_of_throws v _ _ E2).
      * destruct (includes_of v (js "invalid_client")) as [c|x] eqn:E1;
          cbn [JS.bind] in He.
        -- destruct (includes_of v (js "redirect_uri")) as [m|x] eqn:E2;
             cbn [JS.bind] in He.
           ++ destruct (ToString numberToString v) as [t|x] eqn:E3;
                cbn [JS.bind] in He; [discriminate|].
              injection He as <-. now apply (ToString_throws numberToString v).
           ++ injection He as <-. now apply (includes_of_throws v _ _ E2).
        -- injection He as <-. now apply (includes_of_throws v _ _ E1).
    + destruct (errorData_members _ _ Hm Hne) as [status Hs].
      now exists status, members.
Qed.

(** An error of the handler's own code, which has no answer of the
    platform, ends in the page. *)
Lemma connection_failed_none :
  exists hints,
    connection_failed numberToString JSON_stringify None
    = ConnectionFailedPage 500 (JSON_stringify (JObj [])) hints.
Proof. apply (connection_failed_text None). reflexivity. Qed.

(** The exchange ends without a page only for an answer of the
    platform that is an error with an object as its body. *)
Lemma exchange_unhandled (h : headers) (code : qval) (c : credentials)
  (platform : upstream) (e : error) :
  exchange numberToString JSON_stringify h code c platform = Unhandled e ->
  e = TypeError
  /\ exists status members message,
       members <> []
       /\ platform = Rejected (Some (status, JObj members)) message.
Proof.
  unfold exchange. destruct connection_failed_none as [hints Hnone].
  destruct (token_request_of numberToString h code c).
  - destruct platform as [data|response message].
    + destruct (JS.bind _ _); [discriminate|]. rewrite Hnone. discriminate.
    + intros H. apply connection_failed_unhandled in H
        as (-> & status & members & Hne & ->).
      split; [reflexivity|]. now exists status, members, message.
  - rewrite Hnone. discriminate.
Qed.

End Pages.

End PagesFacts.

(** ** The state of the OAuth flow *)

Module OAuthState.

Import Json Render Server Authorize Exchange Notions JSFacts RenderFacts
  JsonFacts.

Lemma stringify_state_shape (id secret : list Z) (sb : bool) :
  stringify_state id secret sb
  = 123%Z :: quote (js "client_id") ++ 58%Z :: quote id ++ 44%Z ::
      (quote (js "client_secret") ++ 58%Z :: quote secret ++ 44%Z ::
        (quote (js "sandbox") ++ 58%Z ::
          (if sb then js "true" else js "false") ++ 125%Z :: [])).
Proof.
  unfold stringify_state.
  change (js "{") with [123%Z]. change (js ":") with [58%Z].
  change (js ",") with [44%Z]. change (js "}") with [125%Z].
  cbn [app]. repeat (rewrite <- ?app_assoc; cbn [app]; f_equal).
Qed.

Lemma parse_state (f : nat) (id secret : list Z) (sb : bool) :
  wf_string id = true -> wf_string secret = true ->
  parse_value (5 + f) (stringify_state id secret sb)
  = Some (state_object id secret sb, []).
Proof.
  intros Hi Hs. rewrite stringify_state_shape.
  change (5 + f)%nat with (S (S (S (S (S f))))).
  remember (quote (js "client_id") ++ _) as members eqn:Em.
  assert (exists r, members = 34%Z :: r) as [r Hr].
  { rewrite Em. unfold quote. cbn [app]. eauto. }
  cbn [parse_value skip_ws is_json_ws Z.eqb Pos.eqb orb].
  rewrite Hr. cbn [skip_ws is_json_ws Z.eqb Pos.eqb orb].
  rewrite <- Hr, Em.
  rewrite (parse_members_more _ _ (JStr id)) by
    (try reflexivity; now apply parse_value_string).
  rewrite (parse_members_more _ _ (JStr secret)) by
    (try reflexivity; now apply parse_value_string).
  rewrite (parse_members_last _ _ (JBool sb)) by
    (try reflexivity; now apply parse_value_bool).
  reflexivity.
Qed.

Lemma JSON_parse_state (id secret : list Z) (sb : bool) :
  wf_string id = true -> wf_string secret = true ->
  JSON_parse (stringify_state id secret sb)
  = Some (state_object id secret sb).
Proof.
  intros Hi Hs. unfold JSON_parse.
  assert (exists f, (2 * length (stringify_state id secret sb) + 2 = 5 + f)%nat)
    as [f ->].
  { rewrite stringify_state_shape. unfold quote. cbn [app length].
    match goal with
    | |- context [S (S (length ?l))] => exists (2 * length l + 1)%nat
    end. lia. }
  now rewrite parse_state.
Qed.

Lemma paired_state (id secret : list Z) (sb : bool) :
  wf_string id = true -> wf_string secret = true ->
  paired (stringify_state id secret sb) = true.
Proof.
  intros Hi Hs. unfold stringify_state.
  repeat apply Utf8Facts.paired_app;
    try (now apply paired_quote); try (now apply paired_quote_body);
    try reflexivity.
  destruct sb; reflexivity.
Qed.

(** The text is read back from the state as it was written. *)
Lemma state_text_encode (id secret : list Z) (sb : bool) :
  wf_string id = true -> wf_string secret = true ->
  state_text (encode_state id secret sb) = stringify_state id secret sb.
Proof.
  intros Hi Hs. unfold state_text, encode_state.
  rewrite Base64Facts.base64_decode_encode
    by (apply Utf8Facts.encode_bytes; now apply paired_state).
  apply Utf8Facts.utf8_decode_encode. now apply paired_state.
Qed.

Lemma encode_state_nonempty (id secret : list Z) (sb : bool) :
  encode_state id secret sb <> [].
Proof.
  unfold encode_state. rewrite stringify_state_shape.
  rewrite Utf8Facts.encode_plain by reflexivity.
  change (Utf8.encode_cp 123) with [123%Z]. cbn [app].
  apply Base64Facts.encode_nonempty.
Qed.

Lemma recover_encoded (bufferFromObject : qval -> exc (list Z))
  (id secret : list Z) (sb : bool) :
  wf_string id = true -> wf_string secret = true ->
  id <> [] -> secret <> [] ->
  recover_state bufferFromObject (Some (QStr (encode_state id secret sb)))
  = Ret (Credentials (Some (JStr id)) (Some (JStr secret)) (Some (JBool sb))).
Proof.
  intros Hi Hs Ni Ns.
  rewrite (Callback.recover_state_text bufferFromObject _
             (stringify_state id secret sb)).
  - rewrite JSON_parse_state by assumption.
    change (member (state_object id secret sb) (js "client_id"))
      with (Some (JStr id)).
    change (member (state_object id secret sb) (js "client_secret"))
      with (Some (JStr secret)).
    change (member (state_object id secret sb) (js "sandbox"))
      with (Some (JBool sb)).
    cbn [state_object to_boolean]. apply nonempty_true in Ni, Ns.
    now rewrite Ni, Ns.
  - intros H. apply (encode_state_nonempty id secret sb). congruence.
  - cbn [decoded]. symmetry. now apply state_text_encode.
Qed.

Lemma wf_string_forall (s : list Z) :
  wf_string s = true <-> Forall (fun c => (0 <= c < 65536)%Z) s.
Proof.
  unfold wf_string. rewrite forallb_forall, Forall_forall.
  split; intros H c Hc.
  - apply list_elem_of_In in Hc. specialize (H c Hc). lia.
  - apply list_elem_of_In in Hc. specialize (H c Hc). lia.
Qed.

Lemma wf_trimStart (s : list Z) :
  wf_string s = true -> wf_string (trimStart s) = true.
Proof.
  induction s as [|c s IH]; [reflexivity|]. intros H. cbn [trimStart].
  destruct (is_ws c); [|exact H]. apply IH.
  now apply wf_string_cons in H.
Qed.

Lemma wf_rev (s : list Z) : wf_string s = true -> wf_string (rev s) = true.
Proof.
  rewrite !wf_string_forall. intros H. now apply Forall_rev.
Qed.

Lemma wf_trim (s : list Z) : wf_string s = true -> wf_string (trim s) = true.
Proof.
  intros H. unfold trim, trimEnd.
  now apply wf_rev, wf_trimStart, wf_rev, wf_trimStart.
Qed.

Lemma trimmed_text (p : option qval) (s : list Z) :
  trimmed p = Ret s -> s = trim (text_of p).
Proof.
  destruct p as [[t|l|m]|]; cbn [trimmed text_of]; congruence.
Qed.

(** A state that is usable: the parse of its text and the credentials
    it gives. *)
Lemma unusable_spec (text : list Z) :
  unusable text
  <-> match JSON_parse text with
      | None => True
      | Some JNull => True
      | Some j => to_boolean (member j (js "client_id"))
                  && to_boolean (member j (js "client_secret")) = false
      end.
Proof.
  unfold unusable. destruct (JSON_parse text) as [j|].
  2:{ split; [tauto | intros _; now left]. }
  assert (to_boolean (member j (js "client_id"))
          && to_boolean (member j (js "client_secret")) = false
          <-> missing (member j (js "client_id"))
              \/ missing (member j (js "client_secret"))) as Hm.
  { rewrite andb_false_iff. now rewrite <- !truthy_missing. }
  destruct j; try (rewrite Hm; split;
    [intros [H|[H|(v & [= <-] & H)]]; (discriminate H || exact H)
    | intros H; right; right; eexists; split; [reflexivity | exact H]]).
  split; [tauto | intros _; right; now left].
Qed.

Section Platform.

Variable numberToString : bool -> Z -> Z -> list Z.
Variable JSON_stringify : json -> list Z.
Variable bufferFromObject : qval -> exc (list Z).

(** With a code and no error the handler decodes the state. *)
Lemma callback_with_code (code : qval) (state : option qval) :
  code <> QStr [] ->
  callback bufferFromObject (CallbackQuery (Some code) None None state)
  = match recover_state bufferFromObject state with
    | Throw e => SessionErrorPage 400 e
    | Ret c => ExchangesToken code c
    end.
Proof.
  intros Hn. unfold callback. cbn [q_error].
  now rewrite (Callback.without_error_code bufferFromObject
                 (CallbackQuery (Some code) None None state) code eq_refl Hn).
Qed.

(** When the [try] block of the state throws. *)
Lemma recover_state_throws (state : option qval) :
  (exists e, recover_state bufferFromObject state = Throw e)
  <-> ~ given state
      \/ (exists v e, state = Some v /\ (forall s, v <> QStr s)
                      /\ bufferFromObject v = Throw e)
      \/ exists v text, state = Some v /\ v <> QStr []
                        /\ decoded bufferFromObject v text /\ unusable text.
Proof.
  destruct (present state) eqn:Ep.
  2:{ apply present_not_given in Ep. split; [now left|]. intros _.
      eexists. now apply Callback.recover_state_missing. }
  apply present_given in Ep as Hg. destruct Hg as (v & -> & Hv).
  assert ((exists text, decoded bufferFromObject v text)
          \/ ((forall s, v <> QStr s)
              /\ exists e, bufferFromObject v = Throw e)) as [[text Hd]|[Hs [e He]]].
  { destruct v as [s|l|m]; [left; now eexists|..]; cbn [decoded];
      match goal with
      | |- context [bufferFromObject ?x] =>
        destruct (bufferFromObject x) as [bytes|e]
      end; [left; eauto | right; split; [discriminate | eauto]
           | left; eauto | right; split; [discriminate | eauto]]. }
  - rewrite (Callback.recover_state_text bufferFromObject v text Hv Hd).
    pose proof (unusable_spec text) as Hu.
    assert (forall text', decoded bufferFromObject v text' -> text' = text)
      as Hsame.
    { intros text' Hd'. destruct v as [s|l|m]; cbn [decoded] in *;
        [congruence|..];
        destruct Hd as (b1 & H1 & ->), Hd' as (b2 & H2 & ->); congruence. }
    assert (forall e, bufferFromObject v = Throw e -> (forall s, v <> QStr s) ->
                      False) as Hret.
    { intros e He Hs. destruct v as [s|l|m]; [now apply (Hs s)|..];
        cbn [decoded] in Hd; destruct Hd as (b & Hb & _); congruence. }
    split.
    + intros [e He]. right. right. exists v, text.
      repeat split; try assumption. apply Hu.
      destruct (JSON_parse text) as [[]|]; try exact I;
        match type of He with
        | (if ?c then _ else _) = _ => destruct c; [discriminate | reflexivity]
        end.
    + intros [Hn|[(v' & e & [= <-] & Hs & He)|(v' & text' & [= <-] & _ & Hd' & Hun)]].
      * exfalso. apply Hn. now exists v.
      * exfalso. now apply (Hret e).
      * rewrite (Hsame text' Hd') in Hun. apply Hu in Hun.
        destruct (JSON_parse text) as [[]|]; try (eexists; reflexivity);
          rewrite Hun; eexists; reflexivity.
  - rewrite (Callback.recover_state_buffer bufferFromObject v e Hs He).
    split; [|eauto]. intros _. right. left. now exists v, e.
Qed.

(** C1, as the code has it. For every client id, client secret and
    sandbox flag, the state the authorize step makes out of them is
    decoded by the callback into the object it was made from, and the
    callback that comes back with a code and that state goes on to the
    token exchange with the same three values. For every state value,
    a string or not, the decoding throws nothing out of its [try]
    block: the callback answers with the session-error page and status
    400 exactly when the state is not given, or the platform makes no
    buffer of a state that is not a string, or the text the base64
    reader and the UTF-8 decoder make of it is not JSON, or the parsed
    value is [null], or its client_id or client_secret is missing; in
    every other case it goes on to the token exchange. The handler as
    a whole then ends without an answer only when the platform rejects
    the token request with an answer whose body is an object with
    members, never because of the state. The base64 reader skips what
    is not in its alphabet and reads a code unit by its low byte, so a
    state that is not base64 can still be accepted. *)
Theorem state_round_trip :
  (forall id secret sb,
     wf_string id = true -> wf_string secret = true ->
     JSON_parse (state_text (encode_state id secret sb))
     = Some (state_object id secret sb))
  /\ (forall q code cid st,
        wf_string (text_of (q_client_id q)) = true ->
        wf_string (text_of (q_client_secret q)) = true ->
        code <> QStr [] ->
        auth_pinterest q = RedirectToPlatform cid st ->
        callback bufferFromObject
          (CallbackQuery (Some code) None None (Some (QStr st)))
        = ExchangesToken code
            (Credentials
               (Some (JStr (trim (text_of (q_client_id q)))))
               (Some (JStr (trim (text_of (q_client_secret q)))))
               (Some (JBool (is_text (q_sandbox q) (js "true"))))))
  /\ (forall code state,
        code <> QStr [] ->
        (forall e, recover_state bufferFromObject state = Throw e ->
           callback bufferFromObject (CallbackQuery (Some code) None None state)
           = SessionErrorPage 400 e)
        /\ (forall c, recover_state bufferFromObject state = Ret c ->
              callback bufferFromObject
                (CallbackQuery (Some code) None None state)
              = ExchangesToken code c)
        /\ ((exists e,
               callback bufferFromObject
                 (CallbackQuery (Some code) None None state)
               = SessionErrorPage 400 e)
            <-> ~ given state
                \/ (exists v e, state = Some v /\ (forall s, v <> QStr s)
                                /\ bufferFromObject v = Throw e)
                \/ exists v text,
                     state = Some v /\ v <> QStr []
                     /\ decoded bufferFromObject v text /\ unusable text)
        /\ (forall e,
              callback bufferFromObject
                (CallbackQuery (Some code) None None state)
              <> Rejects e)
        /\ (forall h platform e,
              callback_route numberToString JSON_stringify bufferFromObject h
                (CallbackQuery (Some code) None None state) platform
              = Escapes e ->
              e = TypeError
              /\ exists status members message,
                   members <> []
                   /\ platform
                      = Rejected (Some (status, JObj members)) message)).
Proof.
  split; [|split].
  - intros id secret sb Hi Hs. rewrite state_text_encode by assumption.
    now apply JSON_parse_state.
  - intros q code cid st Hi Hs Hc. unfold auth_pinterest.
    destruct (trimmed (q_client_id q)) as [cleanId|e] eqn:Eid;
      cbn [JS.bind]; [|discriminate].
    destruct (trimmed (q_client_secret q)) as [cleanSecret|e] eqn:Esec;
      cbn [JS.bind]; [|discriminate].
    apply trimmed_text in Eid as ->. apply trimmed_text in Esec as ->.
    destruct (nonempty (trim (text_of (q_client_id q)))) eqn:Ei;
      [|discriminate].
    destruct (nonempty (trim (text_of (q_client_secret q)))) eqn:Es;
      [|discriminate].
    cbn [negb orb]. intros [= <- <-].
    rewrite (callback_with_code code _ Hc).
    rewrite recover_encoded;
      [reflexivity | now apply wf_trim | now apply wf_trim
       | now apply nonempty_true | now apply nonempty_true].
  - intros code state Hc. rewrite (callback_with_code code state Hc).
    split; [|split; [|split; [|split]]].
    + now intros e ->.
    + now intros c ->.
    + rewrite <- recover_state_throws.
      destruct (recover_state bufferFromObject state) as [c|e].
      * split; intros [e H]; discriminate H.
      * split; intros _; eexists; reflexivity.
    + intros e. now destruct (recover_state bufferFromObject state).
    + intros h platform e. unfold callback_route.
      rewrite (callback_with_code code state Hc).
      destruct (recover_state bufferFromObject state) as [c|e0];
        [|discriminate].
      destruct (exchange numberToString JSON_stringify h code c platform)
        as [token|status detail hints|e1] eqn:Ex; try discriminate.
      intros [= <-].
      now apply (PagesFacts.exchange_unhandled numberToString JSON_stringify
                   h code c platform).
Qed.

End Platform.

(** The theorem at the query [client_id= X ], [client_secret=Y],
    [sandbox=true] and the code [c], and at the states [e30=], which
    holds an empty object, and [bnVsbA==], which holds [null]. *)
Lemma state_round_trip_witness :
  let numberToString : bool -> Z -> Z -> list Z := fun _ _ _ => js "0" in
  let JSON_stringify : json -> list Z := fun _ => js "{}" in
  let bufferFromObject : qval -> exc (list Z) := fun _ => Throw TypeError in
  callback bufferFromObject
    (CallbackQuery (Some (QStr (js "c"))) None None
       (Some (QStr (encode_state (js "X") (js "Y") true))))
  = ExchangesToken (QStr (js "c"))
      (Credentials (Some (JStr (js "X"))) (Some (JStr (js "Y")))
         (Some (JBool true)))
  /\ callback bufferFromObject
       (CallbackQuery (Some (QStr (js "c"))) None None
          (Some (QStr (js "e30="))))
     = SessionErrorPage 400 (Error (js "State missing credentials"))
  /\ exists e,
       callback bufferFromObject
         (CallbackQuery (Some (QStr (js "c"))) None None
            (Some (QStr (js "bnVsbA=="))))
       = SessionErrorPage 400 e.
Proof.
  intros numberToString JSON_stringify bufferFromObject. split; [|split].
  - apply (proj1 (proj2 (state_round_trip numberToString JSON_stringify
                           bufferFromObject))
             (AuthQuery (Some (QStr (js " X "))) (Some (QStr (js "Y")))
                (Some (QStr (js "true"))))
             (QStr (js "c")) (js "X")); try reflexivity. discriminate.
  - apply (proj1 (proj2 (proj2 (state_round_trip numberToString JSON_stringify
                                  bufferFromObject))
                    (QStr (js "c")) (Some (QStr (js "e30=")))
                    ltac:(discriminate))).
    vm_compute. reflexivity.
  - apply (proj1 (proj2 (proj2 (proj2 (proj2 (state_round_trip numberToString
              JSON_stringify bufferFromObject))
            (QStr (js "c")) (Some (QStr (js "bnVsbA=="))) ltac:(discriminate))))).
    right. right. exists (QStr (js "bnVsbA==")), (js "null").
    split; [reflexivity|]. split; [discriminate|].
    split; [vm_compute; reflexivity|]. right. left. vm_compute. reflexivity.
Defined.

(** C1 as worded fails: a state that is not base64 does not give the
    session-error page. The state for X and Y with an asterisk after
    each character, or with a line break in it, or with 256 added to
    each of its code units, is taken for the state itself, and the
    callback goes on to the token exchange with X and Y; a state with
    one character changed is accepted too, with another secret. *)
Lemma non_base64_state_accepted :
  In 42%Z starred_state /\ Base64.unbase64 42 = None
  /\ (forall bufferFromObject,
        callback bufferFromObject
          (CallbackQuery (Some (QStr (js "c"))) None None
             (Some (QStr starred_state)))
        = ExchangesToken (QStr (js "c"))
            (Credentials (Some (JStr (js "X"))) (Some (JStr (js "Y")))
               (Some (JBool true))))
  /\ (forall bufferFromObject e,
       callback bufferFromObject
         (CallbackQuery (Some (QStr (js "c"))) None None
            (Some (QStr starred_state)))
       <> SessionErrorPage 400 e)
  /\ In 10%Z broken_line_state /\ Base64.unbase64 10 = None
  /\ (forall bufferFromObject,
        callback bufferFromObject
          (CallbackQuery (Some (QStr (js "c"))) None None
             (Some (QStr broken_line_state)))
        = ExchangesToken (QStr (js "c"))
            (Credentials (Some (JStr (js "X"))) (Some (JStr (js "Y")))
               (Some (JBool true))))
  /\ Forall (fun c => (255 < c)%Z) high_state
  /\ (forall bufferFromObject,
        callback bufferFromObject
          (CallbackQuery (Some (QStr (js "c"))) None None
             (Some (QStr high_state)))
        = ExchangesToken (QStr (js "c"))
            (Credentials (Some (JStr (js "X"))) (Some (JStr (js "Y")))
               (Some (JBool true))))
  /\ flipped_state <> encode_state (js "X") (js "Y") true
  /\ (forall bufferFromObject,
        callback bufferFromObject
          (CallbackQuery (Some (QStr (js "c"))) None None
             (Some (QStr flipped_state)))
        = ExchangesToken (QStr (js "c"))
            (Credentials (Some (JStr (js "X"))) (Some (JStr (js "Z")))
               (Some (JBool true)))).
Proof.
  split; [vm_compute; tauto|]. split; [reflexivity|].
  split; [intros b; vm_compute; reflexivity|].
  split; [intros b e; vm_compute; discriminate|].
  split; [vm_compute; tauto|]. split; [reflexivity|].
  split; [intros b; vm_compute; reflexivity|].
  split; [vm_compute; repeat constructor|].
  split; [intros b; vm_compute; reflexivity|].
  split; [vm_compute; discriminate | intros b; vm_compute; reflexivity].
Qed.

End OAuthState.

(** ** The banner text: wrapping the title *)

Module Wrap.

Import Poster Notions JSFacts StringFacts.

(** *** Splitting and joining *)

Lemma split_go_app (sep : Z) (acc a rest : list Z) :
  ~ In sep a -> split_go sep acc (a ++ rest) = split_go sep (rev a ++ acc) rest.
Proof.
  revert acc. induction a as [|x a IH]; intros acc Hn; [reflexivity|].
  cbn [app split_go]. destruct (Z.eqb_spec x sep) as [->|Hx].
  - exfalso. apply Hn. now left.
  - rewrite IH by (intros Hi; apply Hn; now right).
    cbn [rev]. now rewrite <- app_assoc.
Qed.

Lemma split_one (sep : Z) (a : list Z) : ~ In sep a -> split sep a = [a].
Proof.
  intros Hn. unfold split. rewrite <- (app_nil_r a) at 1.
  rewrite split_go_app by exact Hn. cbn [split_go].
  now rewrite app_nil_r, rev_involutive.
Qed.

Lemma split_cons (sep : Z) (a b : list Z) :
  ~ In sep a -> split sep (a ++ sep :: b) = a :: split sep b.
Proof.
  intros Hn. unfold split. rewrite split_go_app by exact Hn.
  cbn [split_go]. rewrite Z.eqb_refl.
  now rewrite app_nil_r, rev_involutive.
Qed.

(** The pieces of a split hold no separator, and only characters of the
    text. *)
Lemma split_go_pieces (sep : Z) (P : Z -> Prop) (acc s : list Z) :
  Forall P acc -> ~ In sep acc -> Forall P s ->
  Forall (fun p => Forall P p /\ ~ In sep p) (split_go sep acc s).
Proof.
  revert acc. induction s as [|x s IH]; intros acc Ha Hn Hs; cbn [split_go].
  - constructor; [|constructor]. split; [now apply Forall_rev|].
    now rewrite <- in_rev.
  - inversion Hs as [|? ? Hx Hs']; subst.
    destruct (Z.eqb_spec x sep) as [->|Hne].
    + constructor.
      * split; [now apply Forall_rev | now rewrite <- in_rev].
      * apply IH; [constructor | intros [] | exact Hs'].
    + apply IH; [now constructor | | exact Hs'].
      intros [Hx'|Hi]; [congruence | tauto].
Qed.

Lemma split_pieces (sep : Z) (P : Z -> Prop) (s : list Z) :
  Forall P s -> Forall (fun p => Forall P p /\ ~ In sep p) (split sep s).
Proof.
  intros H. apply split_go_pieces; [constructor | intros [] | exact H].
Qed.

(** In a title that is spaced plainly the pieces hold no white space. *)
Lemma pieces_no_space (s : list Z) :
  spaced_plainly s -> Forall no_space (split 32 s).
Proof.
  intros H. pose proof (split_pieces 32 _ s H) as Hp.
  eapply Forall_impl; [exact Hp|]. intros p [Hf Hn]. unfold no_space.
  apply Forall_forall. intros c Hc.
  rewrite Forall_forall in Hf. specialize (Hf c Hc).
  destruct (is_ws c) eqn:E; [|reflexivity].
  exfalso. apply Hn. rewrite <- (Hf eq_refl). now apply list_elem_of_In.
Qed.

Lemma no_space_not_In (w : list Z) : no_space w -> ~ In 32%Z w.
Proof.
  intros H Hi. unfold no_space in H. rewrite Forall_forall in H.
  apply list_elem_of_In in Hi. specialize (H _ Hi). discriminate H.
Qed.

(** *** Trimming lines *)

Lemma trim_tight (s : list Z) : tight s -> trim s = s.
Proof.
  intros [(c & r & -> & Hc) (r' & d & Hr & Hd)]. unfold trim.
  rewrite trimStart_head by exact Hc. rewrite Hr. now apply trimEnd_last.
Qed.

Lemma tight_word (w : list Z) : w <> [] -> no_space w -> tight w.
Proof.
  intros Hn Hw. unfold no_space in Hw. split.
  - destruct w as [|c r]; [congruence|]. exists c, r.
    split; [reflexivity|]. now inversion Hw.
  - destruct (exists_last Hn) as (r & d & ->). exists r, d.
    split; [reflexivity|]. apply Forall_app in Hw as [_ Hd].
    now inversion Hd.
Qed.

Lemma tight_join (a b : list Z) : tight a -> tight b -> tight (a ++ 32%Z :: b).
Proof.
  intros [(c & r & -> & Hc) _] [_ (r' & d & -> & Hd)]. split.
  - exists c, (r ++ 32%Z :: r' ++ [d]). split; [reflexivity | exact Hc].
  - exists ((c :: r) ++ 32%Z :: r'), d. split; [|exact Hd].
    now rewrite <- app_assoc.
Qed.

Lemma tight_nonempty (s : list Z) : tight s -> nonempty s = true.
Proof. intros [(c & r & -> & _) _]. reflexivity. Qed.

Lemma trim_space_left (s : list Z) : trim (32%Z :: s) = trim s.
Proof. unfold trim. now rewrite trimStart_ws. Qed.

Lemma trim_space_right (s : list Z) : tight s -> trim (s ++ [32%Z]) = s.
Proof.
  intros Ht. pose proof (trim_tight s Ht) as Hs.
  destruct Ht as [(c & r & -> & Hc) _]. unfold trim in *.
  cbn [app]. rewrite trimStart_head in * by exact Hc.
  rewrite app_comm_cons, trimEnd_ws by reflexivity. exact Hs.
Qed.

(** *** Lines as lists of words *)

Lemma line_of_snoc (wc : list (list Z)) (w : list Z) :
  wc <> [] -> line_of (wc ++ [w]) = line_of wc ++ 32%Z :: w.
Proof.
  unfold line_of. induction wc as [|x wc IH]; [congruence|]. intros _.
  destruct wc as [|y wc].
  - reflexivity.
  - change (join [32%Z] ((x :: y :: wc) ++ [w]))
      with (x ++ [32%Z] ++ join [32%Z] ((y :: wc) ++ [w])).
    rewrite IH by discriminate.
    change (join [32%Z] (x :: y :: wc))
      with (x ++ [32%Z] ++ join [32%Z] (y :: wc)).
    now rewrite <- !app_assoc.
Qed.

Lemma tight_line (wc : list (list Z)) : good_line wc -> tight (line_of wc).
Proof.
  intros [Hn Hw]. induction wc as [|w wc IH] using rev_ind; [congruence|].
  apply Forall_app in Hw as [Hwc Hw]. inversion Hw as [|? ? [Hw1 Hw2] _]; subst.
  destruct wc as [|x wc'].
  - now apply tight_word.
  - rewrite line_of_snoc by discriminate.
    apply tight_join; [|now apply tight_word].
    apply IH; [discriminate | exact Hwc].
Qed.

Lemma split_line (wc : list (list Z)) :
  good_line wc -> split 32 (line_of wc) = wc.
Proof.
  intros [Hn Hw]. unfold line_of. induction wc as [|w wc IH]; [congruence|].
  inversion Hw as [|? ? [_ Hw1] Hwc]; subst. destruct wc as [|x wc'].
  - apply split_one. now apply no_space_not_In.
  - change (join [32%Z] (w :: x :: wc'))
      with (w ++ 32%Z :: join [32%Z] (x :: wc')).
    rewrite split_cons by now apply no_space_not_In.
    now rewrite IH by (discriminate || exact Hwc).
Qed.

Lemma forced_breaks_snoc (l : list (list (list Z))) (a b : list (list Z)) :
  forced_breaks (l ++ [a]) -> breaks_before a b -> forced_breaks (l ++ [a; b]).
Proof.
  intros Hc Hb. induction l as [|x l IH].
  - cbn. tauto.
  - destruct l as [|y l'].
    + cbn in *. tauto.
    + cbn [app forced_breaks] in *. destruct Hc as [Hxy Hc].
      split; [exact Hxy | now apply IH].
Qed.

Lemma forced_breaks_grow (l : list (list (list Z))) (w0 : list Z)
  (r r' : list (list Z)) :
  forced_breaks (l ++ [w0 :: r]) -> forced_breaks (l ++ [w0 :: r']).
Proof.
  intros Hc. induction l as [|x l IH].
  - cbn. tauto.
  - destruct l as [|y l'].
    + cbn in *. tauto.
    + cbn [app forced_breaks] in *. destruct Hc as [Hxy Hc].
      split; [exact Hxy | now apply IH].
Qed.

Lemma filter_nonempty_snoc (done : list (list Z)) (w : list Z) :
  List.filter nonempty (done ++ [w])
  = List.filter nonempty done ++ (if nonempty w then [w] else []).
Proof. rewrite List.filter_app. cbn. now destruct (nonempty w). Qed.

Lemma with_current_snoc (wls : list (list (list Z))) (wc : list (list Z)) :
  wc <> [] -> with_current wls wc = wls ++ [wc].
Proof. destruct wc; [congruence | reflexivity]. Qed.

Lemma with_current_nil (wls : list (list (list Z))) : with_current wls [] = wls.
Proof. unfold with_current. now rewrite app_nil_r. Qed.

(** *** The loop *)

Lemma joined_cur_nil (wc : list (list Z)) :
  good_line wc -> trim (line_of wc ++ [32%Z] ++ []) = line_of wc.
Proof. intros H. apply trim_space_right. now apply tight_line. Qed.

Lemma joined_nil_word (w : list Z) :
  is_word w -> trim (line_of [] ++ [32%Z] ++ w) = w.
Proof.
  intros [Hn Hw]. cbn [line_of join app]. rewrite trim_space_left.
  apply trim_tight. now apply tight_word.
Qed.

Lemma joined_cur_word (wc : list (list Z)) (w : list Z) :
  good_line wc -> is_word w ->
  trim (line_of wc ++ [32%Z] ++ w) = line_of (wc ++ [w]).
Proof.
  intros Hg [Hn Hw]. rewrite line_of_snoc by apply Hg. cbn [app].
  apply trim_tight. apply tight_join; [now apply tight_line|].
  now apply tight_word.
Qed.

Lemma good_line_cons (w0 : list Z) (wc : list (list Z)) :
  Forall is_word (w0 :: wc) -> good_line (w0 :: wc).
Proof. intros H. split; [discriminate | exact H]. Qed.

(** One turn of the loop keeps the invariant. *)
Lemma wrap_step_inv (done : list (list Z)) (st : list (list Z) * list Z)
  (w : list Z) :
  wrap_inv done st -> no_space w -> wrap_inv (done ++ [w]) (wrap_step st w).
Proof.
  intros (wls & wc & -> & Hg & Hw & Hcat & Hfit & Hch & Hcl) Hns.
  unfold wrap_inv, wrap_step, maxCharsPerLine. rewrite filter_nonempty_snoc.
  destruct w as [|c w'].
  - (* an empty piece, between two spaces *)
    cbn [nonempty]. rewrite (app_nil_r (List.filter nonempty done)).
    destruct wc as [|w0 wc'].
    + exists wls, []. cbn. auto 10.
    + pose proof (good_line_cons _ _ Hw) as Hgl.
      rewrite joined_cur_nil by exact Hgl.
      rewrite (tight_nonempty _ (tight_line _ Hgl)).
      rewrite with_current_snoc in * by discriminate.
      destruct (Nat.leb_spec (length (line_of (w0 :: wc'))) 25) as [Hle|Hgt].
      * exists wls, (w0 :: wc').
        rewrite with_current_snoc by discriminate.
        repeat split; first [assumption | discriminate | reflexivity].
      * exists (wls ++ [w0 :: wc']), [].
        rewrite with_current_nil, map_app, concat_app. cbn [map concat].
        rewrite !app_nil_r.
        repeat split; try assumption.
        -- apply Forall_app. split; [exact Hg|]. now constructor.
        -- constructor.
        -- intros _. right. now exists wls, (w0 :: wc').
  - (* a word *)
    assert (is_word (c :: w')) as Hword by (split; [discriminate | exact Hns]).
    cbn [nonempty]. destruct wc as [|w0 wc'].
    + rewrite joined_nil_word by exact Hword. rewrite with_current_nil in *.
      assert (wrap_inv_goal :
        exists wls' wc',
          (map line_of wls, c :: w') = (map line_of wls', line_of wc')
          /\ Forall good_line wls' /\ Forall is_word wc'
          /\ concat wls' ++ wc'
             = List.filter nonempty done ++ [c :: w']
          /\ Forall fits_or_single (with_current wls' wc')
          /\ forced_breaks (with_current wls' wc')
          /\ (wc' = [] -> closed wls')).
      { exists wls, [c :: w']. rewrite with_current_snoc by discriminate.
        rewrite app_nil_r in Hcat. rewrite Hcat.
        repeat split; try assumption.
        - now constructor.
        - apply Forall_app. split; [exact Hfit|]. constructor; [|constructor].
          right. now exists (c :: w').
        - destruct (Hcl eq_refl) as [->|(pre & a & -> & Ha)]; [cbn; tauto|].
          rewrite <- app_assoc. apply forced_breaks_snoc; [exact Hch|].
          cbn [breaks_before]. rewrite length_app. lia.
        - discriminate. }
      cbn [line_of join nonempty].
      destruct (length (c :: w') <=? 25)%nat; exact wrap_inv_goal.
    + pose proof (good_line_cons _ _ Hw) as Hgl.
      rewrite joined_cur_word by assumption.
      rewrite (tight_nonempty _ (tight_line _ Hgl)).
      rewrite with_current_snoc in * by discriminate.
      destruct (Nat.leb_spec (length (line_of ((w0 :: wc') ++ [c :: w']))) 25)
        as [Hle|Hgt].
      * exists wls, ((w0 :: wc') ++ [c :: w']).
        rewrite with_current_snoc by discriminate.
        repeat split; try assumption.
        -- apply Forall_app. split; [exact Hw|]. now constructor.
        -- now rewrite app_assoc, Hcat.
        -- apply Forall_app in Hfit as [Hfit _]. apply Forall_app.
           split; [exact Hfit|]. constructor; [|constructor]. now left.
        -- cbn [app]. now apply (forced_breaks_grow wls w0 wc').
        -- discriminate.
      * exists (wls ++ [w0 :: wc']), [c :: w'].
        rewrite with_current_snoc by discriminate.
        rewrite map_app, concat_app. cbn [map concat line_of join].
        rewrite !app_nil_r.
        repeat split; try assumption.
        -- apply Forall_app. split; [exact Hg|]. now constructor.
        -- now constructor.
        -- now rewrite <- Hcat, <- app_assoc.
        -- apply Forall_app. split; [exact Hfit|]. constructor; [|constructor].
           right. now exists (c :: w').
        -- rewrite <- app_assoc. apply forced_breaks_snoc; [exact Hch|].
           cbn [breaks_before].
           rewrite line_of_snoc in Hgt by discriminate. exact Hgt.
        -- discriminate.
Qed.

Lemma wrap_fold_inv (ws done : list (list Z)) (st : list (list Z) * list Z) :
  Forall no_space ws -> wrap_inv done st ->
  wrap_inv (done ++ ws) (fold_left wrap_step ws st).
Proof.
  revert done st. induction ws as [|w ws IH]; intros done st Hws Hinv.
  - now rewrite app_nil_r.
  - inversion Hws as [|? ? Hw Hws']; subst. cbn [fold_left].
    replace (done ++ w :: ws) with ((done ++ [w]) ++ ws)
      by now rewrite <- app_assoc.
    apply IH; [exact Hws'|]. now apply wrap_step_inv.
Qed.

Lemma wrap_inv_start : wrap_inv [] ([], []).
Proof.
  exists [], []. cbn. repeat split; auto. now left.
Qed.

(** *** The lines of a title *)

Lemma flush_with_current (wls : list (list (list Z))) (wc : list (list Z)) :
  Forall is_word wc ->
  flush (map line_of wls, line_of wc) = map line_of (with_current wls wc).
Proof.
  intros Hw. unfold flush, with_current. destruct wc as [|w0 wc'].
  - cbn. now rewrite app_nil_r.
  - rewrite (tight_nonempty _ (tight_line _ (good_line_cons _ _ Hw))).
    now rewrite map_app.
Qed.

Lemma good_with_current (wls : list (list (list Z))) (wc : list (list Z)) :
  Forall good_line wls -> Forall is_word wc ->
  Forall good_line (with_current wls wc).
Proof.
  intros Hg Hw. unfold with_current. apply Forall_app. split; [exact Hg|].
  destruct wc; constructor; [now apply good_line_cons | constructor].
Qed.

Lemma concat_with_current (wls : list (list (list Z))) (wc : list (list Z)) :
  concat (with_current wls wc) = concat wls ++ wc.
Proof.
  unfold with_current. rewrite concat_app. destruct wc; cbn; [reflexivity|].
  now rewrite app_nil_r.
Qed.

Lemma flat_split (wls : list (list (list Z))) :
  Forall good_line wls -> flat_map (split 32) (map line_of wls) = concat wls.
Proof.
  induction 1 as [|wl wls Hwl _ IH]; [reflexivity|].
  cbn [map flat_map concat]. now rewrite split_line, IH.
Qed.

Lemma fits_or_one_word (wls : list (list (list Z))) :
  Forall good_line wls -> Forall fits_or_single wls ->
  Forall (fun line => length line <= 25 \/ ~ In 32%Z line) (map line_of wls).
Proof.
  intros Hg Hf. apply Forall_map. rewrite Forall_forall in *.
  intros wl Hin. destruct (Hf wl Hin) as [Hle|[w ->]]; [now left|].
  right. destruct (Hg _ Hin) as [_ Hw]. inversion Hw as [|? ? [_ Hns] _]; subst.
  now apply no_space_not_In.
Qed.

Lemma breaks_in_text (wls : list (list (list Z))) :
  Forall good_line wls -> forced_breaks wls ->
  forall pre l1 l2 post w ws,
    map line_of wls = pre ++ l1 :: l2 :: post ->
    split 32 l2 = w :: ws ->
    25 < length (l1 ++ 32%Z :: w).
Proof.
  intros Hg Hc pre. revert wls Hg Hc.
  induction pre as [|x pre IH]; intros wls Hg Hc l1 l2 post w ws Hm Hs.
  - destruct wls as [|a [|b wls']]; try discriminate.
    cbn [map app] in Hm. injection Hm as <- <- _.
    inversion Hg as [|? ? _ Hg']; subst. inversion Hg' as [|? ? Hb _]; subst.
    rewrite split_line in Hs by exact Hb. subst b.
    cbn in Hc. tauto.
  - destruct wls as [|a wls']; [discriminate|].
    cbn [map app] in Hm. injection Hm as _ Hm.
    inversion Hg as [|? ? _ Hg']; subst.
    cbn [forced_breaks] in Hc. destruct Hc as [_ Hc].
    exact (IH wls' Hg' Hc l1 l2 post w ws Hm Hs).
Qed.

(** *** Titles with any white space *)

Lemma split_go_sep (sep : Z) (acc a b : list Z) :
  split_go sep acc (a ++ sep :: b) = split_go sep acc a ++ split sep b.
Proof.
  revert acc. induction a as [|x a IH]; intros acc; cbn [app split_go].
  - now rewrite Z.eqb_refl.
  - destruct (x =? sep)%Z; [now rewrite IH | apply IH].
Qed.

Lemma split_sep (sep : Z) (a b : list Z) :
  split sep (a ++ sep :: b) = split sep a ++ split sep b.
Proof. apply split_go_sep. Qed.

Lemma trimStart_app (a b : list Z) :
  trimStart a <> [] -> trimStart (a ++ b) = trimStart a ++ b.
Proof.
  induction a as [|c a IH]; intros H; [now destruct H|].
  cbn [app trimStart] in *.
  destruct (is_ws c); [now apply IH | reflexivity].
Qed.

Lemma trimStart_app_ws (a b : list Z) :
  trimStart a = [] -> trimStart (a ++ b) = trimStart b.
Proof.
  induction a as [|c a IH]; intros H; [reflexivity|].
  cbn [app trimStart] in *.
  destruct (is_ws c); [now apply IH | discriminate].
Qed.

Lemma trimEnd_app (a b : list Z) :
  trimEnd b <> [] -> trimEnd (a ++ b) = a ++ trimEnd b.
Proof.
  unfold trimEnd. intros H. rewrite rev_app_distr, trimStart_app.
  - now rewrite rev_app_distr, rev_involutive.
  - intros E. apply H. now rewrite E.
Qed.

Lemma trimEnd_app_ws (a b : list Z) :
  trimEnd b = [] -> trimEnd (a ++ b) = trimEnd a.
Proof.
  unfold trimEnd. intros H. rewrite rev_app_distr, trimStart_app_ws;
    [reflexivity|].
  apply (f_equal (@rev Z)) in H. now rewrite rev_involutive in H.
Qed.

Lemma trimEnd_nil (s : list Z) :
  trimEnd s = [] <-> Forall (fun c => is_ws c = true) s.
Proof.
  unfold trimEnd. split.
  - intros H. apply (f_equal (@rev Z)) in H. rewrite rev_involutive in H.
    cbn in H. apply trimStart_nil in H. apply Forall_rev in H.
    now rewrite rev_involutive in H.
  - intros H. apply Forall_rev in H. apply trimStart_nil in H. now rewrite H.
Qed.

Lemma blank_cases (s : list Z) :
  (trimStart s = [] /\ trimEnd s = [] /\ trim s = [])
  \/ (trimStart s <> [] /\ trimEnd s <> [] /\ trim s <> []).
Proof.
  destruct (trim s) as [|c r] eqn:E.
  - left. apply trim_nil in E. split; [now apply trimStart_nil|].
    split; [now apply trimEnd_nil | reflexivity].
  - right. assert (~ Forall (fun c => is_ws c = true) s) as H
      by (rewrite <- trim_nil; congruence).
    split; [now rewrite trimStart_nil|]. split; [now rewrite trimEnd_nil|].
    discriminate.
Qed.

(** What [trim] leaves is empty or starts and ends with a character that
    is not white space. *)
Lemma trim_tight_or_nil (s : list Z) : trim s = [] \/ tight (trim s).
Proof.
  destruct (trim s) as [|c r] eqn:E; [now left|]. right.
  pose proof (trim_idem s) as Hi. rewrite E in Hi. split.
  - exists c, r. split; [reflexivity|].
    destruct (is_ws c) eqn:Ec; [|reflexivity]. exfalso.
    unfold trim in E. destruct (trimStart_spec s) as [E0|(c0 & r0 & E0 & H0)].
    + rewrite E0 in E. discriminate E.
    + rewrite E0 in E. destruct (trimEnd_cons c0 r0 H0) as [r1 E1].
      rewrite E1 in E. injection E as -> ->. congruence.
  - destruct (exists_last (l := c :: r) ltac:(discriminate)) as (r' & d & Hl).
    exists r', d. split; [exact Hl|].
    destruct (is_ws d) eqn:Ed; [|reflexivity]. exfalso.
    unfold trim in E. set (t := trimStart s) in *.
    assert (trimEnd (trimEnd t) = trimEnd t) as Ht by apply trimEnd_idem.
    rewrite E, Hl in Ht. rewrite trimEnd_ws in Ht by exact Ed.
    assert (length (trimEnd r') <= length r') as Hlen.
    { destruct (trim_middle (rev r')) as (pre & post & Hm).
      unfold trimEnd. rewrite length_rev.
      destruct (trimStart_suffix (rev r')) as [pre' Hp].
      apply (f_equal (@length Z)) in Hp. rewrite length_app, length_rev in Hp.
      lia. }
    apply (f_equal (@length Z)) in Ht. rewrite length_app in Ht. cbn in Ht. lia.
Qed.

Lemma trim_join (cur w : list Z) :
  trim (cur ++ 32%Z :: w)
  = match trim cur, trim w with
    | [], _ => trim w
    | _ :: _, [] => trim cur
    | _ :: _, _ :: _ => trimStart cur ++ 32%Z :: trimEnd w
    end.
Proof.
  unfold trim at 1.
  destruct (blank_cases cur) as [(Hs & He & Ht)|(Hs & He & Ht)].
  - rewrite Ht, trimStart_app_ws by exact Hs.
    now rewrite trimStart_ws by reflexivity.
  - rewrite trimStart_app by exact Hs.
    destruct (trim cur) as [|c0 r0] eqn:Ec; [congruence|].
    destruct (blank_cases w) as [(Hs' & He' & Ht')|(Hs' & He' & Ht')].
    + rewrite Ht'. rewrite trimEnd_app_ws.
      * exact Ec.
      * apply trimEnd_nil. constructor; [reflexivity | now apply trimEnd_nil].
    + destruct (trim w) as [|c1 r1] eqn:Ew; [congruence|].
      rewrite trimEnd_app.
      * f_equal. change (32%Z :: w) with ([32%Z] ++ w).
        now rewrite trimEnd_app.
      * change (32%Z :: w) with ([32%Z] ++ w). rewrite trimEnd_app by exact He'.
        discriminate.
Qed.

Lemma trimStart_trimEnd_comm (s : list Z) :
  trimStart (trimEnd s) = trimEnd (trimStart s).
Proof.
  induction s as [|c r IH]; [reflexivity|].
  destruct (is_ws c) eqn:Ec.
  - rewrite (trimStart_ws c r Ec). change (c :: r) with ([c] ++ r).
    destruct (blank_cases r) as [(Hs & He & _)|(Hs & He & _)].
    + rewrite trimEnd_app_ws by exact He. rewrite Hs.
      change [c] with ([] ++ [c]). now rewrite trimEnd_ws.
    + rewrite trimEnd_app by exact He. cbn [app].
      now rewrite trimStart_ws.
  - rewrite (trimStart_head c r Ec).
    destruct (trimEnd_cons c r Ec) as [r' ->]. now apply trimStart_head.
Qed.

Lemma trim_trimEnd (s : list Z) : trim (trimEnd s) = trim s.
Proof.
  unfold trim. now rewrite trimStart_trimEnd_comm, trimEnd_idem.
Qed.

Lemma trim_trimStart (s : list Z) : trim (trimStart s) = trim s.
Proof. unfold trim. now rewrite trimStart_idem. Qed.

Lemma trimStart_In (c : Z) (s : list Z) : In c (trimStart s) -> In c s.
Proof.
  destruct (trimStart_suffix s) as [pre H]. intros Hi. rewrite H.
  apply in_or_app. now right.
Qed.

Lemma trimEnd_In (c : Z) (s : list Z) : In c (trimEnd s) -> In c s.
Proof.
  unfold trimEnd. rewrite <- in_rev. intros H%trimStart_In.
  now rewrite <- in_rev in H.
Qed.

Lemma title_words_piece (w : list Z) :
  ~ In 32%Z w -> title_words w = List.filter nonempty [trim w].
Proof. intros H. unfold title_words. now rewrite split_one. Qed.

Lemma title_words_sep (a b : list Z) :
  title_words (a ++ 32%Z :: b) = title_words a ++ title_words b.
Proof.
  unfold title_words. now rewrite split_sep, map_app, List.filter_app.
Qed.

Lemma title_words_join (cur w : list Z) :
  tight cur \/ ~ In 32%Z cur -> ~ In 32%Z w ->
  title_words (trim (cur ++ 32%Z :: w)) = title_words cur ++ title_words w.
Proof.
  intros Hc Hw. rewrite trim_join.
  assert (title_words (trim w) = title_words w) as Htw.
  { assert (~ In 32%Z (trim w)) as Hw' by (intros Hi; now apply Hw, trim_In).
    rewrite (title_words_piece w Hw), (title_words_piece (trim w) Hw').
    now rewrite trim_idem. }
  assert (trim cur <> [] -> title_words (trim cur) = title_words cur
                            /\ title_words (trimStart cur) = title_words cur)
    as Htc.
  { intros Hne. destruct Hc as [Ht|Hn].
    - rewrite (trim_tight cur Ht).
      destruct Ht as [(c & r & -> & Hcw) _].
      now rewrite trimStart_head.
    - assert (~ In 32%Z (trim cur)) as Hn1
        by (intros Hi; now apply Hn, trim_In).
      assert (~ In 32%Z (trimStart cur)) as Hn2
        by (intros Hi; now apply Hn, trimStart_In).
      rewrite (title_words_piece cur Hn), (title_words_piece _ Hn1),
        (title_words_piece _ Hn2).
      now rewrite trim_idem, trim_trimStart. }
  destruct (trim cur) as [|c0 r0] eqn:Ec.
  - rewrite Htw. destruct Hc as [Ht|Hn].
    + rewrite (trim_tight cur Ht) in Ec. destruct Ht as [(c & r & -> & _) _].
      discriminate Ec.
    + rewrite (title_words_piece cur Hn), Ec. reflexivity.
  - destruct (Htc ltac:(discriminate)) as [Htc1 Htc2].
    destruct (trim w) as [|c1 r1] eqn:Ew.
    + rewrite Htc1. rewrite (title_words_piece w Hw), Ew. cbn.
      now rewrite app_nil_r.
    + rewrite title_words_sep, Htc2. f_equal.
      assert (~ In 32%Z (trimEnd w)) as Hw'
        by (intros Hi; now apply Hw, trimEnd_In).
      rewrite (title_words_piece w Hw), (title_words_piece _ Hw').
      now rewrite trim_trimEnd.
Qed.

Lemma any_step_inv (done : list (list Z)) (st : list (list Z) * list Z)
  (w : list Z) :
  any_inv done st -> ~ In 32%Z w -> any_inv (done ++ [w]) (wrap_step st w).
Proof.
  destruct st as [lines cur]. intros (H1 & H2 & H3 & H4) Hw.
  cbn [fst snd] in *. unfold any_inv, wrap_step, maxCharsPerLine.
  rewrite map_app, List.filter_app, <- H4.
  change (List.filter nonempty (map trim [w]))
    with (List.filter nonempty [trim w]).
  rewrite <- (title_words_piece w Hw).
  change (cur ++ [32%Z] ++ w) with (cur ++ 32%Z :: w).
  destruct (Nat.leb_spec (length (trim (cur ++ 32%Z :: w))) 25) as [Hle|Hgt];
    cbn [fst snd].
  - split; [exact H1|]. split; [now left|]. split.
    + destruct (trim_tight_or_nil (cur ++ 32%Z :: w)) as [->|Ht];
        [right; now intros [] | now left].
    + rewrite title_words_join by assumption. now rewrite app_assoc.
  - split; [|split; [now right|split; [now right|]]].
    + destruct cur as [|c r]; [exact H1|]. cbn [nonempty].
      apply Forall_app. split; [exact H1|]. constructor; [|constructor].
      split; [discriminate | exact H2].
    + destruct cur as [|c r]; cbn [nonempty].
      * cbn. now rewrite app_nil_r.
      * rewrite flat_map_app. cbn [flat_map]. now rewrite app_nil_r.
Qed.

Lemma any_fold_inv (ws done : list (list Z)) (st : list (list Z) * list Z) :
  Forall (fun w => ~ In 32%Z w) ws -> any_inv done st ->
  any_inv (done ++ ws) (fold_left wrap_step ws st).
Proof.
  revert done st. induction ws as [|w ws IH]; intros done st Hws Hinv.
  - now rewrite app_nil_r.
  - inversion Hws as [|? ? Hw Hws']; subst. cbn [fold_left].
    replace (done ++ w :: ws) with ((done ++ [w]) ++ ws)
      by now rewrite <- app_assoc.
    apply IH; [exact Hws'|]. now apply any_step_inv.
Qed.

(** The lines of a title that is longer than 25, whatever its white
    space. *)
Lemma wrapLines_any (t : list Z) :
  25 < length t ->
  Forall (fun l => l <> [] /\ (length l <= 25 \/ ~ In 32%Z l)) (wrapLines t)
  /\ flat_map title_words (wrapLines t) = title_words t.
Proof.
  intros H. unfold wrapLines, maxCharsPerLine. apply Nat.ltb_lt in H.
  rewrite H.
  assert (any_inv [] ([], [])) as H0.
  { unfold any_inv. cbn. split; [constructor|]. split; [left; lia|].
    split; [right; now intros [] | reflexivity]. }
  pose proof (any_fold_inv (split 32 t) [] ([], [])) as Hf.
  cbn [app] in Hf. specialize (Hf ltac:(
    eapply Forall_impl; [apply (split_pieces 32 (fun _ => True));
                         now apply Forall_forall|]; now intros p [_ Hn]) H0).
  destruct (fold_left wrap_step (split 32 t) ([], [])) as [lines cur].
  destruct Hf as (H1 & H2 & H3 & H4). cbn [fst snd] in *.
  unfold flush. destruct cur as [|c r]; cbn [nonempty].
  - split; [exact H1|]. cbn in H4. now rewrite app_nil_r in H4.
  - split.
    + apply Forall_app. split; [exact H1|]. constructor; [|constructor].
      split; [discriminate | exact H2].
    + rewrite flat_map_app. cbn [flat_map]. now rewrite app_nil_r.
Qed.

(** A title without a space character is not cut at all. *)
Lemma wrapLines_one_piece (t : list Z) :
  25 < length t -> ~ In 32%Z t ->
  wrapLines t
  = if (length (trim t) <=? 25)%nat
    then (if nonempty (trim t) then [trim t] else [])
    else [t].
Proof.
  intros H Hn. unfold wrapLines, maxCharsPerLine.
  pose proof H as Hlt. apply Nat.ltb_lt in H. rewrite H.
  rewrite split_one by exact Hn. cbn [fold_left]. unfold wrap_step.
  change ([] ++ [32%Z] ++ t) with (32%Z :: t). rewrite trim_space_left.
  unfold maxCharsPerLine.
  destruct (length (trim t) <=? 25)%nat; cbn [flush nonempty].
  - reflexivity.
  - destruct t; [cbn in Hlt; lia | reflexivity].
Qed.

(** C4, as the code has it. The upper-cased title stays on one line
    when it has at most 25 characters; when it is longer and is one
    word (no white space in it), it stays on one line, which overflows;
    when it is longer and its words are set apart by spaces, its lines
    hold its words whole and in order, a line is longer than 25
    characters only when it is a single word, and each line after the
    first starts with a word that did not fit at the end of the line
    before it. Only the space character separates words: a longer
    title without one is not cut, whatever other white space it holds,
    and gives the title itself, or the trimmed title when that has at
    most 25 characters, or no line when it is white space only. For
    every longer title the lines are not empty, a line that is longer
    than 25 characters holds no space character, and the words of the
    lines, in order, are the words of the title, where a word is what
    stands between two space characters, without the other white space
    at its ends. *)
Theorem title_wrapping (toUpperCase : list Z -> list Z) (title : list Z) :
  (length (toUpperCase title) <= 25 ->
   titleLines toUpperCase title = [toUpperCase title])
  /\ (25 < length (toUpperCase title) -> no_space (toUpperCase title) ->
      titleLines toUpperCase title = [toUpperCase title])
  /\ (25 < length (toUpperCase title) -> spaced_plainly (toUpperCase title) ->
      flat_map (split 32) (titleLines toUpperCase title)
      = words_of (toUpperCase title)
      /\ Forall (fun line => length line <= 25 \/ ~ In 32%Z line)
           (titleLines toUpperCase title)
      /\ forall pre l1 l2 post w ws,
           titleLines toUpperCase title = pre ++ l1 :: l2 :: post ->
           split 32 l2 = w :: ws ->
           25 < length (l1 ++ 32%Z :: w))
  /\ (25 < length (toUpperCase title) -> ~ In 32%Z (toUpperCase title) ->
      titleLines toUpperCase title
      = if (length (trim (toUpperCase title)) <=? 25)%nat
        then (if nonempty (trim (toUpperCase title))
              then [trim (toUpperCase title)] else [])
        else [toUpperCase title])
  /\ (25 < length (toUpperCase title) ->
      Forall (fun line => line <> []
                          /\ (length line <= 25 \/ ~ In 32%Z line))
        (titleLines toUpperCase title)
      /\ flat_map title_words (titleLines toUpperCase title)
         = title_words (toUpperCase title)).
Proof.
  split; [|split; [|split; [|split]]];
    [| | |apply wrapLines_one_piece | apply wrapLines_any];
    unfold titleLines, wrapLines, maxCharsPerLine;
    set (T := toUpperCase title).
  - intros H. apply Nat.ltb_ge in H. now rewrite H.
  - intros H Hns. pose proof H as Hlt. apply Nat.ltb_lt in H. rewrite H.
    rewrite split_one by now apply no_space_not_In.
    assert (is_word T) as Hw.
    { split; [|exact Hns]. intros E. rewrite E in Hlt. cbn in Hlt. lia. }
    cbn [fold_left]. unfold wrap_step.
    change (trim ([] ++ [32%Z] ++ T)) with (trim (line_of [] ++ [32%Z] ++ T)).
    rewrite joined_nil_word by exact Hw. cbn [nonempty].
    assert (nonempty T = true) as Hne by (apply nonempty_true, Hw).
    destruct (length T <=? maxCharsPerLine)%nat; cbn [flush]; now rewrite Hne.
  - intros H Hsp. apply Nat.ltb_lt in H. rewrite H.
    pose proof (wrap_fold_inv (split 32 T) [] ([], [])
                  (pieces_no_space T Hsp) wrap_inv_start)
      as (wls & wc & -> & Hg & Hw & Hcat & Hfit & Hch & _).
    rewrite flush_with_current by exact Hw.
    pose proof (good_with_current wls wc Hg Hw) as Hgood.
    split; [|split].
    + rewrite flat_split by exact Hgood.
      now rewrite concat_with_current, Hcat.
    + now apply fits_or_one_word.
    + now apply breaks_in_text.
Qed.

(** The theorem at a title of 25 characters, at a word of 26 characters,
    at a title of five words, which wraps into two lines, and at a
    title of 27 characters whose words are set apart by tabs. *)
Lemma title_wrapping_witness :
  titleLines ascii_upper (js "chocolate chip cookie bar")
  = [js "CHOCOLATE CHIP COOKIE BAR"]
  /\ titleLines ascii_upper (js "supercalifragilisticexpial")
     = [js "SUPERCALIFRAGILISTICEXPIAL"]
  /\ flat_map (split 32)
       (titleLines ascii_upper (js "easy chocolate chip cookies recipe"))
     = words_of (js "EASY CHOCOLATE CHIP COOKIES RECIPE")
  /\ titleLines ascii_upper (js "easy chocolate chip cookies recipe")
     = [js "EASY CHOCOLATE CHIP"; js "COOKIES RECIPE"]
  /\ titleLines ascii_upper tabbed_title = [ascii_upper tabbed_title]
  /\ flat_map title_words (titleLines ascii_upper indented_title)
     = [js "AAAAAAAAAAAAAAAAAAAA"; js "BCDE"; js "F"].
Proof.
  split; [|split; [|split; [|split; [|split]]]].
  - apply (proj1 (title_wrapping ascii_upper (js "chocolate chip cookie bar"))).
    vm_compute. lia.
  - apply (proj1 (proj2 (title_wrapping ascii_upper
                           (js "supercalifragilisticexpial")))).
    + vm_compute. lia.
    + vm_compute. repeat constructor.
  - apply (proj1 (proj2 (proj2 (title_wrapping ascii_upper
                           (js "easy chocolate chip cookies recipe"))))).
    + vm_compute. lia.
    + vm_compute. repeat constructor; intros H; (discriminate H || reflexivity).
  - reflexivity.
  - apply (proj1 (proj2 (proj2 (proj2 (title_wrapping ascii_upper
                                         tabbed_title))))).
    + vm_compute. lia.
    + vm_compute. intuition discriminate.
  - apply (proj2 (proj2 (proj2 (proj2 (title_wrapping ascii_upper
                                         indented_title))))).
    vm_compute. lia.
Defined.

(** C4 as worded fails for words that other white space sets apart: a
    title of four words and 27 characters with tabs between the words
    stays on one line, which overflows; and where a word comes after
    tabs the wrapping is not greedy, the second line starts with a word
    that did fit at the end of the first. *)
Lemma tabbed_title_not_wrapped :
  ascii_upper tabbed_title
  = js "EASY" ++ [9%Z] ++ js "CHOCOLATE" ++ [9%Z] ++ js "CHIP" ++ [9%Z]
    ++ js "COOKIES"
  /\ is_ws 9 = true
  /\ titleLines ascii_upper tabbed_title = [ascii_upper tabbed_title]
  /\ length (ascii_upper tabbed_title) = 27
  /\ titleLines ascii_upper indented_title
     = [js "AAAAAAAAAAAAAAAAAAAA"; js "BCDE F"]
  /\ length (js "AAAAAAAAAAAAAAAAAAAA" ++ 32%Z :: js "BCDE") = 25.
Proof. repeat split. Qed.

End Wrap.

(** ** More on POST /api/post-pin *)

Module PostPin.

Import Json Render Poster Server Notions RouteNotions JSFacts StringFacts
  RenderFacts.

Lemma with_scheme_http (link : list Z) :
  startsWith (js "http") (with_scheme link) = true.
Proof.
  unfold with_scheme. destruct (startsWith (js "http") link) eqn:E;
    [exact E | reflexivity].
Qed.

Lemma normalizeLink_with_scheme (websiteUrl : list Z) (website_url : jsval)
  (link : list Z) :
  normalizeLink websiteUrl website_url = Ret link ->
  exists l, link = with_scheme l.
Proof.
  unfold normalizeLink, with_scheme.
  destruct (negb (truthy (VStr (trim websiteUrl)))
            || strict_eq (VStr (trim websiteUrl)) (VStr (js "https://"))
            || strict_eq (VStr (trim websiteUrl)) (VStr (js "http://"))).
  - destruct (truthy website_url).
    + destruct website_url as [[|b|n m e|s|l|o]|]; cbv [as_string JS.bind];
        try discriminate.
      intros <-%Ret_inj. exists s. now destruct (startsWith (js "http") s).
    + cbv [as_string JS.bind]. intros <-%Ret_inj. now exists default_site.
  - cbv [as_string JS.bind]. intros <-%Ret_inj. exists (trim websiteUrl).
    now destruct (startsWith (js "http") (trim websiteUrl)).
Qed.

Lemma hashtag_list_ret (v : jsval) (tags : list json) :
  hashtag_list v = Ret tags ->
  v = Some (JArr tags)
  \/ exists s, v = VStr s /\ tags = map JStr (map trim (split 44 s)).
Proof.
  destruct v as [[|b|n m e|s|l|o]|]; cbn [hashtag_list]; try discriminate.
  - intros [= <-]. right. now exists s.
  - intros [= <-]. now left.
Qed.

Lemma trimmed_piece (p : list Z) :
  ~ In 44%Z p -> trim (trim p) = trim p /\ ~ In 44%Z (trim p).
Proof.
  intros H. split; [apply trim_idem|]. intros Hi. apply H.
  now apply trim_In.
Qed.

Section Numbers.

Variable numberToString : bool -> Z -> Z -> list Z.

Lemma assemble_pin_link (w : world) (b : body) (pin : pinData) :
  assemble_pin numberToString w b = Ret pin ->
  exists url website_url,
    websiteUrl b = VStr url
    /\ normalizeLink url website_url = Ret (pin_link pin).
Proof.
  unfold assemble_pin.
  destruct (as_string (imageData b)) as [?|?]; [|discriminate].
  cbn [JS.bind]. destruct (save_image w) as [?|?]; [|discriminate].
  cbn [JS.bind].
  match goal with
  | |- JS.bind ?f _ = _ -> _ => destruct f as [[[[ft fd] fh] fa]|?];
                                  [|discriminate]
  end.
  cbn [JS.bind].
  destruct (websiteUrl b) as [[|?|? ? ?|url|?|?]|]; try discriminate.
  cbn [as_string JS.bind].
  destruct (config_field (config b) "website_url") as [wu|?]; [|discriminate].
  cbn [JS.bind]. destruct (normalizeLink url wu) as [l|?] eqn:El;
    [|discriminate].
  cbn [JS.bind].
  destruct (hashtag_list fh) as [tags|?]; cbn [JS.bind]; [|discriminate].
  intros <-%Ret_inj. now exists url, wu.
Qed.

(** X1. The link of every pin that is posted starts with http, whatever
    the request and the configuration hold; it is never empty. *)
Theorem posted_link_has_scheme
  (w : world) (env : gmap string (list Z)) (b : body)
  (env1 : gmap string (list Z)) (request : pin_request) :
  post_pin numberToString w env b = Publishes env1 request ->
  startsWith (js "http") (req_link request) = true
  /\ req_link request <> [].
Proof.
  intros H.
  destruct (Publish.post_pin_publishes numberToString _ _ _ _ _ H)
    as (_ & _ & pin & Ha & Hc).
  destruct (Publish.createPin_fields numberToString _ _ _ Hc)
    as (_ & _ & _ & _ & -> & _).
  destruct (assemble_pin_link _ _ _ Ha) as (url & wu & _ & Hl).
  destruct (normalizeLink_with_scheme _ _ _ Hl) as [l Hw].
  rewrite Hw.
  pose proof (with_scheme_http l) as Hs. split; [exact Hs|].
  intros E. rewrite E in Hs. discriminate Hs.
Qed.

Lemma assemble_pin_given (w : world) (b : body) (pin : pinData) :
  truthy (description b) = true ->
  assemble_pin numberToString w b = Ret pin ->
  pin_title pin = title b /\ pin_description pin = description b
  /\ pin_altText pin = altText b
  /\ hashtag_list (hashtags b) = Ret (pin_hashtags pin).
Proof.
  intros Hd. unfold assemble_pin. rewrite Hd. cbn [negb].
  destruct (as_string (imageData b)) as [?|?]; [|discriminate].
  cbn [JS.bind]. destruct (save_image w) as [?|?]; [|discriminate].
  cbn [JS.bind]. destruct (as_string (websiteUrl b)) as [url|?];
    [|discriminate].
  cbn [JS.bind].
  destruct (config_field (config b) "website_url") as [wu|?]; [|discriminate].
  cbn [JS.bind]. destruct (normalizeLink url wu) as [l|?]; [|discriminate].
  cbn [JS.bind].
  destruct (hashtag_list (hashtags b)) as [tags|?]; cbn [JS.bind];
    [|discriminate].
  intros <-%Ret_inj. cbn. auto.
Qed.

Lemma assemble_pin_generated (w : world) (b : body) (pin : pinData) :
  truthy (description b) = false ->
  assemble_pin numberToString w b = Ret pin ->
  exists s, generated w = Ret s
    /\ pin_title pin = (if truthy (title b) then title b else seo_title s)
    /\ pin_description pin = seo_description s
    /\ pin_altText pin = seo_altText s
    /\ hashtag_list (seo_hashtags s) = Ret (pin_hashtags pin).
Proof.
  intros Hd. unfold assemble_pin. rewrite Hd. cbn [negb].
  destruct (as_string (imageData b)) as [?|?]; [|discriminate].
  cbn [JS.bind]. destruct (save_image w) as [?|?]; [|discriminate].
  cbn [JS.bind].
  destruct (config_field (config b) "language") as [?|?]; [|discriminate].
  cbn [JS.bind].
  destruct (template numberToString (title b)) as [?|?]; [|discriminate].
  cbn [JS.bind]. destruct (generated w) as [s|?]; [|discriminate].
  cbn [JS.bind]. destruct (as_string (websiteUrl b)) as [url|?];
    [|discriminate].
  cbn [JS.bind].
  destruct (config_field (config b) "website_url") as [wu|?]; [|discriminate].
  cbn [JS.bind]. destruct (normalizeLink url wu) as [l|?]; [|discriminate].
  cbn [JS.bind].
  destruct (hashtag_list (seo_hashtags s)) as [tags|?] eqn:Eh; cbn [JS.bind];
    [|discriminate].
  intros <-%Ret_inj. exists s. cbn.
  destruct (truthy (title b)); auto.
Qed.

(** What a request that brings its description is posted with. *)
Lemma posted_given (w : world) (env : gmap string (list Z)) (b : body)
  (env1 : gmap string (list Z)) (request : pin_request) :
  truthy (description b) = true ->
  post_pin numberToString w env b = Publishes env1 request ->
  req_title request = title b /\ req_alt_text request = altText b
  /\ exists tags,
       hashtag_list (hashtags b) = Ret tags
       /\ fullDescription numberToString (description b) tags
          = Ret (req_description request).
Proof.
  intros Hd H.
  destruct (Publish.post_pin_publishes numberToString _ _ _ _ _ H)
    as (_ & _ & pin & Ha & Hc).
  destruct (Publish.createPin_fields numberToString _ _ _ Hc)
    as (_ & _ & -> & -> & _ & Hfull).
  destruct (assemble_pin_given _ _ _ Hd Ha) as (Ht & Hdesc & Halt & Htags).
  rewrite Hdesc in Hfull. repeat split; try assumption.
  now exists (pin_hashtags pin).
Qed.

Lemma posted_generated (w : world) (env : gmap string (list Z)) (b : body)
  (env1 : gmap string (list Z)) (request : pin_request) :
  truthy (description b) = false ->
  post_pin numberToString w env b = Publishes env1 request ->
  exists s tags,
    generated w = Ret s
    /\ req_title request = (if truthy (title b) then title b else seo_title s)
    /\ req_alt_text request = seo_altText s
    /\ hashtag_list (seo_hashtags s) = Ret tags
    /\ fullDescription numberToString (seo_description s) tags
       = Ret (req_description request).
Proof.
  intros Hd H.
  destruct (Publish.post_pin_publishes numberToString _ _ _ _ _ H)
    as (_ & _ & pin & Ha & Hc).
  destruct (Publish.createPin_fields numberToString _ _ _ Hc)
    as (_ & _ & -> & -> & _ & Hfull).
  destruct (assemble_pin_generated _ _ _ Hd Ha)
    as (s & Hg & Ht & Hdesc & Halt & Htags).
  rewrite Hdesc in Hfull. exists s, (pin_hashtags pin). now repeat split.
Qed.

(** X2. When the request brings its description and gives the hashtags
    as one string, the tags of the pin are the pieces between the
    commas of that string, each trimmed; the pieces hold no comma and,
    with commas between them, are the string, so there is one tag more
    than there are commas, and no tag has a comma or white space at an
    end. The description that is posted is the description of the
    request, a blank line and these tags, each with its hash sign. So
    an empty string gives one empty tag, and the description of the pin
    ends in a hash sign. *)
Theorem hashtags_from_string
  (w : world) (env : gmap string (list Z)) (b : body) (s : list Z)
  (env1 : gmap string (list Z)) (request : pin_request) :
  hashtags b = VStr s ->
  truthy (description b) = true ->
  post_pin numberToString w env b = Publishes env1 request ->
  join [44%Z] (split 44 s) = s
  /\ Forall (fun p => ~ In 44%Z p) (split 44 s)
  /\ length (split 44 s) = S (occurrences 44 s)
  /\ Forall (fun t => trim t = t /\ ~ In 44%Z t) (map trim (split 44 s))
  /\ fullDescription numberToString (description b)
       (map JStr (map trim (split 44 s)))
     = Ret (req_description request)
  /\ (forall d, description b = VStr d ->
      req_description request
      = d ++ [10%Z; 10%Z] ++ tags_text (map trim (split 44 s)))
  /\ (s = [] ->
      exists text,
        template numberToString (description b) = Ret text
        /\ req_description request = text ++ [10%Z; 10%Z; 35%Z]).
Proof.
  intros Hs Hd H.
  destruct (posted_given _ _ _ _ _ Hd H) as (_ & _ & tags & Htags & Hfull).
  rewrite Hs in Htags. cbn [hashtag_list] in Htags.
  apply Ret_inj in Htags. subst tags.
  pose proof (Wrap.split_pieces 44 (fun _ => True) s) as Hp.
  assert (Forall (fun p => ~ In 44%Z p) (split 44 s)) as Hpieces.
  { eapply Forall_impl; [apply Hp; now apply Forall_forall|].
    now intros p [_ Hn]. }
  split; [apply join_split|]. split; [exact Hpieces|].
  split; [apply split_length|]. split; [|split; [exact Hfull|split]].
  - apply Forall_map. eapply Forall_impl; [exact Hpieces|].
    intros p Hn. now apply trimmed_piece.
  - intros d Hdesc. rewrite Hdesc in Hfull.
    rewrite Hashtags.fullDescription_strings in Hfull.
    now apply Ret_inj in Hfull.
  - intros ->. unfold fullDescription in Hfull.
    destruct (template numberToString (description b)) as [text|e];
      cbn [JS.bind] in Hfull; [|discriminate].
    exists text. split; [reflexivity|].
    cbn in Hfull. now apply Ret_inj in Hfull.
Qed.

(** X3. Which content the pin gets. A request that brings a description
    is posted with its own title, description, hashtags and alt text,
    and the content generator has no part in it, even when the title
    is empty: the hashtags are the elements of the array the request
    gives, or the trimmed pieces of the string it gives, and a request
    whose hashtags are neither is not posted. A request without a
    description is posted with the generated description, hashtags and
    alt text, read in the same way, and with its own title only when
    it has one: the hashtags and the alt text of such a request are
    ignored. For a description that is a string and tags that are
    strings, the description that is posted is the description, a
    blank line and the tags, each with its hash sign. *)
Theorem content_selection
  (w : world) (env : gmap string (list Z)) (b : body) :
  (truthy (description b) = true ->
   (forall g,
       post_pin numberToString (World (save_image w) g) env b
       = post_pin numberToString w env b)
   /\ forall env1 request,
        post_pin numberToString w env b = Publishes env1 request ->
        req_title request = title b
        /\ req_alt_text request = altText b
        /\ ((exists l, hashtags b = Some (JArr l))
            \/ exists s, hashtags b = VStr s)
        /\ (forall l, hashtags b = Some (JArr l) ->
            fullDescription numberToString (description b) l
            = Ret (req_description request))
        /\ (forall s, hashtags b = VStr s ->
            fullDescription numberToString (description b)
              (map JStr (map trim (split 44 s)))
            = Ret (req_description request))
        /\ (forall d l, description b = VStr d ->
            hashtags b = Some (JArr (map JStr l)) ->
            req_description request = d ++ [10%Z; 10%Z] ++ tags_text l))
  /\ (truthy (description b) = false ->
      (forall h a,
          post_pin numberToString w env
            (Body (imageData b) (title b) (description b) h a
               (websiteUrl b) (config b))
          = post_pin numberToString w env b)
      /\ forall env1 request,
           post_pin numberToString w env b = Publishes env1 request ->
           exists s,
             generated w = Ret s
             /\ req_title request
                = (if truthy (title b) then title b else seo_title s)
             /\ req_alt_text request = seo_altText s
             /\ ((exists l, seo_hashtags s = Some (JArr l))
                 \/ exists t, seo_hashtags s = VStr t)
             /\ (forall l, seo_hashtags s = Some (JArr l) ->
                 fullDescription numberToString (seo_description s) l
                 = Ret (req_description request))
             /\ (forall t, seo_hashtags s = VStr t ->
                 fullDescription numberToString (seo_description s)
                   (map JStr (map trim (split 44 t)))
                 = Ret (req_description request))
             /\ (forall d l, seo_description s = VStr d ->
                 seo_hashtags s = Some (JArr (map JStr l)) ->
                 req_description request
                 = d ++ [10%Z; 10%Z] ++ tags_text l)).
Proof.
  split; intros Hd.
  - split.
    + intros g. unfold post_pin, prepare_pin, assemble_pin.
      cbn [save_image generated]. now rewrite Hd.
    + intros env1 request H.
      destruct (posted_given _ _ _ _ _ Hd H) as (Ht & Ha & tags & Htags & Hfull).
      split; [exact Ht|]. split; [exact Ha|].
      destruct (hashtag_list_ret _ _ Htags) as [Hl|(s & Hs & Htl)].
      * split; [left; now exists tags|]. rewrite Hl.
        split; [now intros l [= <-]|]. split; [discriminate|].
        intros d l Hdesc [= ->]. rewrite Hdesc in Hfull.
        rewrite Hashtags.fullDescription_strings in Hfull.
        now apply Ret_inj in Hfull.
      * split; [right; now exists s|]. rewrite Hs.
        split; [discriminate|]. split; [|discriminate].
        intros s' [= <-]. now rewrite <- Htl.
  - split.
    + intros h a. unfold post_pin, prepare_pin, check_credentials, assemble_pin.
      cbn [config imageData title description hashtags altText websiteUrl].
      now rewrite Hd.
    + intros env1 request H.
      destruct (posted_generated _ _ _ _ _ Hd H)
        as (s & tags & Hg & Ht & Ha & Htags & Hfull).
      exists s. split; [exact Hg|]. split; [exact Ht|]. split; [exact Ha|].
      destruct (hashtag_list_ret _ _ Htags) as [Hl|(t & Hs & Htl)].
      * split; [left; now exists tags|]. rewrite Hl.
        split; [now intros l [= <-]|]. split; [discriminate|].
        intros d l Hdesc [= ->]. rewrite Hdesc in Hfull.
        rewrite Hashtags.fullDescription_strings in Hfull.
        now apply Ret_inj in Hfull.
      * split; [right; now exists t|]. rewrite Hs.
        split; [discriminate|]. split; [|discriminate].
        intros s' [= <-]. now rewrite <- Htl.
Qed.

End Numbers.

(** The theorem at a request whose link has no scheme. *)
Lemma posted_link_has_scheme_witness :
  startsWith (js "http") (js "https://example.com") = true
  /\ js "https://example.com" <> [].
Proof.
  apply (posted_link_has_scheme (fun _ _ _ => js "0")
           (World (Ret tt) (Throw TypeError)) ∅
           (Body (VStr (js "data:image/jpeg;base64,AAAA")) (VStr (js "T"))
              (VStr (js "D")) (Some (JArr [JStr (js "a")])) (VStr (js "alt"))
              (VStr (js "example.com"))
              (CfgObj {[ "pinterest_token" := VStr (js "tok");
                         "pinterest_board" := VStr (js "b1") ]}))
           {[ "PINTEREST_ACCESS_TOKEN" := js "tok";
              "PINTEREST_BOARD_ID" := js "b1";
              "PINTEREST_SANDBOX" := js "false" ]}
           (PinRequest (Some (js "b1")) (VStr (js "T"))
              (js "D" ++ [10%Z; 10%Z] ++ js "#a") (VStr (js "alt"))
              (js "https://example.com") (Some (js "tok")))).
  vm_compute. reflexivity.
Defined.

(** The theorem at the hashtags [a, b c ,d] and at the empty string. *)
Lemma hashtags_from_string_witness :
  js "D" ++ [10%Z; 10%Z] ++ js "#a #b c #d"
  = js "D" ++ [10%Z; 10%Z] ++ tags_text (map trim (split 44 (js "a, b c ,d")))
  /\ exists text,
       template (fun _ _ _ => js "0") (VStr (js "D")) = Ret text
       /\ js "D" ++ [10%Z; 10%Z] ++ js "#" = text ++ [10%Z; 10%Z; 35%Z].
Proof.
  pose (cfg := CfgObj {[ "pinterest_token" := VStr (js "tok");
                         "pinterest_board" := VStr (js "b1") ]}).
  pose (b := fun s => Body (VStr (js "AAAA")) (VStr (js "T")) (VStr (js "D"))
                        (VStr s) (VStr (js "alt")) (VStr (js "x.y")) cfg).
  pose (r := fun d => PinRequest (Some (js "b1")) (VStr (js "T")) d
                        (VStr (js "alt")) (js "https://x.y")
                        (Some (js "tok"))).
  pose (e := ({[ "PINTEREST_ACCESS_TOKEN" := js "tok";
                 "PINTEREST_BOARD_ID" := js "b1";
                 "PINTEREST_SANDBOX" := js "false" ]} : gmap string (list Z))).
  split.
  - destruct (hashtags_from_string (fun _ _ _ => js "0")
                (World (Ret tt) (Throw TypeError)) ∅
                (b (js "a, b c ,d")) (js "a, b c ,d") e
                (r (js "D" ++ [10%Z; 10%Z] ++ js "#a #b c #d"))
                eq_refl eq_refl) as (_ & _ & _ & _ & _ & H & _);
      [vm_compute; reflexivity|].
    exact (H (js "D") eq_refl).
  - destruct (hashtags_from_string (fun _ _ _ => js "0")
                (World (Ret tt) (Throw TypeError)) ∅
                (b []) [] e
                (r (js "D" ++ [10%Z; 10%Z] ++ js "#"))
                eq_refl eq_refl) as (_ & _ & _ & _ & _ & _ & H);
      [vm_compute; reflexivity|].
    exact (H eq_refl).
Defined.

(** The theorem at a request with a description, and at one without a
    description whose alt text and hashtags are dropped. *)
Lemma content_selection_witness :
  let numberToString : bool -> Z -> Z -> list Z := fun _ _ _ => js "0" in
  let cfg := CfgObj {[ "pinterest_token" := VStr (js "tok");
                       "pinterest_board" := VStr (js "b1") ]} in
  let b d h a := Body (VStr (js "AAAA")) (VStr []) d h a (VStr (js "x.y")) cfg in
  let s := Seo (VStr (js "GT")) (VStr (js "GD")) (Some (JArr [JStr (js "g")]))
             (VStr (js "GA")) in
  post_pin numberToString (World (Ret tt) (Ret s)) ∅
    (b (VStr (js "D")) (Some (JArr [JStr (js "a")])) (VStr (js "alt")))
  = post_pin numberToString (World (Ret tt) (Throw TypeError)) ∅
      (b (VStr (js "D")) (Some (JArr [JStr (js "a")])) (VStr (js "alt")))
  /\ post_pin numberToString (World (Ret tt) (Ret s)) ∅
       (b VUndef (Some (JArr [JStr (js "a")])) (VStr (js "alt")))
     = post_pin numberToString (World (Ret tt) (Ret s)) ∅ (b VUndef VUndef VUndef).
Proof.
  intros numberToString cfg b s. split.
  - exact (proj1 (proj1 (content_selection numberToString
                           (World (Ret tt) (Throw TypeError))
                           ∅ (b (VStr (js "D")) (Some (JArr [JStr (js "a")]))
                                (VStr (js "alt"))))
                    eq_refl) (Ret s)).
  - exact (proj1 (proj2 (content_selection numberToString
                           (World (Ret tt) (Ret s)) ∅
                           (b VUndef VUndef VUndef))
                    eq_refl) (Some (JArr [JStr (js "a")])) (VStr (js "alt"))).
Defined.

End PostPin.

(** ** The alphabets of the encoders *)

Module CodecFacts.

Import Notions RouteNotions JSFacts StringFacts.

Local Open Scope Z_scope.

Ltac tests :=
  repeat match goal with
         | |- context [?a <? ?b] => destruct (Z.ltb_spec a b)
         | |- context [?a =? ?b] => destruct (Z.eqb_spec a b)
         | |- context [?a <=? ?b] => destruct (Z.leb_spec a b)
         end.

Lemma b64char_alphabet (n : Z) :
  0 <= n < 64 -> base64_char (Base64.b64char n) = true.
Proof.
  intros Hn. unfold base64_char, Uri.is_alnum, Base64.b64char.
  tests; simpl; try reflexivity; lia.
Qed.

Lemma base64_encode_alphabet (bs : list Z) :
  is_bytes bs -> Forall (fun c => base64_char c = true) (Base64.encode bs).
Proof.
  unfold is_bytes.
  induction bs as [|a|a b|a b c r IH] using Base64Facts.list_ind3; intros Hb.
  - constructor.
  - inversion Hb as [|? ? Ha _]; subst. cbn [Base64.encode].
    repeat constructor; apply b64char_alphabet; Z.div_mod_to_equations; lia.
  - inversion Hb as [|? ? Ha Hb']; subst.
    inversion Hb' as [|? ? Hb2 _]; subst. cbn [Base64.encode].
    repeat constructor; apply b64char_alphabet; Z.div_mod_to_equations; lia.
  - inversion Hb as [|? ? Ha Hb']; subst.
    inversion Hb' as [|? ? Hb2 Hb'']; subst.
    inversion Hb'' as [|? ? Hc Hr]; subst. cbn [Base64.encode].
    repeat (constructor;
            [apply b64char_alphabet; Z.div_mod_to_equations; lia|]).
    now apply IH.
Qed.

Lemma unbase64_range (c n : Z) : Base64.unbase64 c = Some n -> 0 <= n < 64.
Proof.
  unfold Base64.unbase64. cbv zeta.
  generalize (Base64.low_byte c). intros b.
  tests; simpl; intros [= <-]; lia.
Qed.

Lemma sextets_range (s : list Z) :
  Forall (fun n => 0 <= n < 64) (Base64.sextets s).
Proof.
  induction s as [|c s IH]; cbn [Base64.sextets]; [constructor|].
  destruct (Base64.low_byte c =? 61); [constructor|].
  destruct (Base64.unbase64 c) as [n|] eqn:E; [|exact IH].
  constructor; [now apply (unbase64_range c) | exact IH].
Qed.

Lemma list_ind4 (A : Type) (P : list A -> Prop) :
  P [] -> (forall a, P [a]) -> (forall a b, P [a; b]) ->
  (forall a b c, P [a; b; c]) ->
  (forall a b c d r, P r -> P (a :: b :: c :: d :: r)) ->
  forall l, P l.
Proof.
  intros H0 H1 H2 H3 H4.
  assert (forall l, P l /\ (forall a, P (a :: l))
                    /\ (forall a b, P (a :: b :: l))
                    /\ (forall a b c, P (a :: b :: c :: l))) as H.
  { induction l as [|x l (IH0 & IH1 & IH2 & IH3)]; [now auto|].
    split; [exact (IH1 x)|]. split; [exact (fun a => IH2 a x)|].
    split; [exact (fun a b => IH3 a b x)|].
    intros a b c. now apply H4. }
  intros l. apply H.
Qed.

(** Whatever the text, the base64 reader makes bytes of it. *)
Lemma base64_decode_bytes (s : list Z) : is_bytes (Base64.decode s).
Proof.
  unfold Base64.decode, is_bytes. pose proof (sextets_range s) as H.
  induction (Base64.sextets s) as [|a|a b|a b c|a b c d r IH] using list_ind4;
    cbn [Base64.bytes_of_sextets].
  - constructor.
  - constructor.
  - inversion H as [|? ? Ha H']; subst. inversion H' as [|? ? Hb _]; subst.
    repeat constructor; Z.div_mod_to_equations; lia.
  - inversion H as [|? ? Ha H']; subst. inversion H' as [|? ? Hb H'']; subst.
    inversion H'' as [|? ? Hc _]; subst.
    repeat constructor; Z.div_mod_to_equations; lia.
  - inversion H as [|? ? Ha H']; subst. inversion H' as [|? ? Hb H'']; subst.
    inversion H'' as [|? ? Hc H3]; subst. inversion H3 as [|? ? Hd Hr]; subst.
    repeat (constructor; [Z.div_mod_to_equations; lia|]). now apply IH.
Qed.

Lemma wf_is_hi (c : Z) (r : list Z) :
  wf_string (c :: r) = true -> 0 <= c < 65536 /\ wf_string r = true.
Proof. apply JsonFacts.wf_string_cons. Qed.

Lemma utf8_encode_cons (a : Z) (r : list Z) :
  Utf8.encode (a :: r)
  = if Utf8.is_hi a then
      match r with
      | d :: r' =>
        if Utf8.is_lo d
        then Utf8.encode_cp (65536 + (a - 55296) * 1024 + (d - 56320))
             ++ Utf8.encode r'
        else Utf8.encode_cp 65533 ++ Utf8.encode r
      | [] => Utf8.encode_cp 65533
      end
    else if Utf8.is_lo a then Utf8.encode_cp 65533 ++ Utf8.encode r
    else Utf8.encode_cp a ++ Utf8.encode r.
Proof. reflexivity. Qed.

Lemma encodeURIComponent_cons (c : Z) (r : list Z) :
  Uri.encodeURIComponent (c :: r)
  = if Uri.unreserved c then option_map (cons c) (Uri.encodeURIComponent r)
    else if Utf8.is_hi c then
      match r with
      | d :: r' =>
        if Utf8.is_lo d
        then option_map
               (app (flat_map Uri.percent
                       (Utf8.encode_cp
                          (65536 + (c - 55296) * 1024 + (d - 56320)))))
               (Uri.encodeURIComponent r')
        else None
      | [] => None
      end
    else if Utf8.is_lo c then None
    else option_map (app (flat_map Uri.percent (Utf8.encode_cp c)))
           (Uri.encodeURIComponent r).
Proof. reflexivity. Qed.

(** The UTF-8 of a string of code units is a sequence of bytes, lone
    surrogates included. *)
Lemma utf8_encode_bytes (s : list Z) :
  wf_string s = true -> is_bytes (Utf8.encode s).
Proof.
  unfold is_bytes.
  induction s as [|a|a b r IH1 IH2] using Utf8Facts.list_ind2; intros Hw.
  - constructor.
  - apply wf_is_hi in Hw as [Ha _]. rewrite utf8_encode_cons.
    change (Utf8.encode []) with (@nil Z).
    destruct (Utf8.is_hi a) eqn:E1;
      [apply Utf8Facts.encode_cp_bytes; lia|].
    destruct (Utf8.is_lo a) eqn:E2; rewrite ?app_nil_r;
      apply Utf8Facts.encode_cp_bytes; lia.
  - pose proof Hw as Hw'. apply wf_is_hi in Hw as [Ha Hw].
    pose proof Hw as Hbr. apply wf_is_hi in Hw as [Hb Hr].
    rewrite utf8_encode_cons. destruct (Utf8.is_hi a) eqn:E1.
    + destruct (Utf8.is_lo b) eqn:E2.
      * apply Forall_app. split; [|now apply IH1].
        apply Utf8Facts.encode_cp_bytes. unfold Utf8.is_hi, Utf8.is_lo in *.
        lia.
      * apply Forall_app. split; [apply Utf8Facts.encode_cp_bytes; lia|].
        now apply IH2.
    + destruct (Utf8.is_lo a) eqn:E2.
      * apply Forall_app. split; [apply Utf8Facts.encode_cp_bytes; lia|].
        now apply IH2.
      * apply Forall_app. split; [apply Utf8Facts.encode_cp_bytes; lia|].
        now apply IH2.
Qed.

Lemma hexupper_alnum (n : Z) :
  0 <= n < 16 -> Uri.is_alnum (Uri.hexupper n) = true.
Proof.
  intros H. unfold Uri.is_alnum, Uri.hexupper. tests; simpl; try reflexivity; lia.
Qed.

Lemma percent_chars (b : Z) :
  0 <= b < 256 ->
  Forall (fun c => c = 37 \/ Uri.is_alnum c = true) (Uri.percent b).
Proof.
  intros H. unfold Uri.percent.
  apply Forall_cons. split; [now left|].
  apply Forall_cons. split;
    [right; apply hexupper_alnum; Z.div_mod_to_equations; lia|].
  apply Forall_cons. split;
    [right; apply hexupper_alnum; Z.div_mod_to_equations; lia|].
  constructor.
Qed.

Lemma form_byte_chars (b : Z) :
  0 <= b < 256 -> Forall (fun c => form_char c = true) (Uri.form_byte b).
Proof.
  intros H. unfold Uri.form_byte, form_char.
  destruct (Z.eqb_spec b 32); [repeat constructor|].
  destruct (Uri.form_safe b) eqn:E.
  - repeat constructor. now rewrite E.
  - eapply Forall_impl; [apply percent_chars; exact H|].
    intros c [->|Hc]; [reflexivity|]. unfold Uri.form_safe. now rewrite Hc.
Qed.

(** The serializer writes letters, digits and [* - . _ + %] only. *)
Lemma urlencoded_chars (s : list Z) :
  wf_string s = true -> Forall (fun c => form_char c = true) (Uri.urlencoded s).
Proof.
  intros H. unfold Uri.urlencoded. pose proof (utf8_encode_bytes s H) as Hb.
  unfold is_bytes in Hb. induction Hb as [|b bs Hb _ IH]; [constructor|].
  cbn [flat_map]. apply Forall_app. split; [now apply form_byte_chars | exact IH].
Qed.

Lemma percent_all_chars (bs : list Z) :
  is_bytes bs ->
  Forall (fun c => component_char c = true) (flat_map Uri.percent bs).
Proof.
  unfold is_bytes. induction 1 as [|b bs Hb _ IH]; [constructor|].
  cbn [flat_map]. apply Forall_app. split; [|exact IH].
  eapply Forall_impl; [apply percent_chars; exact Hb|].
  intros c [->|Hc]; [reflexivity|]. unfold component_char, Uri.unreserved.
  now rewrite Hc.
Qed.

(** [encodeURIComponent] writes unreserved characters and escapes
    only. *)
Lemma encodeURIComponent_chars (s e : list Z) :
  wf_string s = true -> Uri.encodeURIComponent s = Some e ->
  Forall (fun c => component_char c = true) e.
Proof.
  revert e. induction s as [|a|a b r IH1 IH2] using Utf8Facts.list_ind2;
    intros e Hw.
  - intros [= <-]. constructor.
  - apply wf_is_hi in Hw as [Ha _]. rewrite encodeURIComponent_cons.
    change (Uri.encodeURIComponent []) with (Some (@nil Z)).
    cbn [option_map].
    destruct (Uri.unreserved a) eqn:E0.
    { intros [= <-]. repeat constructor. unfold component_char.
      now rewrite E0. }
    destruct (Utf8.is_hi a) eqn:E1; [discriminate|].
    destruct (Utf8.is_lo a) eqn:E2; [discriminate|].
    intros [= <-]. rewrite app_nil_r. apply percent_all_chars.
    apply Utf8Facts.encode_cp_bytes. lia.
  - apply wf_is_hi in Hw as [Ha Hw]. pose proof Hw as Hbr.
    apply wf_is_hi in Hw as [Hb Hr]. rewrite encodeURIComponent_cons.
    destruct (Uri.unreserved a) eqn:E0.
    { destruct (Uri.encodeURIComponent (b :: r)) as [e'|] eqn:E;
        [|discriminate].
      intros [= <-]. constructor; [|now apply IH2].
      unfold component_char. now rewrite E0. }
    destruct (Utf8.is_hi a) eqn:E1.
    { destruct (Utf8.is_lo b) eqn:E2; [|discriminate].
      destruct (Uri.encodeURIComponent r) as [e'|] eqn:E; [|discriminate].
      intros [= <-]. apply Forall_app. split; [|now apply IH1].
      apply percent_all_chars, Utf8Facts.encode_cp_bytes.
      unfold Utf8.is_hi, Utf8.is_lo in *. lia. }
    destruct (Utf8.is_lo a) eqn:E2; [discriminate|].
    destruct (Uri.encodeURIComponent (b :: r)) as [e'|] eqn:E; [|discriminate].
    intros [= <-]. apply Forall_app. split; [|now apply IH2].
    apply percent_all_chars, Utf8Facts.encode_cp_bytes. lia.
Qed.

(** A text without the separator is one piece, and a text is cut at the
    first separator after a piece without one. *)
Lemma not_In_chars (P : Z -> bool) (c : Z) (s : list Z) :
  P c = false -> Forall (fun x => P x = true) s -> ~ In c s.
Proof.
  intros Hc Hs Hi. rewrite Forall_forall in Hs.
  apply list_elem_of_In in Hi. specialize (Hs c Hi). congruence.
Qed.

End CodecFacts.

(** ** The image of the pin *)

Module MediaFacts.

Import Media Notions RouteNotions JSFacts StringFacts CodecFacts.

Lemma sextets_app (p s : list Z) :
  forallb (fun c => negb (Base64.low_byte c =? 61)%Z) p = true ->
  Base64.sextets (p ++ s) = Base64.sextets p ++ Base64.sextets s.
Proof.
  induction p as [|c p IH]; intros Hn; [reflexivity|].
  cbn [forallb] in Hn. apply andb_true_iff in Hn as [Hc Hp].
  cbn [app Base64.sextets]. apply negb_true_iff in Hc. rewrite Hc.
  rewrite IH by exact Hp. now destruct (Base64.unbase64 c).
Qed.

Lemma base64Data_prefixed (payload : list Z) :
  base64Data (jpeg_prefix ++ payload) = payload.
Proof.
  unfold base64Data. rewrite startsWith_same. apply drop_app_length.
Qed.

Lemma base64Data_plain (bs : list Z) :
  is_bytes bs -> base64Data (Base64.encode bs) = Base64.encode bs.
Proof.
  intros Hb. unfold base64Data.
  destruct (startsWith jpeg_prefix (Base64.encode bs)) eqn:E; [|reflexivity].
  exfalso. apply startsWith_prefix in E as [r Hr].
  apply (not_In_chars base64_char 58 (Base64.encode bs));
    [reflexivity | now apply base64_encode_alphabet |].
  rewrite Hr. apply in_or_app. left. vm_compute. tauto.
Qed.

(** X4. The image on its way through the handler. Whatever the request
    sends as image data, what [createPin] posts decodes to the very
    bytes that were written to the file. When the request sends the
    base64 text of a sequence of bytes, with the JPEG data-URL prefix
    or without any prefix, what is posted is that base64 text. *)
Theorem posted_image (imageData bs : list Z) :
  Base64.decode (base64Image (written_file imageData))
  = written_file imageData
  /\ (is_bytes bs ->
      written_file (jpeg_prefix ++ Base64.encode bs) = bs
      /\ base64Image (written_file (jpeg_prefix ++ Base64.encode bs))
         = Base64.encode bs
      /\ base64Image (written_file (Base64.encode bs)) = Base64.encode bs).
Proof.
  split.
  - unfold base64Image. apply Base64Facts.base64_decode_encode.
    apply base64_decode_bytes.
  - intros Hb. unfold base64Image, written_file.
    rewrite base64Data_prefixed, base64Data_plain by exact Hb.
    now rewrite Base64Facts.base64_decode_encode by exact Hb.
Qed.

(** The theorem at the three bytes 255, 216, 255, with which a JPEG file
    starts. *)
Lemma posted_image_witness :
  written_file (js "data:image/jpeg;base64,/9j/") = [255; 216; 255]%Z
  /\ base64Image (written_file (js "data:image/jpeg;base64,/9j/")) = js "/9j/"
  /\ base64Image (written_file (js "/9j/")) = js "/9j/".
Proof.
  apply (proj2 (posted_image [] [255; 216; 255]%Z)).
  unfold is_bytes. repeat constructor; lia.
Defined.

(** X5. An image that is not announced as JPEG. Only the prefix
    [data:image/jpeg;base64,] is taken off the image data. For a PNG
    data URL the prefix stays, the base64 reader takes its letters,
    digits and slash for image data, and whatever the payload is, the
    file that is written starts with the same fourteen bytes, which
    come from the prefix; the payload behind them is read out of
    step. *)
Theorem png_prefix_kept (payload : list Z) :
  base64Data (js "data:image/png;base64," ++ payload)
  = js "data:image/png;base64," ++ payload
  /\ written_file (js "data:image/png;base64," ++ payload)
     = Base64.decode (js "dataimage/pngbase64" ++ payload)
  /\ take 14 (written_file (js "data:image/png;base64," ++ payload))
     = [117; 171; 90; 138; 102; 160; 123; 250; 103; 129; 182; 172; 123; 174]%Z.
Proof.
  assert (base64Data (js "data:image/png;base64," ++ payload)
          = js "data:image/png;base64," ++ payload) as Hkept.
  { unfold base64Data.
    destruct (startsWith jpeg_prefix (js "data:image/png;base64," ++ payload))
      eqn:E; [|reflexivity].
    apply startsWith_prefix in E as [r Hr].
    apply (f_equal (take 12)) in Hr. vm_compute in Hr. discriminate Hr. }
  assert (Base64.sextets (js "data:image/png;base64," ++ payload)
          = [29; 26; 45; 26; 34; 38; 26; 32; 30; 63; 41; 39; 32; 27; 26; 44;
             30; 58; 56]%Z ++ Base64.sextets payload) as Hpng.
  { rewrite sextets_app by (vm_compute; reflexivity).
    f_equal. }
  assert (Base64.sextets (js "dataimage/pngbase64" ++ payload)
          = [29; 26; 45; 26; 34; 38; 26; 32; 30; 63; 41; 39; 32; 27; 26; 44;
             30; 58; 56]%Z ++ Base64.sextets payload) as Hletters.
  { rewrite sextets_app by (vm_compute; reflexivity).
    f_equal. }
  unfold written_file. rewrite Hkept. unfold Base64.decode.
  rewrite Hpng, Hletters. split; [reflexivity|]. split; [reflexivity|].
  destruct (Base64.sextets payload) as [|s0 rest]; vm_compute; reflexivity.
Qed.

End MediaFacts.

(** ** The authorization redirect *)

Module AuthorizeFacts.

Import Json Server Uri Authorize Notions RouteNotions JSFacts StringFacts
  CodecFacts.

(** Without a lone surrogate there is no URIError. *)
Lemma encodeURIComponent_total (s : list Z) :
  paired s = true -> exists e, encodeURIComponent s = Some e.
Proof.
  induction s as [|a|a b r IH1 IH2] using Utf8Facts.list_ind2; intros Hp.
  - now exists [].
  - rewrite encodeURIComponent_cons.
    change (encodeURIComponent []) with (Some (@nil Z)). cbn [option_map].
    destruct (unreserved a); [eauto|].
    destruct (Utf8.is_hi a) eqn:Ea; [cbn [paired] in Hp; now rewrite Ea in Hp|].
    rewrite Utf8Facts.paired_plain in Hp by exact Ea.
    destruct (Utf8.is_lo a); [discriminate Hp | eauto].
  - rewrite encodeURIComponent_cons. destruct (Utf8.is_hi a) eqn:Ea.
    + rewrite Utf8Facts.paired_pair in Hp by exact Ea.
      apply andb_true_iff in Hp as [Hb Hr]. rewrite Hb.
      destruct (IH1 Hr) as [e ->]. cbn [option_map].
      assert (unreserved a = false) as ->
        by (unfold unreserved, is_alnum, Utf8.is_hi in *; lia).
      eauto.
    + rewrite Utf8Facts.paired_plain in Hp by exact Ea.
      destruct (IH2 ltac:(lia)) as [e ->]. cbn [option_map].
      destruct (unreserved a); [eauto|].
      destruct (Utf8.is_lo a); [|eauto]. cbn in Hp. lia.
Qed.

Lemma nonempty_trim (s : list Z) :
  nonempty (trim s) = false <-> Forall (fun c => is_ws c = true) s.
Proof. now rewrite nonempty_false, trim_nil. Qed.

(** What [(p || '').trim()] makes of a parameter. *)
Lemma trimmed_cases (p : option qval) :
  (not_a_string p /\ trimmed p = Throw TypeError)
  \/ (~ not_a_string p /\ trimmed p = Ret (trim (text_of p))
      /\ (nonempty (trim (text_of p)) = false <-> blank p)).
Proof.
  destruct p as [[s|l|o]|].
  - right. split; [intros (v & [= <-] & H); now apply (H s)|].
    split; [reflexivity|]. cbn [text_of]. rewrite nonempty_trim. unfold blank.
    split; [intros H; right; now exists s|].
    intros [H|(s' & [= <-] & H)]; [discriminate | exact H].
  - left. split; [|reflexivity]. exists (QArr l). split; [reflexivity|].
    discriminate.
  - left. split; [|reflexivity]. exists (QObj o). split; [reflexivity|].
    discriminate.
  - right. split; [intros (v & H & _); discriminate|].
    split; [reflexivity|]. split; [intros _; now left | reflexivity].
Qed.

Lemma is_text_spec (p : option qval) (text : list Z) :
  is_text p text = true <-> p = Some (QStr text).
Proof.
  destruct p as [[s|l|o]|]; cbn [is_text]; try (split; discriminate).
  rewrite streq_true. split; [now intros -> | now intros [= ->]].
Qed.

(** When the handler goes on to the redirect. *)
Lemma auth_pinterest_redirect (q : auth_query) (cleanId stateData : list Z) :
  auth_pinterest q = RedirectToPlatform cleanId stateData ->
  cleanId = trim (text_of (q_client_id q)) /\ cleanId <> []
  /\ stateData
     = encode_state cleanId (trim (text_of (q_client_secret q)))
         (is_text (q_sandbox q) (js "true"))
  /\ ~ blank (q_client_id q) /\ ~ blank (q_client_secret q)
  /\ ~ not_a_string (q_client_id q)
  /\ ~ not_a_string (q_client_secret q).
Proof.
  unfold auth_pinterest.
  destruct (trimmed_cases (q_client_id q)) as [[Hi ->]|(Hi & -> & Hbi)];
    cbn [JS.bind]; [discriminate|].
  destruct (trimmed_cases (q_client_secret q)) as [[Hs ->]|(Hs & -> & Hbs)];
    cbn [JS.bind]; [discriminate|].
  destruct (nonempty (trim (text_of (q_client_id q)))) eqn:Ei;
    [|discriminate].
  destruct (nonempty (trim (text_of (q_client_secret q)))) eqn:Es;
    [|discriminate].
  cbn [negb orb]. intros [= <- <-]. split; [reflexivity|].
  split; [now apply nonempty_true|]. split; [reflexivity|].
  assert (~ blank (q_client_id q)) by (rewrite <- Hbi; congruence).
  assert (~ blank (q_client_secret q)) by (rewrite <- Hbs; congruence).
  tauto.
Qed.

(** X6. What the authorize step answers. It throws, and the error is a
    TypeError, exactly when the client id or the client secret is there
    and is not a string, as for a parameter that is given twice; no
    page of the handler is sent then. Otherwise it answers with the
    configuration-error page, status 400, exactly when the client id or
    the client secret is absent, empty or white space only; in every
    other case the client id it sends on is the trimmed one, which is
    not empty, the state is made of it, of the trimmed secret and of
    whether the sandbox parameter is the string true, and it redirects
    unless [encodeURIComponent] throws,
    which takes a lone surrogate in the redirect URI that the headers
    give. *)
Theorem authorize_refuses_blank (h : headers) (q : auth_query) :
  (authorize h q = Throws TypeError
   <-> not_a_string (q_client_id q) \/ not_a_string (q_client_secret q))
  /\ (forall e, authorize h q = Throws e -> e = TypeError)
  /\ (authorize h q = ConfigurationError 400
      <-> ~ not_a_string (q_client_id q)
          /\ ~ not_a_string (q_client_secret q)
          /\ (blank (q_client_id q) \/ blank (q_client_secret q)))
  /\ (forall status, authorize h q = ConfigurationError status -> status = 400%Z)
  /\ (forall cleanId stateData,
        auth_pinterest q = RedirectToPlatform cleanId stateData ->
        cleanId = trim (text_of (q_client_id q)) /\ cleanId <> []
        /\ (exists sandbox,
              (sandbox = true <-> q_sandbox q = Some (QStr (js "true")))
              /\ stateData
                 = encode_state cleanId (trim (text_of (q_client_secret q)))
                     sandbox)
        /\ ~ blank (q_client_id q) /\ ~ blank (q_client_secret q)
        /\ ~ not_a_string (q_client_id q)
        /\ ~ not_a_string (q_client_secret q))
  /\ (authorize h q = ThrowsURIError -> paired (redirect_uri h) = false).
Proof.
  assert (authorize h q = ThrowsURIError -> paired (redirect_uri h) = false)
    as Huri.
  { unfold authorize, authUrl, authQuery.
    destruct (auth_pinterest q); try discriminate.
    destruct (paired (redirect_uri h)) eqn:Ep; [|reflexivity].
    destruct (encodeURIComponent_total _ Ep) as [e ->]. discriminate. }
  split; [|split; [|split; [|split; [|split; [|exact Huri]]]]]; clear Huri;
    unfold authorize, auth_pinterest;
    destruct (trimmed_cases (q_client_id q)) as [[Hi ->]|(Hi & -> & Hbi)];
    cbn [JS.bind];
    try (destruct (trimmed_cases (q_client_secret q))
           as [[Hs ->]|(Hs & -> & Hbs)]; cbn [JS.bind]);
    try (destruct (nonempty (trim (text_of (q_client_id q)))) eqn:Ei;
         destruct (nonempty (trim (text_of (q_client_secret q)))) eqn:Es;
         cbn [negb orb]);
    try (assert (~ blank (q_client_id q))
           as Hni by (rewrite <- Hbi; congruence));
    try (assert (~ blank (q_client_secret q))
           as Hns by (rewrite <- Hbs; congruence));
    try (assert (blank (q_client_id q)) as Hyi by now apply Hbi);
    try (assert (blank (q_client_secret q)) as Hys by now apply Hbs);
    try tauto; try discriminate;
    try (now intros ? [= <-]);
    try (split; [discriminate | tauto]);
    try (destruct (authUrl _ _ _); (split; [discriminate | tauto])).
  - intros e. destruct (authUrl _ _ _); discriminate.
  - intros status. destruct (authUrl _ _ _); discriminate.
  - intros cleanId stateData [= <- <-]. split; [reflexivity|].
    split; [now apply nonempty_true|].
    split; [|tauto]. exists (is_text (q_sandbox q) (js "true")).
    split; [apply is_text_spec | reflexivity].
Qed.

(** The theorem at a query whose secret is two spaces, at the query
    [client_id= X ], [client_secret=Y], and at a query that gives the
    secret twice. *)
Lemma authorize_refuses_blank_witness :
  authorize (Headers None (Some (js "localhost:3000")))
    (AuthQuery (Some (QStr (js "X"))) (Some (QStr (js "  "))) None)
  = ConfigurationError 400
  /\ (js "X" = trim (js " X ") /\ js "X" <> [])
  /\ authorize (Headers None (Some (js "localhost:3000")))
       (AuthQuery (Some (QStr (js "X")))
          (Some (QArr [QStr (js "a"); QStr (js "b")])) None)
     = Throws TypeError.
Proof.
  split; [|split].
  - apply (proj1 (proj2 (proj2 (authorize_refuses_blank
                    (Headers None (Some (js "localhost:3000")))
                    (AuthQuery (Some (QStr (js "X"))) (Some (QStr (js "  ")))
                       None))))).
    split; [intros (v & [= <-] & H); now apply (H (js "X"))|].
    split; [intros (v & [= <-] & H); now apply (H (js "  "))|].
    right. right. exists (js "  "). split; [reflexivity|].
    repeat constructor.
  - destruct (proj1 (proj2 (proj2 (proj2 (proj2 (authorize_refuses_blank
                              (Headers None None)
                              (AuthQuery (Some (QStr (js " X ")))
                                 (Some (QStr (js "Y"))) None))))))
                (js "X") (encode_state (js "X") (js "Y") false))
      as (H1 & H2 & _); [vm_compute; reflexivity|].
    exact (conj H1 H2).
  - apply (proj1 (authorize_refuses_blank
                    (Headers None (Some (js "localhost:3000")))
                    (AuthQuery (Some (QStr (js "X")))
                       (Some (QArr [QStr (js "a"); QStr (js "b")])) None))).
    right. eexists. split; [reflexivity | discriminate].
Defined.

Lemma state_alphabet (id secret : list Z) (sb : bool) :
  wf_string id = true -> wf_string secret = true ->
  Forall (fun c => base64_char c = true) (encode_state id secret sb).
Proof.
  intros Hi Hs. unfold encode_state. apply base64_encode_alphabet.
  apply Utf8Facts.encode_bytes. now apply OAuthState.paired_state.
Qed.

Lemma authQuery_split (cleanId encoded stateData : list Z) :
  ~ In 38%Z cleanId -> ~ In 38%Z encoded -> ~ In 38%Z stateData ->
  split 38
    (js "client_id=" ++ cleanId ++ js "&redirect_uri=" ++ encoded
     ++ js "&response_type=code&scope=" ++ scopes
     ++ js "&state=" ++ stateData)
  = [js "client_id=" ++ cleanId; js "redirect_uri=" ++ encoded;
     js "response_type=code"; js "scope=" ++ scopes;
     js "state=" ++ stateData].
Proof.
  intros Hc He Hs.
  replace (js "client_id=" ++ cleanId ++ js "&redirect_uri=" ++ encoded
           ++ js "&response_type=code&scope=" ++ scopes
           ++ js "&state=" ++ stateData)
    with ((js "client_id=" ++ cleanId) ++ 38%Z ::
          ((js "redirect_uri=" ++ encoded) ++ 38%Z ::
           (js "response_type=code" ++ 38%Z ::
            ((js "scope=" ++ scopes) ++ 38%Z ::
             (js "state=" ++ stateData))))).
  2:{ rewrite <- !app_assoc. reflexivity. }
  assert (forall p s, ~ In 38%Z p -> ~ In 38%Z s -> ~ In 38%Z (p ++ s)) as Happ.
  { intros p s Hp Hs' Hi. apply in_app_or in Hi. tauto. }
  rewrite Wrap.split_cons
    by (apply Happ; [vm_compute; intuition discriminate | exact Hc]).
  rewrite Wrap.split_cons
    by (apply Happ; [vm_compute; intuition discriminate | exact He]).
  rewrite Wrap.split_cons by (vm_compute; intuition discriminate).
  rewrite Wrap.split_cons by (vm_compute; intuition discriminate).
  rewrite Wrap.split_one
    by (apply Happ; [vm_compute; intuition discriminate | exact Hs]).
  reflexivity.
Qed.

Lemma encoded_text_app (a b : list Z) :
  encoded_text a = true -> encoded_text b = true ->
  encoded_text (a ++ b) = true.
Proof.
  induction a as [|c r IH]; intros Ha Hb; [exact Hb|].
  cbn [encoded_text app] in *. apply andb_true_iff in Ha as [Hc Hr].
  rewrite (IH Hr Hb), andb_true_r.
  destruct (c =? 37)%Z; [|exact Hc].
  destruct r as [|x [|y r']]; try discriminate Hc. exact Hc.
Qed.

Lemma encoded_text_plain (s : list Z) :
  Forall (fun c => url_plain c = true) s -> encoded_text s = true.
Proof.
  induction 1 as [|c r Hc _ IH]; [reflexivity|]. cbn [encoded_text].
  rewrite IH, andb_true_r. destruct (Z.eqb_spec c 37) as [->|_];
    [discriminate Hc | exact Hc].
Qed.

Lemma hexupper_hex (n : Z) : (0 <= n < 16)%Z -> is_hex (hexupper n) = true.
Proof.
  intros H. unfold is_hex, hexupper. CodecFacts.tests; simpl;
    try reflexivity; lia.
Qed.

Lemma hex_plain (c : Z) : is_hex c = true -> url_plain c = true.
Proof.
  intros H. assert (is_alnum c = true) as Ha
    by (unfold is_hex in H; unfold is_alnum; lia).
  unfold url_plain, unreserved. now rewrite Ha.
Qed.

Lemma encoded_text_percent (bs : list Z) :
  is_bytes bs -> encoded_text (flat_map percent bs) = true.
Proof.
  unfold is_bytes. induction 1 as [|b bs Hb _ IH]; [reflexivity|].
  cbn [flat_map]. apply encoded_text_app; [|exact IH].
  assert (is_hex (hexupper (b / 16)) = true) as H1
    by (apply hexupper_hex; Z.div_mod_to_equations; lia).
  assert (is_hex (hexupper (b mod 16)) = true) as H2
    by (apply hexupper_hex; Z.div_mod_to_equations; lia).
  unfold percent. cbn [encoded_text]. change (37 =? 37)%Z with true.
  rewrite H1, H2. cbn [andb].
  apply hex_plain in H1, H2.
  destruct (hexupper (b / 16) =? 37)%Z eqn:E1;
    [apply Z.eqb_eq in E1; rewrite E1 in H1; discriminate H1|].
  destruct (hexupper (b mod 16) =? 37)%Z eqn:E2;
    [apply Z.eqb_eq in E2; rewrite E2 in H2; discriminate H2|].
  now rewrite H1, H2.
Qed.

(** In what [encodeURIComponent] writes every percent sign starts an
    escape. *)
Lemma encodeURIComponent_encoded (s e : list Z) :
  wf_string s = true -> encodeURIComponent s = Some e ->
  encoded_text e = true.
Proof.
  assert (forall c r, unreserved c = true -> encoded_text r = true ->
                      encoded_text (c :: r) = true) as Hcons.
  { intros c r Hc Hr. apply (encoded_text_app [c] r); [|exact Hr].
    apply encoded_text_plain. repeat constructor. unfold url_plain.
    now rewrite Hc. }
  revert e. induction s as [|a|a b r IH1 IH2] using Utf8Facts.list_ind2;
    intros e Hw.
  - now intros [= <-].
  - apply wf_is_hi in Hw as [Ha _]. rewrite encodeURIComponent_cons.
    change (encodeURIComponent []) with (Some (@nil Z)).
    cbn [option_map].
    destruct (unreserved a) eqn:E0.
    { intros [= <-]. now apply Hcons. }
    destruct (Utf8.is_hi a) eqn:E1; [discriminate|].
    destruct (Utf8.is_lo a) eqn:E2; [discriminate|].
    intros [= <-]. rewrite app_nil_r. apply encoded_text_percent.
    apply Utf8Facts.encode_cp_bytes. lia.
  - apply wf_is_hi in Hw as [Ha Hw]. pose proof Hw as Hbr.
    apply wf_is_hi in Hw as [Hb Hr]. rewrite encodeURIComponent_cons.
    destruct (unreserved a) eqn:E0.
    { destruct (encodeURIComponent (b :: r)) as [e'|] eqn:E;
        [|discriminate].
      intros [= <-]. apply Hcons; [exact E0 | now apply IH2]. }
    destruct (Utf8.is_hi a) eqn:E1.
    { destruct (Utf8.is_lo b) eqn:E2; [|discriminate].
      destruct (encodeURIComponent r) as [e'|] eqn:E; [|discriminate].
      intros [= <-]. apply encoded_text_app; [|now apply IH1].
      apply encoded_text_percent, Utf8Facts.encode_cp_bytes.
      unfold Utf8.is_hi, Utf8.is_lo in *. lia. }
    destruct (Utf8.is_lo a) eqn:E2; [discriminate|].
    destruct (encodeURIComponent (b :: r)) as [e'|] eqn:E; [|discriminate].
    intros [= <-]. apply encoded_text_app; [|now apply IH2].
    apply encoded_text_percent, Utf8Facts.encode_cp_bytes. lia.
Qed.

Lemma base64_plain (s : list Z) :
  Forall (fun c => base64_char c = true) s -> encoded_text s = true.
Proof.
  intros H. apply encoded_text_plain. eapply Forall_impl; [exact H|].
  intros c. unfold base64_char, url_plain, unreserved.
  destruct (is_alnum c); [reflexivity|]. cbn [orb]. lia.
Qed.

Lemma encoded_text_no_hash (s : list Z) :
  encoded_text s = true -> ~ In 35%Z s.
Proof.
  induction s as [|c r IH]; [now intros _ []|].
  cbn [encoded_text]. intros [Hc Hr]%andb_true_iff [->|Hi];
    [discriminate Hc | now apply IH].
Qed.

(** A redirect is the URL with the cleaned parameters of the query. *)
Lemma authorize_shape (h : headers) (q : auth_query) (url : list Z) :
  authorize h q = Redirect url ->
  exists encoded,
    encodeURIComponent (redirect_uri h) = Some encoded
    /\ url = js "https://www.pinterest.com/oauth/?" ++ js "client_id="
             ++ trim (text_of (q_client_id q)) ++ js "&redirect_uri="
             ++ encoded ++ js "&response_type=code&scope=" ++ scopes
             ++ js "&state="
             ++ encode_state (trim (text_of (q_client_id q)))
                  (trim (text_of (q_client_secret q)))
                  (is_text (q_sandbox q) (js "true")).
Proof.
  intros Hr. unfold authorize in Hr.
  destruct (auth_pinterest q) as [?|cleanId stateData|?] eqn:Ea;
    try discriminate Hr.
  destruct (auth_pinterest_redirect _ _ _ Ea) as (-> & _ & -> & _).
  unfold authUrl, authQuery in Hr.
  destruct (encodeURIComponent (redirect_uri h)) as [encoded|];
    [|discriminate Hr].
  cbn [option_map] in Hr. injection Hr as <-. now exists encoded.
Qed.

(** X7. The parameters of the authorization URL, which is the text the
    handler hands to [res.redirect]. When the trimmed client id holds
    no ampersand and nothing a percent-encoder of URLs would encode,
    which leaves out the number sign, the whole URL holds nothing to
    encode either, so it is redirected to as it is written, and its
    query is cut by its ampersands into exactly five parameters: the
    client id as it is, the redirect URI, the response type, the scopes
    and the state. The redirect URI holds unreserved characters and
    percent escapes only, so no header of the request can add a
    parameter, and the state is the base64 text of the authorize
    step. *)
Theorem authorize_parameters (h : headers) (q : auth_query) (url : list Z) :
  wf_string (text_of (q_client_id q)) = true ->
  wf_string (text_of (q_client_secret q)) = true ->
  wf_string (redirect_uri h) = true ->
  encoded_text (trim (text_of (q_client_id q))) = true ->
  ~ In 38%Z (trim (text_of (q_client_id q))) ->
  authorize h q = Redirect url ->
  exists query encoded stateData,
    url = js "https://www.pinterest.com/oauth/?" ++ query
    /\ encoded_text url = true
    /\ ~ In 35%Z url
    /\ encodeURIComponent (redirect_uri h) = Some encoded
    /\ Forall (fun c => component_char c = true) encoded
    /\ (exists sandbox,
          (sandbox = true <-> q_sandbox q = Some (QStr (js "true")))
          /\ stateData
             = encode_state (trim (text_of (q_client_id q)))
                 (trim (text_of (q_client_secret q))) sandbox)
    /\ split 38 query
       = [js "client_id=" ++ trim (text_of (q_client_id q));
          js "redirect_uri=" ++ encoded;
          js "response_type=code";
          js "scope=" ++ scopes;
          js "state=" ++ stateData].
Proof.
  intros Hi Hs Hh Hid Hamp Hr.
  destruct (authorize_shape h q url Hr) as (encoded & Ee & ->).
  pose proof (encodeURIComponent_chars _ _ Hh Ee) as Hchars.
  pose proof (state_alphabet _ _ (is_text (q_sandbox q) (js "true"))
                (OAuthState.wf_trim _ Hi) (OAuthState.wf_trim _ Hs)) as Hst.
  assert (encoded_text
            (js "https://www.pinterest.com/oauth/?" ++ js "client_id="
             ++ trim (text_of (q_client_id q)) ++ js "&redirect_uri="
             ++ encoded ++ js "&response_type=code&scope=" ++ scopes
             ++ js "&state="
             ++ encode_state (trim (text_of (q_client_id q)))
                  (trim (text_of (q_client_secret q)))
                  (is_text (q_sandbox q) (js "true")))
          = true) as Henc.
  { repeat apply encoded_text_app; try reflexivity; try exact Hid.
    - now apply (encodeURIComponent_encoded (redirect_uri h)).
    - now apply base64_plain. }
  eexists _, encoded, _. split; [reflexivity|]. split; [exact Henc|].
  split; [now apply encoded_text_no_hash|].
  split; [exact Ee|].
  split; [exact Hchars|].
  split; [exists (is_text (q_sandbox q) (js "true"));
          split; [apply is_text_spec | reflexivity]|].
  apply authQuery_split; [exact Hamp | |].
  - now apply (not_In_chars component_char).
  - now apply (not_In_chars base64_char).
Qed.

(** The theorem at the client id X, the secret Y and the headers of a
    request that came through a proxy to example.com. *)
Lemma authorize_parameters_witness :
  exists query encoded stateData,
    js "https://www.pinterest.com/oauth/?client_id=X&redirect_uri=https%3A%2F%2Fexample.com%2Fcallback&response_type=code&scope=boards:read,boards:write,pins:read,pins:write,user_accounts:read&state="
    ++ encode_state (js "X") (js "Y") false
    = js "https://www.pinterest.com/oauth/?" ++ query
    /\ encoded_text
         (js "https://www.pinterest.com/oauth/?client_id=X&redirect_uri=https%3A%2F%2Fexample.com%2Fcallback&response_type=code&scope=boards:read,boards:write,pins:read,pins:write,user_accounts:read&state="
          ++ encode_state (js "X") (js "Y") false) = true
    /\ ~ In 35%Z
         (js "https://www.pinterest.com/oauth/?client_id=X&redirect_uri=https%3A%2F%2Fexample.com%2Fcallback&response_type=code&scope=boards:read,boards:write,pins:read,pins:write,user_accounts:read&state="
          ++ encode_state (js "X") (js "Y") false)
    /\ encodeURIComponent (js "https://example.com/callback") = Some encoded
    /\ Forall (fun c => component_char c = true) encoded
    /\ (exists sandbox,
          (sandbox = true <-> @None qval = Some (QStr (js "true")))
          /\ stateData = encode_state (js "X") (js "Y") sandbox)
    /\ split 38 query
       = [js "client_id=" ++ js "X";
          js "redirect_uri=" ++ encoded;
          js "response_type=code";
          js "scope=" ++ scopes;
          js "state=" ++ stateData].
Proof.
  apply (authorize_parameters
           (Headers (Some (js "https")) (Some (js "example.com")))
           (AuthQuery (Some (QStr (js "X"))) (Some (QStr (js "Y"))) None)).
  - reflexivity.
  - reflexivity.
  - reflexivity.
  - reflexivity.
  - vm_compute. intuition discriminate.
  - vm_compute. reflexivity.
Defined.

End AuthorizeFacts.

(** ** The token exchange *)

Module ExchangeFacts.

Import Json Render Server Uri Authorize Exchange Notions RouteNotions JSFacts
  StringFacts RenderFacts CodecFacts PagesFacts.

(** X8. The body of the token request. Whatever the authorization code
    and the headers of the request hold, the body that is posted to
    the platform is cut by its ampersands into exactly three fields,
    the grant type, the code and the redirect URI, and the values of
    the last two hold no equals sign: the code, which comes from the
    query of the callback, cannot add a field or change another. *)
Theorem token_form_fields (code redirect : list Z) :
  wf_string code = true -> wf_string redirect = true ->
  split 38 (form_body code redirect)
  = [js "grant_type=authorization_code";
     js "code=" ++ urlencoded code;
     js "redirect_uri=" ++ urlencoded redirect]
  /\ ~ In 61%Z (urlencoded code) /\ ~ In 61%Z (urlencoded redirect)
  /\ ~ In 38%Z (urlencoded code) /\ ~ In 38%Z (urlencoded redirect).
Proof.
  intros Hc Hr.
  pose proof (urlencoded_chars code Hc) as Hcc.
  pose proof (urlencoded_chars redirect Hr) as Hrc.
  assert (forall c, form_char c = false ->
            ~ In c (urlencoded code) /\ ~ In c (urlencoded redirect)) as Hno.
  { intros c Hf. split; now apply (not_In_chars form_char). }
  destruct (Hno 38%Z eq_refl) as [Hc38 Hr38].
  destruct (Hno 61%Z eq_refl) as [Hc61 Hr61].
  split; [|tauto].
  replace (form_body code redirect)
    with (js "grant_type=authorization_code" ++ 38%Z ::
          ((js "code=" ++ urlencoded code) ++ 38%Z ::
           (js "redirect_uri=" ++ urlencoded redirect))).
  2:{ unfold form_body. rewrite <- !app_assoc. reflexivity. }
  assert (forall p s, ~ In 38%Z p -> ~ In 38%Z s -> ~ In 38%Z (p ++ s)) as Happ.
  { intros p s Hp Hs' Hi. apply in_app_or in Hi. tauto. }
  rewrite Wrap.split_cons by (vm_compute; intuition discriminate).
  rewrite Wrap.split_cons
    by (apply Happ; [vm_compute; intuition discriminate | exact Hc38]).
  rewrite Wrap.split_one
    by (apply Happ; [vm_compute; intuition discriminate | exact Hr38]).
  reflexivity.
Qed.

(** The theorem at a code that holds an ampersand, an equals sign and a
    space. *)
Lemma token_form_fields_witness :
  split 38 (form_body (js "a&code=b c") (js "http://h/callback"))
  = [js "grant_type=authorization_code";
     js "code=" ++ js "a%26code%3Db+c";
     js "redirect_uri=" ++ js "http%3A%2F%2Fh%2Fcallback"]
  /\ ~ In 61%Z (js "a%26code%3Db+c") /\ ~ In 61%Z (js "http%3A%2F%2Fh%2Fcallback")
  /\ ~ In 38%Z (js "a%26code%3Db+c") /\ ~ In 38%Z (js "http%3A%2F%2Fh%2Fcallback").
Proof.
  apply (token_form_fields (js "a&code=b c") (js "http://h/callback"));
    reflexivity.
Defined.

Lemma callback_after_authorize (bufferFromObject : qval -> exc (list Z))
  (q : auth_query) (code cid st : list Z) :
  wf_string (text_of (q_client_id q)) = true ->
  wf_string (text_of (q_client_secret q)) = true ->
  code <> [] ->
  auth_pinterest q = RedirectToPlatform cid st ->
  callback bufferFromObject
    (CallbackQuery (Some (QStr code)) None None (Some (QStr st)))
  = ExchangesToken (QStr code)
      (Credentials
         (Some (JStr (trim (text_of (q_client_id q)))))
         (Some (JStr (trim (text_of (q_client_secret q)))))
         (Some (JBool (is_text (q_sandbox q) (js "true"))))).
Proof.
  intros Hi Hs Hc Ha.
  destruct (AuthorizeFacts.auth_pinterest_redirect _ _ _ Ha)
    as (-> & Hne & -> & Hbi & Hbs & _ & Hss).
  assert (trim (text_of (q_client_secret q)) <> []) as Hns.
  { intros E. apply Hbs. destruct (q_client_secret q) as [[s|l|o]|].
    - right. exists s. split; [reflexivity|]. now apply trim_nil.
    - destruct Hss. exists (QArr l). split; [reflexivity | discriminate].
    - destruct Hss. exists (QObj o). split; [reflexivity | discriminate].
    - now left. }
  apply nonempty_true in Hc.
  unfold callback, without_error.
  cbn [q_error q_code q_state present]. rewrite Hc.
  rewrite OAuthState.recover_encoded;
    [reflexivity | now apply OAuthState.wf_trim | now apply OAuthState.wf_trim
     | exact Hne | exact Hns].
Qed.

Lemma basic_decodes (id secret : list Z) :
  paired id = true -> paired secret = true ->
  Utf8.decode (Base64.decode (basic id secret)) = id ++ js ":" ++ secret.
Proof.
  intros Hi Hs. unfold basic.
  assert (paired (id ++ js ":" ++ secret) = true) as Hp.
  { repeat apply Utf8Facts.paired_app; (assumption || reflexivity). }
  rewrite Base64Facts.base64_decode_encode
    by now apply Utf8Facts.encode_bytes.
  now apply Utf8Facts.utf8_decode_encode.
Qed.

(** X9. From the authorize step to the token request. For a client id
    and a client secret that are not blank, the callback that comes
    back with a code and the state of the authorize step sends the
    platform a token request whose Basic credentials are the base64
    text of the trimmed client id, a colon and the trimmed client
    secret (read back as such when they hold no lone surrogate), and
    whose body carries the code and the redirect URI of the request's
    own headers. The sandbox flag of the state has no part in it. *)
Theorem exchange_credentials
  (numberToString : bool -> Z -> Z -> list Z)
  (bufferFromObject : qval -> exc (list Z)) (h : headers) (q : auth_query)
  (code cid st : list Z) :
  wf_string (text_of (q_client_id q)) = true ->
  wf_string (text_of (q_client_secret q)) = true ->
  code <> [] ->
  auth_pinterest q = RedirectToPlatform cid st ->
  exists c,
    callback bufferFromObject
      (CallbackQuery (Some (QStr code)) None None (Some (QStr st)))
    = ExchangesToken (QStr code) c
    /\ token_request_of numberToString h (QStr code) c
       = Ret (TokenRequest
                (js "Basic "
                 ++ basic (trim (text_of (q_client_id q)))
                      (trim (text_of (q_client_secret q))))
                (form_body code (redirect_uri h)))
    /\ (paired (trim (text_of (q_client_id q))) = true ->
        paired (trim (text_of (q_client_secret q))) = true ->
        Utf8.decode
          (Base64.decode
             (basic (trim (text_of (q_client_id q)))
                (trim (text_of (q_client_secret q)))))
        = trim (text_of (q_client_id q)) ++ js ":"
          ++ trim (text_of (q_client_secret q))).
Proof.
  intros Hi Hs Hc Ha. eexists. split; [|split].
  - now apply (callback_after_authorize bufferFromObject q code cid st).
  - reflexivity.
  - apply basic_decodes.
Qed.

(** The theorem at the query [client_id= X ], [client_secret=Y] and the
    code [c]. *)
Lemma exchange_credentials_witness :
  exists c,
    callback (fun _ => Throw TypeError)
      (CallbackQuery (Some (QStr (js "c"))) None None
         (Some (QStr (encode_state (js "X") (js "Y") false))))
    = ExchangesToken (QStr (js "c")) c
    /\ token_request_of (fun _ _ _ => []) (Headers None (Some (js "h")))
         (QStr (js "c")) c
       = Ret (TokenRequest (js "Basic WDpZ")
                (js "grant_type=authorization_code&code=c&redirect_uri=http%3A%2F%2Fh%2Fcallback"))
    /\ (paired (js "X") = true -> paired (js "Y") = true ->
        Utf8.decode (Base64.decode (js "WDpZ")) = js "X:Y").
Proof.
  apply (exchange_credentials (fun _ _ _ => []) (fun _ => Throw TypeError)
           (Headers None (Some (js "h")))
           (AuthQuery (Some (QStr (js " X "))) (Some (QStr (js "Y"))) None)
           (js "c") (js "X") (encode_state (js "X") (js "Y") false));
    (reflexivity || discriminate).
Defined.

Section Pages.

Variable numberToString : bool -> Z -> Z -> list Z.
Variable JSON_stringify : json -> list Z.

(** X10. The page of a failed token exchange. Whenever the page is sent,
    its status is the status of the platform's answer, or 500 when
    there is no answer or its status is 0, and its hints are never
    empty: they are the credentials hints, the redirect-URI hints, both
    in that order, or the one general hint; with status 401 the
    credentials hints come first. An error gets out of the [catch]
    block only as a TypeError and only when the body of the answer is
    an object with members (whose error_description or message is then
    not a string). Without an answer the page has status 500 and shows
    the text of an empty object. *)
Theorem connection_failed_page (response : option (Z * json)) :
  (forall status detail hints,
      connection_failed numberToString JSON_stringify response
      = ConnectionFailedPage status detail hints ->
      status = statusCode response /\ status <> 0%Z
      /\ (hints = hints_generic \/ hints = hints_credentials
          \/ hints = hints_mismatch
          \/ hints = hints_credentials ++ hints_mismatch)
      /\ (status = 401%Z ->
          hints = hints_credentials
          \/ hints = hints_credentials ++ hints_mismatch))
  /\ (forall e,
        connection_failed numberToString JSON_stringify response = Unhandled e ->
        e = TypeError
        /\ exists status members,
             members <> [] /\ response = Some (status, JObj members))
  /\ (forall token,
        connection_failed numberToString JSON_stringify response
        <> ConnectionSuccessPage token)
  /\ (response = None ->
      exists hints,
        connection_failed numberToString JSON_stringify response
        = ConnectionFailedPage 500 (JSON_stringify (JObj [])) hints).
Proof.
  split; [|split; [|split]].
  - intros status detail hints. unfold connection_failed.
    destruct (detail_of JSON_stringify (errorData response)) as [d|e];
      cbn [JS.bind]; [|discriminate].
    destruct (Z.eqb_spec (statusCode response) 401) as [E401|E401];
      cbn [JS.bind].
    + destruct (includes_of d (js "redirect_uri")) as [[]|e]; cbn [JS.bind];
        [| |discriminate];
        (destruct (ToString numberToString d) as [text|e]; cbn [JS.bind];
         [|discriminate]);
        intros [= <- <- <-];
        (split; [reflexivity|]); (split; [apply statusCode_nonzero|]);
        cbn; tauto.
    + destruct (includes_of d (js "invalid_client")) as [[]|e]; cbn [JS.bind];
        [| |discriminate];
        (destruct (includes_of d (js "redirect_uri")) as [[]|e];
         cbn [JS.bind]; [| |discriminate]);
        (destruct (ToString numberToString d) as [text|e]; cbn [JS.bind];
         [|discriminate]);
        intros [= <- <- <-];
        (split; [reflexivity|]); (split; [apply statusCode_nonzero|]);
        (split; [cbn; tauto | congruence]).
  - intros e. apply connection_failed_unhandled.
  - intros token. unfold connection_failed.
    destruct (detail_of JSON_stringify (errorData response)); cbn [JS.bind];
      [|discriminate].
    destruct (statusCode response =? 401)%Z; cbn [JS.bind];
      repeat match goal with
             | |- context [JS.bind ?x _] => destruct x; cbn [JS.bind]
             end; discriminate.
  - intros ->. apply connection_failed_none.
Qed.


(** X11. An answer of the platform without a token. When the platform
    answers the token request with success and its body has no
    access_token, the callback still sends the success page, and the
    token it hands to the window that opened it is the text
    [undefined]; a post-pin request whose config carries that text as
    its token is refused, with the token-missing error whenever the
    fields of the config can be stored. *)
Theorem token_undefined
  (h : headers) (code : qval) (c : credentials) (rq : token_request)
  (data : json) (w : world) (env : gmap string (list Z)) (b : body)
  (o : gmap string jsval) :
  token_request_of numberToString h code c = Ret rq ->
  get_prop data (js "access_token") = Ret None ->
  config b = CfgObj o ->
  prop o "pinterest_token" = VStr (js "undefined") ->
  exchange numberToString JSON_stringify h code c (Resolved data)
  = ConnectionSuccessPage (js "undefined")
  /\ (exists e, post_pin numberToString w env b = Failed 500 e)
  /\ (storable numberToString o ->
      post_pin numberToString w env b = Failed 500 token_missing).
Proof.
  intros Hr Hd Hc Ht.
  assert ((setupEnv numberToString (config b) env).2 = Ret tt ->
          post_pin numberToString w env b = Failed 500 token_missing) as Hret.
  { intros Hs. unfold post_pin, prepare_pin, check_credentials, env_set.
    cbv zeta. rewrite Hs. cbn [JS.bind]. rewrite Hc in *.
    cbn [setupEnv] in *.
    pose proof (Merge.setupEnv_fields_key numberToString o env Hs) as Hk.
    rewrite Forall_forall in Hk.
    specialize (Hk ("pinterest_token", "PINTEREST_ACCESS_TOKEN")
                  ltac:(apply list_elem_of_In; cbn; tauto)).
    cbn [fst snd] in Hk. rewrite Ht in Hk. cbn in Hk. rewrite Hk.
    reflexivity. }
  split; [|split].
  - unfold exchange. now rewrite Hr, Hd.
  - destruct ((setupEnv numberToString (config b) env).2) as [[]|e] eqn:Es.
    + exists token_missing. now apply Hret.
    + exists e. unfold post_pin. cbv zeta. now rewrite Es.
  - intros Hst. apply Hret. rewrite Hc. cbn [setupEnv].
    now apply Merge.setupEnv_fields_returns.
Qed.

End Pages.

(** The theorem without an answer, and at an answer with status 401 and
    the body [invalid_client]. *)
Lemma connection_failed_page_witness :
  (exists hints,
      connection_failed (fun _ _ _ => []) (fun _ => js "{}") None
      = ConnectionFailedPage 500 (js "{}") hints)
  /\ 401%Z <> 0%Z.
Proof.
  split.
  - apply (proj2 (proj2 (proj2 (connection_failed_page (fun _ _ _ => [])
                                  (fun _ => js "{}") None)))).
    reflexivity.
  - apply (proj1 (connection_failed_page (fun _ _ _ => []) (fun _ => js "{}")
                    (Some (401%Z, JStr (js "invalid_client"))))
             401%Z (js "invalid_client") hints_credentials).
    reflexivity.
Defined.

(** The theorem at an answer whose body is an empty object. *)
Lemma token_undefined_witness :
  exchange (fun _ _ _ => []) (fun _ => js "{}") (Headers None None)
    (QStr (js "c"))
    (Credentials (Some (JStr (js "X"))) (Some (JStr (js "Y"))) None)
    (Resolved (JObj []))
  = ConnectionSuccessPage (js "undefined")
  /\ post_pin (fun _ _ _ => []) (World (Ret tt) (Throw TypeError)) ∅
       (Body (VStr (js "AAAA")) (VStr (js "T")) (VStr (js "D"))
          (Some (JArr [])) (VStr (js "alt")) (VStr (js "x.y"))
          (CfgObj {[ "pinterest_token" := VStr (js "undefined");
                     "pinterest_board" := VStr (js "b1") ]}))
     = Failed 500 token_missing.
Proof.
  destruct (token_undefined (fun _ _ _ => []) (fun _ => js "{}")
              (Headers None None) (QStr (js "c"))
              (Credentials (Some (JStr (js "X"))) (Some (JStr (js "Y"))) None)
              (TokenRequest (js "Basic WDpZ")
                 (js "grant_type=authorization_code&code=c&redirect_uri=http%3A%2F%2Fundefined%2Fcallback"))
              (JObj []) (World (Ret tt) (Throw TypeError)) ∅
              (Body (VStr (js "AAAA")) (VStr (js "T")) (VStr (js "D"))
                 (Some (JArr [])) (VStr (js "alt")) (VStr (js "x.y"))
                 (CfgObj {[ "pinterest_token" := VStr (js "undefined");
                            "pinterest_board" := VStr (js "b1") ]}))
              {[ "pinterest_token" := VStr (js "undefined");
                 "pinterest_board" := VStr (js "b1") ]})
    as (H1 & _ & H2); [vm_compute; reflexivity ..|].
  split; [exact H1|]. apply H2.
  apply (bool_decide_unpack _). vm_compute. exact I.
Defined.

End ExchangeFacts.

(** ** The merge across requests *)

Module MergeFacts.

Import Json Render Poster Server Notions RouteNotions JSFacts RenderFacts.

Lemma written_or_not (K : string) :
  (exists k, (k, K) ∈ config_keys) \/ K = "PINTEREST_SANDBOX"
  \/ K ∉ written_keys.
Proof.
  destruct (decide (K ∈ written_keys)) as [H|H]; [|now right; right].
  unfold written_keys, config_keys in H. cbn in H.
  unfold config_keys.
  do 7 (apply elem_of_cons in H as [->|H];
        [left; eexists;
         solve [repeat first [apply list_elem_of_here
                             | apply list_elem_of_further]]
        |]).
  apply elem_of_cons in H as [->|H]; [right; now left|].
  now apply elem_of_nil in H.
Qed.

Section Numbers.

Variable numberToString : bool -> Z -> Z -> list Z.

Lemma setupEnv_fields_written (o : gmap string jsval)
  (env : gmap string (list Z)) (k K : string) :
  storable numberToString o ->
  (k, K) ∈ config_keys ->
  (setupEnv_fields numberToString o env).1 !! K
  = if truthy (prop o k) then stored numberToString (prop o k) else env !! K.
Proof.
  intros Hs H.
  pose proof (Merge.setupEnv_fields_key numberToString o env
                (proj2 (Merge.setupEnv_fields_returns numberToString o env) Hs))
    as Hk.
  rewrite Forall_forall in Hk. exact (Hk (k, K) H).
Qed.

(** A field that is empty in the config keeps its variable, however
    the call ends. *)
Lemma setupEnv_fields_kept (o : gmap string jsval)
  (env : gmap string (list Z)) (k K : string) :
  (k, K) ∈ config_keys -> truthy (prop o k) = false ->
  (setupEnv_fields numberToString o env).1 !! K = env !! K.
Proof.
  intros H Hf.
  destruct ((setupEnv_fields numberToString o env).2) as [[]|e] eqn:E.
  - pose proof (Merge.setupEnv_fields_key numberToString o env E) as Hk.
    rewrite Forall_forall in Hk. specialize (Hk (k, K) H).
    cbn [fst snd] in Hk. now rewrite Hf in Hk.
  - destruct (Merge.setupEnv_fields_stopped numberToString o env e E)
      as (_ & _ & Hk).
    rewrite Forall_forall in Hk. specialize (Hk (k, K) H).
    cbn [fst snd] in Hk. destruct Hk as [Hk|[Ht _]]; [exact Hk | congruence].
Qed.

(** X12. How two merges compose, for configs whose fields can be
    stored, as are all those that hold no array and no object. Merging
    the same config twice is merging it once. When a config object is
    merged after another, each of the seven fields holds the value of
    the later config when that one is non-empty, else the value of the
    earlier config when that one is non-empty, else what the
    environment held: a later request cannot clear a value with an
    empty field; the sandbox flag is the one of the later config
    alone. *)
Theorem setupEnv_composes
  (o1 o2 : gmap string jsval) (env : gmap string (list Z)) :
  storable numberToString o1 -> storable numberToString o2 ->
  setupEnv numberToString (CfgObj o1)
    (setupEnv numberToString (CfgObj o1) env).1
  = setupEnv numberToString (CfgObj o1) env
  /\ Forall (fun kK =>
       (setupEnv numberToString (CfgObj o2)
          (setupEnv numberToString (CfgObj o1) env).1).1 !! kK.2
       = if truthy (prop o2 kK.1) then stored numberToString (prop o2 kK.1)
         else if truthy (prop o1 kK.1) then stored numberToString (prop o1 kK.1)
         else env !! kK.2) config_keys
  /\ (setupEnv numberToString (CfgObj o2)
        (setupEnv numberToString (CfgObj o1) env).1).1 !! "PINTEREST_SANDBOX"
     = (setupEnv numberToString (CfgObj o2) env).1 !! "PINTEREST_SANDBOX".
Proof.
  intros H1 H2. cbn [setupEnv].
  assert (forall o e, storable numberToString o ->
            (setupEnv_fields numberToString o e).2 = Ret tt) as Hret.
  { intros o e Ho. now apply Merge.setupEnv_fields_returns. }
  split; [|split].
  - apply injective_projections; [|now rewrite !Hret].
    apply map_eq. intros K.
    destruct (written_or_not K) as [[k Hk]|[->|HK]].
    + rewrite !(setupEnv_fields_written _ _ k K H1 Hk).
      now destruct (truthy (prop o1 k)).
    + now rewrite !Merge.setupEnv_fields_sandbox by now apply Hret.
    + now rewrite !Merge.setupEnv_fields_frame by exact HK.
  - apply Forall_forall. intros [k K] Hk. cbn [fst snd].
    rewrite (setupEnv_fields_written _ _ k K H2 Hk).
    now rewrite (setupEnv_fields_written _ _ k K H1 Hk).
  - now rewrite !Merge.setupEnv_fields_sandbox by now apply Hret.
Qed.

(** X13. The credentials of an earlier request. After a request whose
    config could be stored and brought a token, a post-pin request
    whose config has a board and no token passes the checks, and when
    it reaches the platform it does so with the token of the earlier
    request. *)
Theorem token_of_earlier_request
  (w : world) (env : gmap string (list Z)) (o1 o2 : gmap string jsval)
  (b : body) (token : list Z) :
  storable numberToString o1 ->
  truthy (prop o1 "pinterest_token") = true ->
  stored numberToString (prop o1 "pinterest_token") = Some token ->
  token <> [] ->
  token <> js "undefined" ->
  config b = CfgObj o2 ->
  truthy (prop o2 "pinterest_token") = false ->
  truthy (prop o2 "pinterest_board") = true ->
  check_credentials
    (setupEnv numberToString (config b)
       (setupEnv numberToString (CfgObj o1) env).1).1 b = Ret tt
  /\ forall env2 request,
       post_pin numberToString w
         (setupEnv numberToString (CfgObj o1) env).1 b
       = Publishes env2 request ->
       req_bearer request = Some token.
Proof.
  intros Hs Ht Hst Hne Hu Hc Ht2 Hb.
  assert ((setupEnv numberToString (config b)
             (setupEnv numberToString (CfgObj o1) env).1).1
            !! "PINTEREST_ACCESS_TOKEN" = Some token) as Htok.
  { rewrite Hc. cbn [setupEnv].
    rewrite (setupEnv_fields_kept o2 _ "pinterest_token"
               "PINTEREST_ACCESS_TOKEN")
      by (exact Ht2 || (unfold config_keys; set_solver)).
    rewrite (setupEnv_fields_written o1 _ "pinterest_token"
               "PINTEREST_ACCESS_TOKEN")
      by (exact Hs || (unfold config_keys; set_solver)).
    now rewrite Ht. }
  split.
  - apply Publish.check_credentials_pass.
    + now exists token.
    + now exists o2.
  - intros env2 request H.
    destruct (Publish.post_pin_publishes numberToString _ _ _ _ _ H)
      as (Hm & _ & pin & _ & Hp).
    destruct (Publish.createPin_fields numberToString _ _ _ Hp)
      as (_ & -> & _).
    rewrite Hm in Htok. exact Htok.
Qed.

End Numbers.

(** The theorem at the config with the token [tok] and the one with
    the board [b1] only. *)
Lemma setupEnv_composes_witness :
  let numberToString : bool -> Z -> Z -> list Z := fun _ _ _ => js "0" in
  let o1 : gmap string jsval := {[ "pinterest_token" := VStr (js "tok") ]} in
  let o2 : gmap string jsval := {[ "pinterest_board" := VStr (js "b1") ]} in
  setupEnv numberToString (CfgObj o1) (setupEnv numberToString (CfgObj o1) ∅).1
  = setupEnv numberToString (CfgObj o1) ∅
  /\ (setupEnv numberToString (CfgObj o2)
        (setupEnv numberToString (CfgObj o1) ∅).1).1 !! "PINTEREST_SANDBOX"
     = (setupEnv numberToString (CfgObj o2) ∅).1 !! "PINTEREST_SANDBOX".
Proof.
  intros numberToString o1 o2.
  destruct (setupEnv_composes numberToString o1 o2 ∅) as (H1 & _ & H3);
    [apply (bool_decide_unpack _); vm_compute; exact I ..|].
  exact (conj H1 H3).
Defined.

(** The theorem at an earlier config with the token [tok] and a later
    one with the board [b1] only. *)
Lemma token_of_earlier_request_witness :
  let numberToString : bool -> Z -> Z -> list Z := fun _ _ _ => js "0" in
  let earlier : gmap string jsval :=
    {[ "pinterest_token" := VStr (js "tok") ]} in
  let later : gmap string jsval :=
    {[ "pinterest_board" := VStr (js "b1") ]} in
  let b := Body (VStr (js "AAAA")) (VStr (js "T")) (VStr (js "D"))
             (Some (JArr [JStr (js "a")])) (VStr (js "alt")) (VStr (js "x.y"))
             (CfgObj later) in
  check_credentials
    (setupEnv numberToString (CfgObj later)
       (setupEnv numberToString (CfgObj earlier) ∅).1).1 b
  = Ret tt
  /\ req_bearer
       (PinRequest (Some (js "b1")) (VStr (js "T"))
          (js "D" ++ [10%Z; 10%Z] ++ js "#a") (VStr (js "alt"))
          (js "https://x.y") (Some (js "tok")))
     = Some (js "tok").
Proof.
  intros numberToString earlier later b.
  destruct (token_of_earlier_request numberToString
              (World (Ret tt) (Throw TypeError)) ∅
              earlier later b (js "tok")) as [H1 H2];
    [apply (bool_decide_unpack _); vm_compute; exact I
    | reflexivity | reflexivity | discriminate | discriminate
    | reflexivity | reflexivity | reflexivity|].
  split; [exact H1|].
  apply (H2 (setupEnv numberToString (CfgObj later)
               (setupEnv numberToString (CfgObj earlier) ∅).1).1).
  vm_compute. reflexivity.
Defined.

End MergeFacts.

(** ** The boards route and the generate-only route *)

Module RouteFacts.

Import Json Render Poster Server Boards Generate Notions RouteNotions
  JSFacts StringFacts RenderFacts.

Lemma baseUrl_sandbox (env : gmap string (list Z)) (q : boards_query) :
  baseUrl env q = sandbox_host
  <-> q_boards_sandbox q = Some (QStr (js "true"))
      \/ env !! "PINTEREST_SANDBOX" = Some (js "true").
Proof.
  unfold baseUrl. rewrite <- AuthorizeFacts.is_text_spec.
  destruct (is_text (q_boards_sandbox q) (js "true"));
    destruct (decide (env !! "PINTEREST_SANDBOX" = Some (js "true")))
      as [He|He].
  - rewrite bool_decide_eq_true_2 by assumption. tauto.
  - cbn. tauto.
  - rewrite bool_decide_eq_true_2 by assumption. cbn. tauto.
  - rewrite bool_decide_eq_false_2 by assumption. cbn.
    split; [discriminate | intros [|]; [discriminate | tauto]].
Qed.

Section Platform.

Variable numberToString : bool -> Z -> Z -> list Z.
Variable JSON_stringify : json -> list Z.

(** X14. Where the boards are listed. Without a token the handler
    answers 400 and asks the platform nothing. With one, the request
    carries the text of the token, and it goes to the sandbox host
    exactly when the query says [sandbox=true] or the environment
    variable says [true], and to the production host otherwise; the
    variable is what the last request with a config left, so after a
    generate-only request whose config object could be stored and
    turns the sandbox on, a query with [sandbox=false] still goes to
    the sandbox; a config that could not be stored leaves the variable
    as it was. *)
Theorem list_boards_host
  (env : gmap string (list Z)) (q : boards_query) :
  (present (q_token q) = false ->
   boards_request_of env q = None
   /\ forall platform,
        list_boards JSON_stringify env q platform = MissingToken 400)
  /\ (forall rq, boards_request_of env q = Some (Ret rq) ->
        (exists token text,
            q_token q = Some token /\ QToString token = Ret text
            /\ bearer rq = js "Bearer " ++ text)
        /\ (forall token, q_token q = Some (QStr token) ->
            bearer rq = js "Bearer " ++ token)
        /\ (url rq = sandbox_host ++ js "/v5/boards"
            \/ url rq = production_host ++ js "/v5/boards")
        /\ (url rq = sandbox_host ++ js "/v5/boards"
            <-> q_boards_sandbox q = Some (QStr (js "true"))
                \/ env !! "PINTEREST_SANDBOX" = Some (js "true")))
  /\ (forall b o platform rq,
        g_config b = CfgObj o ->
        boards_request_of
          (generate_only numberToString env b platform).1 q = Some (Ret rq) ->
        (storable numberToString o ->
         (url rq = sandbox_host ++ js "/v5/boards"
          <-> q_boards_sandbox q = Some (QStr (js "true"))
              \/ prop o "pinterest_sandbox" = VBool true
              \/ prop o "pinterest_sandbox" = VStr (js "true")))
        /\ (~ storable numberToString o ->
            (url rq = sandbox_host ++ js "/v5/boards"
             <-> q_boards_sandbox q = Some (QStr (js "true"))
                 \/ env !! "PINTEREST_SANDBOX" = Some (js "true")))).
Proof.
  assert (forall e rq, boards_request_of e q = Some (Ret rq) ->
            (exists token text,
                q_token q = Some token /\ QToString token = Ret text
                /\ bearer rq = js "Bearer " ++ text)
            /\ url rq = baseUrl e q ++ js "/v5/boards") as Hrq.
  { intros e rq. unfold boards_request_of.
    destruct (q_token q) as [token|]; [|discriminate].
    destruct (present (Some token)); [|discriminate].
    destruct (QToString token) as [text|x] eqn:Et; cbn [JS.bind];
      [|discriminate].
    intros [= <-]. split; [|reflexivity]. now exists token, text. }
  assert (forall e, baseUrl e q ++ js "/v5/boards"
                    = sandbox_host ++ js "/v5/boards"
                    <-> baseUrl e q = sandbox_host) as Hhost.
  { intros e. split; [|now intros ->]. unfold baseUrl.
    destruct (_ || _); [reflexivity | discriminate]. }
  split; [|split].
  - intros Hp. unfold list_boards, boards_request_of.
    destruct (q_token q) as [token|]; [|split; reflexivity].
    rewrite Hp. split; reflexivity.
  - intros rq H. destruct (Hrq env rq H) as [Hb Hu]. split; [exact Hb|].
    split.
    { intros token Ht. destruct Hb as (token' & text & Ht' & Hs & ->).
      rewrite Ht in Ht'. injection Ht' as <-. cbn in Hs.
      now injection Hs as <-. }
    rewrite Hu. split; [|rewrite Hhost; apply baseUrl_sandbox].
    unfold baseUrl. destruct (_ || _); [now left | now right].
  - intros b o platform rq Hc H. destruct (Hrq _ rq H) as [_ Hu].
    rewrite Hu, Hhost, baseUrl_sandbox. cbn [generate_only fst].
    rewrite Hc. cbn [setupEnv]. split.
    + intros Hs.
      rewrite Merge.setupEnv_fields_sandbox
        by now apply Merge.setupEnv_fields_returns.
      rewrite <- Merge.strict_eq_true.
      destruct (strict_eq (prop o "pinterest_sandbox") (VBool true)
                || strict_eq (prop o "pinterest_sandbox") (VStr (js "true")));
        split; intros [Hq|Hs']; auto; discriminate.
    + intros Hs.
      destruct ((setupEnv_fields numberToString o env).2) as [[]|e] eqn:E.
      * destruct Hs. now apply (Merge.setupEnv_fields_returns _ o env).
      * destruct (Merge.setupEnv_fields_stopped numberToString o env e E)
          as (_ & -> & _). reflexivity.
Qed.

Lemma boards_errData_prop (response : option (Z * json)) (k : list Z) :
  exists v, get_prop (Exchange.errorData response) k = Ret v.
Proof.
  pose proof (PagesFacts.errorData_not_null response) as H.
  destruct (Exchange.errorData response); try congruence; cbn; eauto.
Qed.

(** X15. What list-boards reports when the platform call fails. The
    handler always answers 500 with a message, never throws out of its
    [catch] block, and (JSON.stringify giving no empty text) never
    reports the message of the error it caught: a failure without an
    answer of the platform, and an answer with a [null] body, are
    reported as the text of an empty object. *)
Theorem list_boards_failure
  (env : gmap string (list Z)) (q : boards_query) :
  (forall v, JSON_stringify v <> []) ->
  present (q_token q) = true ->
  (forall response message,
      exists reported,
        list_boards JSON_stringify env q (Rejected response message)
        = BoardsFailed 500 reported
        /\ forall e, reported <> MessageOf e)
  /\ (forall message,
        list_boards JSON_stringify env q (Rejected None message)
        = BoardsFailed 500 (Text (JSON_stringify (JObj []))))
  /\ list_boards JSON_stringify env q (Resolved JNull)
     = BoardsFailed 500 (Text (JSON_stringify (JObj []))).
Proof.
  intros Hs Hp.
  assert (forall v, nonempty (JSON_stringify v) = true) as Hne.
  { intros v. apply nonempty_true, Hs. }
  assert (forall e, boards_failed JSON_stringify None e
                    = BoardsFailed 500 (Text (JSON_stringify (JObj [])))) as Hnone.
  { intros e. unfold boards_failed. cbn. now rewrite Hne. }
  assert (forall response message,
            exists reported,
              boards_failed JSON_stringify response message
              = BoardsFailed 500 reported
              /\ forall e, reported <> MessageOf e) as Hfailed.
  { intros response message. unfold boards_failed.
    destruct (boards_errData_prop response (js "message")) as [v ->].
    eexists. split; [reflexivity|]. intros e.
    unfold or_else. destruct v as [v|].
    + destruct (to_boolean (Some v)); [discriminate|].
      destruct (Exchange.errorData response) eqn:Ed;
        rewrite ?Hne; try discriminate.
      destruct (nonempty s) eqn:En; [discriminate|]. exfalso.
      apply nonempty_false in En. subst s.
      unfold Exchange.errorData in Ed.
      destruct response as [[st d]|]; [|discriminate].
      destruct (to_boolean (Some d)) eqn:Et; [|discriminate].
      subst d. discriminate Et.
    + destruct (Exchange.errorData response) eqn:Ed;
        rewrite ?Hne; try discriminate.
      destruct (nonempty s) eqn:En; [discriminate|]. exfalso.
      apply nonempty_false in En. subst s.
      unfold Exchange.errorData in Ed.
      destruct response as [[st d]|]; [|discriminate].
      destruct (to_boolean (Some d)) eqn:Et; [|discriminate].
      subst d. discriminate Et. }
  unfold list_boards, boards_request_of.
  destruct (q_token q) as [token|]; [|discriminate Hp]. rewrite Hp.
  destruct (QToString token) as [text|x]; cbn [JS.bind].
  - split; [|split].
    + intros response message. apply Hfailed.
    + intros message. apply Hnone.
    + cbn [get_prop]. apply Hnone.
  - rewrite Hnone. split; [|split; reflexivity].
    intros response message. eexists. split; [reflexivity | discriminate].
Qed.

Lemma language_of_throws (b : generate_body) (e : error) :
  language_of b = Throw e -> e = TypeError.
Proof.
  unfold language_of. destruct (truthy (g_language b)); [discriminate|].
  destruct (g_config b); cbn; congruence.
Qed.

Lemma generate_only_request_throws (env : gmap string (list Z))
  (b : generate_body) (e : error) :
  generate_only_request numberToString env b = Throw e -> e = TypeError.
Proof.
  unfold generate_only_request. cbv zeta.
  destruct (Merge.setupEnv_ends numberToString (g_config b) env) as [->| ->];
    cbn [JS.bind]; [|congruence].
  destruct (language_of b) as [language|x] eqn:El; cbn [JS.bind].
  - unfold completion_request_of. cbv zeta.
    destruct (template numberToString (g_title b)) as [t|x] eqn:Et;
      cbn [JS.bind]; [discriminate|].
    intros [= <-]. now apply (template_throws numberToString (g_title b)).
  - intros [= <-]. now apply (language_of_throws b).
Qed.

Lemma generatePinContent_object (content : list Z) (v : json) :
  generatePinContent content = Ret v -> exists members, v = JObj members.
Proof.
  unfold generatePinContent.
  destruct (match_braces content) as [m|] eqn:Em; [|discriminate].
  destruct (JSON_parse m) as [x|] eqn:Ex; [|discriminate].
  intros [= <-].
  destruct (Generator.match_braces_some _ _ Em) as (_ & mid & _ & _ & _ & _ & ->).
  exact (Generator.JSON_parse_brace _ _ Ex).
Qed.

Lemma generatePinContent_of_ret (platform : upstream) (v : json) :
  generatePinContent_of numberToString platform = Ret v ->
  exists data content members,
    platform = Resolved data /\ response_content data = Ret content
    /\ generatePinContent content = Ret v /\ v = JObj members.
Proof.
  unfold generatePinContent_of. destruct platform as [data|response message].
  - destruct (response_content data) as [content|e] eqn:Ec; cbn [JS.bind];
      [|discriminate].
    intros H. destruct (generatePinContent_object _ _ H) as [members ->].
    now exists data, content, members.
  - unfold or_else.
    destruct (optional_prop _ _) as [x|]; [|discriminate].
    destruct (to_boolean (Some x)); [|discriminate].
    destruct (ToString numberToString x); discriminate.
Qed.

(** X16. The generate-only route and the config of its request. Without
    a config the handler changes no variable, and it fails with a
    TypeError, status 500, exactly when the request names no language
    either: with a language it asks the model as the environment
    stands. Whatever the request, an error answer has status 500, and
    a success answer carries a JSON object that the model's answer
    held as text, in [choices[0].message.content]; an answer without
    [choices] fails with a TypeError. *)
Theorem generate_only_answers
  (env : gmap string (list Z)) (b : generate_body) (platform : upstream) :
  (g_config b = CfgNullish ->
   (generate_only numberToString env b platform).1 = env
   /\ (truthy (g_language b) = false ->
       generate_only_request numberToString env b = Throw TypeError
       /\ generate_only numberToString env b platform
          = (env, GenerateFailed 500 TypeError))
   /\ (truthy (g_language b) = true ->
       generate_only_request numberToString env b
       = completion_request_of numberToString env (g_title b)
           (g_language b)))
  /\ (forall status e,
        (generate_only numberToString env b platform).2
        = GenerateFailed status e -> status = 500%Z)
  /\ (forall seoContent,
        (generate_only numberToString env b platform).2
        = SeoContent seoContent ->
        exists data content members,
          platform = Resolved data
          /\ response_content data = Ret content
          /\ generatePinContent content = Ret seoContent
          /\ seoContent = JObj members)
  /\ (forall data,
        platform = Resolved data ->
        get_prop data (js "choices") = Ret None ->
        exists e,
          (generate_only numberToString env b platform).2
          = GenerateFailed 500 e
          /\ e <> Error (js "Invalid JSON response from OpenRouter")).
Proof.
  split; [|split; [|split]].
  - intros Hc. unfold generate_only, generate_only_request, language_of.
    rewrite Hc. cbn [setupEnv fst config_field]. split; [reflexivity|].
    split; intros ->; cbn [JS.bind]; [split|]; reflexivity.
  - intros status e. unfold generate_only. cbn [snd].
    destruct (JS.bind _ _); [discriminate | now intros [= <- _]].
  - intros seoContent. unfold generate_only. cbn [snd].
    destruct (generate_only_request numberToString env b) as [rq|e];
      cbn [JS.bind]; [|discriminate].
    destruct (generatePinContent_of numberToString platform) as [v|e] eqn:Eg;
      [|discriminate].
    intros [= <-]. now apply generatePinContent_of_ret.
  - intros data -> Hd. unfold generate_only. cbn [snd].
    destruct (generate_only_request numberToString env b) as [rq|e] eqn:El;
      cbn [JS.bind].
    + unfold generatePinContent_of, response_content. rewrite Hd.
      cbn [JS.bind first_of]. eexists. split; [reflexivity | discriminate].
    + eexists. split; [reflexivity|].
      rewrite (generate_only_request_throws _ _ _ El). discriminate.
Qed.

End Platform.

(** The theorem at a query without a token, and at a query with
    [sandbox=false] after a generate-only request whose config turns
    the sandbox on. *)
Lemma list_boards_host_witness :
  let o : gmap string jsval := {[ "pinterest_sandbox" := VBool true ]} in
  let q := BoardsQuery (Some (QStr (js "t"))) (Some (QStr (js "false"))) in
  let rq := BoardsRequest (js "https://api-sandbox.pinterest.com/v5/boards")
              (js "Bearer t") in
  list_boards (fun _ => js "{}") ∅ (BoardsQuery None None)
    (Resolved (JObj []))
  = MissingToken 400
  /\ (url rq = sandbox_host ++ js "/v5/boards"
      <-> q_boards_sandbox q = Some (QStr (js "true"))
          \/ prop o "pinterest_sandbox" = VBool true
          \/ prop o "pinterest_sandbox" = VStr (js "true")).
Proof.
  intros o q rq. split.
  - apply (proj1 (list_boards_host (fun _ _ _ => []) (fun _ => js "{}") ∅
                    (BoardsQuery None None))).
    reflexivity.
  - apply (proj2 (proj2 (list_boards_host (fun _ _ _ => []) (fun _ => js "{}")
                           ∅ q))
             (GenerateBody (VStr (js "T")) (CfgObj o) (VStr (js "en")))
             o (Resolved (JObj [])) rq);
      [reflexivity | vm_compute; reflexivity
      | apply (bool_decide_unpack _); vm_compute; exact I].
Defined.

(** The theorem at a failure without an answer. *)
Lemma list_boards_failure_witness :
  list_boards (fun _ => js "{}") ∅ (BoardsQuery (Some (QStr (js "t"))) None)
    (Rejected None (js "connect ECONNREFUSED"))
  = BoardsFailed 500 (Text (js "{}")).
Proof.
  apply (proj1 (proj2 (list_boards_failure (fun _ => js "{}") ∅
                         (BoardsQuery (Some (QStr (js "t"))) None)
                         ltac:(discriminate) eq_refl))).
Defined.

(** The theorem at a request without config and language, and at an
    answer of the model without choices. *)
Lemma generate_only_answers_witness :
  generate_only (fun _ _ _ => []) ∅
    (GenerateBody (VStr (js "T")) CfgNullish VUndef) (Resolved (JObj []))
  = (∅, GenerateFailed 500 TypeError)
  /\ exists e,
       (generate_only (fun _ _ _ => []) ∅
          (GenerateBody (VStr (js "T")) (CfgObj ∅) (VStr (js "fr")))
          (Resolved (JObj []))).2
       = GenerateFailed 500 e
       /\ e <> Error (js "Invalid JSON response from OpenRouter").
Proof.
  split.
  - apply (proj2 (proj1 (proj2 (proj1 (generate_only_answers (fun _ _ _ => [])
             ∅ (GenerateBody (VStr (js "T")) CfgNullish VUndef)
             (Resolved (JObj []))) eq_refl)) eq_refl)).
  - apply (proj2 (proj2 (proj2 (generate_only_answers (fun _ _ _ => [])
             ∅ (GenerateBody (VStr (js "T")) (CfgObj ∅) (VStr (js "fr")))
             (Resolved (JObj [])))))
             (JObj [])); reflexivity.
Defined.

End RouteFacts.

(** ** More on the banner *)

Module BannerFacts.

Import Poster Notions RouteNotions JSFacts StringFacts.

Lemma unescape_escape_char (c : Z) (x : list Z) :
  unescapeXml (escape_char c ++ x) = c :: unescapeXml x.
Proof.
  unfold escape_char.
  destruct (Z.eqb_spec c 38) as [->|H38]; [reflexivity|].
  destruct (Z.eqb_spec c 60) as [->|H60]; [reflexivity|].
  destruct (Z.eqb_spec c 62) as [->|H62]; [reflexivity|].
  destruct (Z.eqb_spec c 34) as [->|H34]; [reflexivity|].
  destruct (Z.eqb_spec c 39) as [->|H39]; [reflexivity|].
  cbn [app unescapeXml]. apply Z.eqb_neq in H38. now rewrite H38.
Qed.

Lemma escape_char_special (c : Z) :
  (xml_special c = false /\ escape_char c = [c])
  \/ (xml_special c = true
      /\ exists e, escape_char c = 38%Z :: e /\ 3 <= length e).
Proof.
  unfold escape_char, xml_special.
  destruct (Z.eqb_spec c 38) as [->|H38];
    [right; split; [reflexivity|]; eexists; split; [reflexivity|cbn; lia]|].
  destruct (Z.eqb_spec c 60) as [->|H60];
    [right; split; [reflexivity|]; eexists; split; [reflexivity|cbn; lia]|].
  destruct (Z.eqb_spec c 62) as [->|H62];
    [right; split; [reflexivity|]; eexists; split; [reflexivity|cbn; lia]|].
  destruct (Z.eqb_spec c 34) as [->|H34];
    [right; split; [reflexivity|]; eexists; split; [reflexivity|cbn; lia]|].
  destruct (Z.eqb_spec c 39) as [->|H39];
    [right; split; [reflexivity|]; eexists; split; [reflexivity|cbn; lia]|].
  left. split; reflexivity.
Qed.

Lemma escapeXml_length (s : list Z) : length s <= length (escapeXml s).
Proof.
  induction s as [|c s IH]; [cbn; lia|].
  rewrite EscapeXml.escapeXml_cons, length_app. cbn [length].
  destruct (escape_char_special c) as [[_ ->]|(_ & e & -> & He)];
    cbn [length]; lia.
Qed.

Lemma escapeXml_unescaped (s : list Z) : unescapeXml (escapeXml s) = s.
Proof.
  induction s as [|c s IH]; [reflexivity|].
  now rewrite EscapeXml.escapeXml_cons, unescape_escape_char, IH.
Qed.

(** X17. Escaping loses nothing. A reader that takes each of the five
    predefined entities for the character it names reads every escaped
    text back as the text it was made from, so two texts with the same
    escape are the same text; the escape is the text itself exactly
    when the text holds none of the five characters, and in every other
    case it is longer. *)
Theorem escapeXml_faithful (s : list Z) :
  unescapeXml (escapeXml s) = s
  /\ (forall t, escapeXml s = escapeXml t -> s = t)
  /\ (escapeXml s = s <-> Forall (fun c => xml_special c = false) s)
  /\ (Exists (fun c => xml_special c = true) s ->
      length s < length (escapeXml s)).
Proof.
  split; [apply escapeXml_unescaped|]. split; [|split].
  - intros t H. rewrite <- (escapeXml_unescaped s), H.
    apply escapeXml_unescaped.
  - induction s as [|c s IH]; [split; [constructor | reflexivity]|].
    rewrite EscapeXml.escapeXml_cons.
    destruct (escape_char_special c) as [[Hc ->]|(Hc & e & -> & He)].
    + cbn [app]. split.
      * intros [= H]. constructor; [exact Hc | now apply IH].
      * intros H. inversion H as [|? ? _ Hs]; subst. f_equal. now apply IH.
    + split.
      * intros H. exfalso. apply (f_equal (@length Z)) in H.
        cbn [app length] in H. rewrite length_app in H.
        pose proof (escapeXml_length s). lia.
      * intros H. inversion H; congruence.
  - induction 1 as [c s Hc|c s _ IH]; rewrite EscapeXml.escapeXml_cons,
      length_app; cbn [length].
    + pose proof (escapeXml_length s).
      destruct (escape_char_special c) as [[Hn _]|(_ & e & -> & He)];
        [congruence|]. cbn [length]. lia.
    + destruct (escape_char_special c) as [[_ ->]|(_ & e & -> & He)];
        cbn [length]; lia.
Qed.

(** The theorem at the text [a<b & c]. *)
Lemma escapeXml_faithful_witness :
  js "a<b & c" = js "a<b & c"
  /\ length (js "a<b & c") < length (js "a&lt;b &amp; c").
Proof.
  split.
  - apply (proj1 (proj2 (escapeXml_faithful (js "a<b & c")))). reflexivity.
  - apply (proj2 (proj2 (proj2 (escapeXml_faithful (js "a<b & c"))))).
    right. left. reflexivity.
Defined.

Lemma split_go_piece_length (sep : Z) (acc s : list Z) :
  Forall (fun p => length p <= length acc + length s) (split_go sep acc s).
Proof.
  revert acc. induction s as [|x s IH]; intros acc; cbn [split_go].
  - repeat constructor. rewrite length_rev. lia.
  - destruct (x =? sep)%Z.
    + constructor; [rewrite length_rev; lia|].
      eapply Forall_impl; [apply (IH [])|]. cbn. intros p Hp. lia.
    + eapply Forall_impl; [apply (IH (x :: acc))|]. cbn. intros p Hp. lia.
Qed.

Lemma word_length (s w : list Z) : In w (words_of s) -> length w <= length s.
Proof.
  unfold words_of. intros H. apply List.filter_In in H as [H _].
  pose proof (split_go_piece_length 32 [] s) as Hp.
  rewrite Forall_forall in Hp. apply list_elem_of_In in H.
  exact (Hp w H).
Qed.

Lemma join_member_length (sep : list Z) (wl : list (list Z)) (w : list Z) :
  In w wl -> length w <= length (join sep wl).
Proof.
  induction wl as [|x wl IH]; [intros []|].
  intros [->|H].
  - destruct wl; cbn [join]; rewrite ?length_app; lia.
  - specialize (IH H). destruct wl as [|y wl']; [destruct H|].
    change (join sep (x :: y :: wl')) with (x ++ sep ++ join sep (y :: wl')).
    rewrite !length_app. lia.
Qed.

Lemma fontSize_smallest (lines : list (list Z)) :
  fontSize lines = 50%Z <-> Exists (fun l => 25 < length l) lines.
Proof.
  rewrite <- FontSize.some_longer. unfold fontSize.
  destruct (existsb (fun l => (25 <? length l)%nat) lines);
    destruct (existsb (fun l => (20 <? length l)%nat) lines);
    split; (discriminate || reflexivity).
Qed.

(** X18. When the banner falls back to the smallest font. For a title
    that is spaced plainly (the space is its only white space), the
    font size of the banner is 50 exactly when some word of the
    upper-cased title is longer than 25 characters: wrapping never
    makes a line of more than 25 characters out of words that fit. *)
Theorem smallest_font_long_word
  (toUpperCase : list Z -> list Z) (title : list Z) :
  spaced_plainly (toUpperCase title) ->
  (fontSize (titleLines toUpperCase title) = 50%Z
   <-> Exists (fun w => 25 < length w) (words_of (toUpperCase title))).
Proof.
  intros Hsp. rewrite fontSize_smallest.
  unfold titleLines, wrapLines, maxCharsPerLine.
  set (T := toUpperCase title) in *.
  destruct (Nat.ltb_spec 25 (length T)) as [Hlong|Hshort].
  - pose proof (Wrap.wrap_fold_inv (split 32 T) [] ([], [])
                  (Wrap.pieces_no_space T Hsp) Wrap.wrap_inv_start)
      as (wls & wc & -> & Hg & Hw & Hcat & Hfit & _ & _).
    rewrite Wrap.flush_with_current by exact Hw.
    pose proof (Wrap.good_with_current wls wc Hg Hw) as Hgood.
    cbn [app] in Hcat. unfold words_of.
    rewrite <- Hcat, <- Wrap.concat_with_current.
    set (L := with_current wls wc) in *.
    rewrite !Exists_exists. split.
    + intros (line & Hin & Hlen). apply list_elem_of_In, in_map_iff in Hin
        as (wl & <- & Hwl).
      rewrite Forall_forall in Hfit.
      apply list_elem_of_In in Hwl. pose proof Hwl as Hwl'.
      destruct (Hfit wl Hwl) as [Hle|[w ->]]; [lia|].
      exists w. split; [|exact Hlen].
      apply list_elem_of_In, in_concat. exists [w].
      split; [now apply list_elem_of_In | now left].
    + intros (w & Hin & Hlen). apply list_elem_of_In, in_concat in Hin
        as (wl & Hwl & Hw').
      exists (line_of wl). split.
      * apply list_elem_of_In, in_map. exact Hwl.
      * pose proof (join_member_length [32%Z] wl w Hw'). unfold line_of. lia.
  - split.
    + intros H. inversion H as [? ? Hl|? ? Hl]; [lia | inversion Hl].
    + intros H. exfalso. apply Exists_exists in H as (w & Hin & Hlen).
      apply list_elem_of_In in Hin. pose proof (word_length T w Hin). lia.
Qed.

(** The theorem at a title with a word of 26 characters. *)
Lemma smallest_font_long_word_witness :
  fontSize (titleLines ascii_upper (js "my supercalifragilisticexpial cake"))
  = 50%Z.
Proof.
  apply (proj2 (smallest_font_long_word ascii_upper
                  (js "my supercalifragilisticexpial cake")
                  ltac:(vm_compute; repeat constructor;
                        intros H; (discriminate H || reflexivity)))).
  vm_compute. right. left. lia.
Defined.

(** X19. The lines of a wrapped title. For a title that is spaced
    plainly and longer than 25 characters, no line of the banner is
    empty and no line starts or ends with white space, however many
    spaces stand between the words or at the ends of the title; and
    there is a line exactly when the title has a word, so a title of
    spaces only leaves the banner without any title line. *)
Theorem wrapped_lines_tight
  (toUpperCase : list Z -> list Z) (title : list Z) :
  25 < length (toUpperCase title) ->
  spaced_plainly (toUpperCase title) ->
  Forall (fun line => line <> [] /\ trim line = line)
    (titleLines toUpperCase title)
  /\ (titleLines toUpperCase title = []
      <-> words_of (toUpperCase title) = []).
Proof.
  intros Hlong Hsp. unfold titleLines, wrapLines, maxCharsPerLine.
  set (T := toUpperCase title) in *.
  apply Nat.ltb_lt in Hlong. rewrite Hlong.
  pose proof (Wrap.wrap_fold_inv (split 32 T) [] ([], [])
                (Wrap.pieces_no_space T Hsp) Wrap.wrap_inv_start)
    as (wls & wc & -> & Hg & Hw & Hcat & _ & _ & _).
  rewrite Wrap.flush_with_current by exact Hw.
  pose proof (Wrap.good_with_current wls wc Hg Hw) as Hgood.
  cbn [app] in Hcat. unfold words_of.
  rewrite <- Hcat, <- Wrap.concat_with_current.
  set (L := with_current wls wc) in *. split.
  - apply Forall_map. eapply Forall_impl; [exact Hgood|].
    intros wl Hwl. pose proof (Wrap.tight_line wl Hwl) as Ht. split.
    + intros E. apply Wrap.tight_nonempty in Ht. rewrite E in Ht.
      discriminate Ht.
    + now apply Wrap.trim_tight.
  - destruct L as [|wl L']; [split; reflexivity|].
    split; [discriminate|]. intros E. exfalso.
    inversion Hgood as [|? ? [Hne _] _]; subst.
    cbn [concat] in E. apply app_eq_nil in E as [E _]. congruence.
Qed.

(** The theorem at a title with spaces at its ends and between its
    words. *)
Lemma wrapped_lines_tight_witness :
  Forall (fun line => line <> [] /\ trim line = line)
    (titleLines ascii_upper (js "  easy   chocolate chip cookies recipe  "))
  /\ (titleLines ascii_upper (js "  easy   chocolate chip cookies recipe  ")
      = []
      <-> words_of (ascii_upper
                      (js "  easy   chocolate chip cookies recipe  ")) = []).
Proof.
  apply (wrapped_lines_tight ascii_upper
           (js "  easy   chocolate chip cookies recipe  ")).
  - vm_compute. lia.
  - vm_compute. repeat constructor; intros H; (discriminate H || reflexivity).
Defined.

End BannerFacts.

(** ** generateAndPostPin *)

Module CliFacts.

Import Json Render Poster Generate Cli Notions RouteNotions JSFacts
  StringFacts RenderFacts.

Section Numbers.

Variable numberToString : bool -> Z -> Z -> list Z.

Lemma tagged_shape (hashtags : list json) (tags : list (list Z)) :
  tagged numberToString hashtags = Ret tags ->
  length tags = length hashtags
  /\ Forall (fun t => exists text, t = 35%Z :: text) tags.
Proof.
  revert tags. induction hashtags as [|h r IH]; intros tags; cbn [tagged].
  - intros <-%Ret_inj. split; [reflexivity | constructor].
  - destruct (ToString numberToString h) as [text|e]; cbn [JS.bind];
      [|discriminate].
    destruct (tagged numberToString r) as [rest|e]; cbn [JS.bind];
      [|discriminate].
    intros <-%Ret_inj. destruct (IH rest eq_refl) as [Hl Hf].
    split; [cbn; now rewrite Hl|]. constructor; [now exists text | exact Hf].
Qed.

Lemma logged_ret (seoContent : json) (title : option json)
  (description : list Z) (hashtags : list json) :
  logged numberToString seoContent = Ret (title, description, hashtags) ->
  get_prop seoContent (js "title") = Ret title
  /\ get_prop seoContent (js "description") = Ret (Some (JStr description))
  /\ get_prop seoContent (js "hashtags") = Ret (Some (JArr hashtags)).
Proof.
  unfold logged.
  destruct (get_prop seoContent (js "title")) as [t|e]; cbn [JS.bind];
    [|discriminate].
  destruct (template numberToString t) as [?|e]; cbn [JS.bind];
    [|discriminate].
  destruct (get_prop seoContent (js "description")) as [d|e]; cbn [JS.bind];
    [|discriminate].
  destruct d as [[| | |s| |]|]; cbn [JS.bind]; try discriminate.
  destruct (get_prop seoContent (js "hashtags")) as [h|e]; cbn [JS.bind];
    [|discriminate].
  destruct h as [[| | | |l|]|]; cbn [JS.bind]; try discriminate.
  destruct (ToString numberToString (JArr l)) as [?|e]; cbn [JS.bind];
    [|discriminate].
  intros H%Ret_inj. injection H as <- <- <-. auto.
Qed.

(** X20. What generateAndPostPin checks before it posts. A pin reaches
    the platform only when the content generator returned an object
    whose title and description are strings and whose hashtags are an
    array: the lines that log the content and the banner's
    [toUpperCase] throw for anything else. The pin is then posted with
    that title, with the description followed by a blank line and the
    hashtags, one tag with its hash sign per element, which is the
    description [createPin] makes in the server's route (for hashtags
    that are strings, the description, a blank line and the tags with
    their hash signs, a space between two), and with the alt text as
    the generator gave it, which nothing checks. When a step before
    the POST throws, the function returns the failure with that error,
    whatever the platform would have answered. *)
Theorem generateAndPostPin_checks
  (env : gmap string (list Z)) (link : list Z) (m : machine)
  (generator : upstream) :
  (forall seoContent post,
      publication numberToString env link m generator
      = Ret (seoContent, post) ->
      exists members title description hashtags tags,
        generatePinContent_of numberToString generator = Ret seoContent
        /\ seoContent = JObj members
        /\ lookup_member (js "title") members = Some (JStr title)
        /\ lookup_member (js "description") members
           = Some (JStr description)
        /\ lookup_member (js "hashtags") members = Some (JArr hashtags)
        /\ post_title post = Some (JStr title)
        /\ length tags = length hashtags
        /\ Forall (fun t => exists text, t = 35%Z :: text) tags
        /\ post_description post
           = description ++ [10%Z; 10%Z] ++ join [32%Z] tags
        /\ post_alt_text post = lookup_member (js "altText") members
        /\ post_link post = link
        /\ fullDescription numberToString (VStr description) hashtags
           = Ret (post_description post)
        /\ (forall strings, hashtags = map JStr strings ->
            post_description post
            = description ++ [10%Z; 10%Z] ++ tags_text strings))
  /\ (forall e,
        publication numberToString env link m generator = Throw e ->
        forall platform,
          generateAndPostPin numberToString env link m generator platform
          = Failure e).
Proof.
  split.
  - intros seoContent post. unfold publication.
    destruct (generatePinContent_of numberToString generator)
      as [sc|e] eqn:Eg; cbn [JS.bind]; [|discriminate].
    destruct (RouteFacts.generatePinContent_of_ret numberToString _ _ Eg)
      as (_ & _ & members & _ & _ & _ & ->).
    destruct (logged numberToString (JObj members))
      as [[[title description] hashtags]|e] eqn:El; cbn [JS.bind];
      [|discriminate].
    destruct (logged_ret _ _ _ _ El) as (Ht & Hd & Hh).
    cbn [get_prop] in Ht, Hd, Hh.
    apply Ret_inj in Ht, Hd, Hh.
    destruct (make_dir m) as [?|e]; cbn [JS.bind]; [|discriminate].
    unfold generatePosterImage.
    destruct (resize_images m) as [?|e]; cbn [JS.bind]; [|discriminate].
    destruct title as [[| | |t| |]|]; cbn [JS.bind]; try discriminate.
    destruct (compose_poster m) as [?|e]; cbn [JS.bind]; [|discriminate].
    unfold pin_post_of.
    destruct (tagged numberToString hashtags) as [tags|e] eqn:Et;
      cbn [JS.bind]; [|discriminate].
    destruct (read_poster m) as [image|e]; cbn [JS.bind]; [|discriminate].
    intros H%Ret_inj. injection H as <- <-.
    destruct (tagged_shape _ _ Et) as [Hlen Htags].
    exists members, t, description, hashtags, tags.
    cbn [post_title post_description post_alt_text post_link].
    repeat split; try assumption.
    + unfold fullDescription. cbn [template ToString JS.bind].
      now rewrite Et.
    + intros strings ->. rewrite Hashtags.tagged_strings in Et.
      apply Ret_inj in Et. subst tags. now rewrite Hashtags.join_tags.
  - intros e H platform. unfold generateAndPostPin. now rewrite H.
Qed.

End Numbers.

(** The theorem at an answer of the generator that holds a full
    content, and at one whose description is missing. *)
Lemma generateAndPostPin_checks_witness :
  let answer text :=
    Resolved
      (JObj [(js "choices",
              JArr [JObj [(js "message",
                           JObj [(js "content", JStr text)])]])]) in
  let full :=
    js "{" ++ quote (js "title") ++ js ":" ++ quote (js "T") ++ js ","
    ++ quote (js "description") ++ js ":" ++ quote (js "D") ++ js ","
    ++ quote (js "hashtags") ++ js ":[" ++ quote (js "a") ++ js ",null]}" in
  let m := Machine (Ret tt) (Ret tt) (Ret tt) (Ret [255%Z]) in
  (exists members title description hashtags tags,
      generatePinContent_of (fun _ _ _ => []) (answer full)
      = Ret (JObj [(js "title", JStr (js "T"));
                   (js "description", JStr (js "D"));
                   (js "hashtags", JArr [JStr (js "a"); JNull])])
      /\ JObj [(js "title", JStr (js "T"));
               (js "description", JStr (js "D"));
               (js "hashtags", JArr [JStr (js "a"); JNull])]
         = JObj members
      /\ lookup_member (js "title") members = Some (JStr title)
      /\ lookup_member (js "description") members = Some (JStr description)
      /\ lookup_member (js "hashtags") members = Some (JArr hashtags)
      /\ Some (JStr (js "T")) = Some (JStr title)
      /\ length tags = length hashtags
      /\ Forall (fun t => exists text, t = 35%Z :: text) tags
      /\ js "D" ++ [10%Z; 10%Z] ++ js "#a #null"
         = description ++ [10%Z; 10%Z] ++ join [32%Z] tags
      /\ None = lookup_member (js "altText") members
      /\ js "l" = js "l"
      /\ fullDescription (fun _ _ _ => []) (VStr description) hashtags
         = Ret (js "D" ++ [10%Z; 10%Z] ++ js "#a #null")
      /\ (forall strings, hashtags = map JStr strings ->
          js "D" ++ [10%Z; 10%Z] ++ js "#a #null"
          = description ++ [10%Z; 10%Z] ++ tags_text strings))
  /\ generateAndPostPin (fun _ _ _ => []) ∅ (js "l") m
       (answer (js "{" ++ quote (js "title") ++ js ":" ++ quote (js "T")
                ++ js "}"))
       (Resolved (JObj []))
     = Failure TypeError.
Proof.
  intros answer full m. split.
  - apply (proj1 (generateAndPostPin_checks (fun _ _ _ => []) ∅
                    (js "l") m (answer full))
             (JObj [(js "title", JStr (js "T"));
                    (js "description", JStr (js "D"));
                    (js "hashtags", JArr [JStr (js "a"); JNull])])
             (PinPost None (Some (JStr (js "T")))
                (js "D" ++ [10%Z; 10%Z] ++ js "#a #null") None
                (js "l") (Base64.encode [255%Z]) None)).
    vm_compute. reflexivity.
  - apply (proj2 (generateAndPostPin_checks (fun _ _ _ => []) ∅
                    (js "l") m
                    (answer (js "{" ++ quote (js "title") ++ js ":"
                             ++ quote (js "T") ++ js "}")))).
    vm_compute. reflexivity.
Defined.

End CliFacts.
